(** * Band statistics of [vaspy.cli.bandstats]: band edges, fitting windows
    and effective masses.

    The Python functions [get_band_edges], [get_data] and [calc_em] are
    embedded as Rocq functions and the properties of their specification
    are proved about them.

    Numbers.  The program computes with IEEE doubles (Python [float],
    numpy [float64]).  They are modelled by [float] below: the special
    values NaN, -inf and +inf with their IEEE rules, and the finite values
    as real numbers with exact arithmetic (no rounding, no overflow, one
    zero).  The infinities are the seeds of the scans of [get_band_edges];
    NaN is what numpy's division gives for 0/0.

    Effects.  An exception ends a function: fallible steps live in the
    error monad [result].  The log lines are not kept as text; the values
    [get_band_edges] only logs (the gaps and the advisory tests) are
    fields of its [report]. *)

From Stdlib Require Import String.
From Stdlib Require Import Reals RList Lra Lia ZArith List Bool Sorted
  DecimalString.
Import ListNotations.

(* ------------------------------------------------------------------ *)
(** ** Python exceptions and the error monad *)

Inductive exn := IndexError | KeyError | TypeError.

Inductive result (A : Type) : Type :=
| Ok (a : A)
| Raise (err : exn).

Arguments Ok {A} a.
Arguments Raise {A} err.

Definition bind {A B} (m : result A) (k : A -> result B) : result B :=
  match m with
  | Ok a => k a
  | Raise err => Raise err
  end.

Notation "x <- m ;; k" := (bind m (fun x => k))
  (at level 61, m at next level, right associativity).

(* ------------------------------------------------------------------ *)
(** ** Floats *)

Module PyFloat.

Inductive float := NaN | NInf | PInf | Fin (r : R).

Definition is_finite (x : float) : bool :=
  match x with Fin _ => true | _ => false end.

(** Sign of a real number, as a [comparison] with zero. *)
Definition Rsign (r : R) : comparison :=
  match total_order_T r 0 with
  | inleft (left _) => Lt
  | inleft (right _) => Eq
  | inright _ => Gt
  end.

Definition fneg (x : float) : float :=
  match x with
  | NaN => NaN
  | NInf => PInf
  | PInf => NInf
  | Fin r => Fin (- r)
  end.

Definition fadd (x y : float) : float :=
  match x, y with
  | NaN, _ | _, NaN => NaN
  | PInf, NInf | NInf, PInf => NaN
  | PInf, _ | _, PInf => PInf
  | NInf, _ | _, NInf => NInf
  | Fin a, Fin b => Fin (a + b)
  end.

Definition fsub (x y : float) : float := fadd x (fneg y).

(** An infinity of the sign of [pos], flipped by the sign of [r];
    inf * 0 is NaN. *)
Definition inf_times (pos : bool) (r : R) : float :=
  match Rsign r with
  | Eq => NaN
  | Gt => if pos then PInf else NInf
  | Lt => if pos then NInf else PInf
  end.

Definition fmul (x y : float) : float :=
  match x, y with
  | NaN, _ | _, NaN => NaN
  | PInf, PInf | NInf, NInf => PInf
  | PInf, NInf | NInf, PInf => NInf
  | PInf, Fin r | Fin r, PInf => inf_times true r
  | NInf, Fin r | Fin r, NInf => inf_times false r
  | Fin a, Fin b => Fin (a * b)
  end.

(** numpy's true division: a zero divisor raises nothing, it gives an
    infinity, or NaN for 0/0. *)
Definition fdiv (x y : float) : float :=
  match x, y with
  | NaN, _ | _, NaN => NaN
  | (PInf | NInf), (PInf | NInf) => NaN
  | PInf, Fin r => match Rsign r with Lt => NInf | _ => PInf end
  | NInf, Fin r => match Rsign r with Lt => PInf | _ => NInf end
  | Fin _, (PInf | NInf) => Fin 0
  | Fin a, Fin b =>
      match Rsign b with
      | Eq => match Rsign a with Eq => NaN | Gt => PInf | Lt => NInf end
      | _ => Fin (a / b)
      end
  end.

Definition fsqrt (x : float) : float :=
  match x with
  | NaN | NInf => NaN
  | PInf => PInf
  | Fin r => match Rsign r with Lt => NaN | _ => Fin (sqrt r) end
  end.

Definition fabs (x : float) : float :=
  match x with
  | NaN => NaN
  | NInf | PInf => PInf
  | Fin r => Fin (Rabs r)
  end.

(** [x < y]; every comparison with NaN is false. *)
Definition fltb (x y : float) : bool :=
  match x, y with
  | NaN, _ | _, NaN => false
  | _, NInf => false
  | NInf, _ => true
  | PInf, _ => false
  | Fin _, PInf => true
  | Fin a, Fin b => if Rlt_dec a b then true else false
  end.

(** [x <= y] *)
Definition fleb (x y : float) : bool :=
  match x, y with
  | NaN, _ | _, NaN => false
  | NInf, _ => true
  | _, PInf => true
  | _, NInf => false
  | PInf, _ => false
  | Fin a, Fin b => if Rle_dec a b then true else false
  end.

Definition fgtb (x y : float) : bool := fltb y x.
Definition fgeb (x y : float) : bool := fleb y x.

End PyFloat.
Export PyFloat.

Declare Scope float_scope.
Delimit Scope float_scope with float.
Bind Scope float_scope with float.
Infix "+" := fadd : float_scope.
Infix "-" := fsub : float_scope.
Infix "*" := fmul : float_scope.
Infix "/" := fdiv : float_scope.
Infix "<?" := fltb : float_scope.
Infix ">?" := fgtb : float_scope.
Infix "<=?" := fleb : float_scope.
Infix ">=?" := fgeb : float_scope.

(* ------------------------------------------------------------------ *)
(** ** numpy vectors of three floats (k-points, directions, lattice rows) *)

Module Vec3.

Record vec3 := mk_vec3 { vx : float; vy : float; vz : float }.

Definition vmap (f : float -> float) (a : vec3) : vec3 :=
  mk_vec3 (f (vx a)) (f (vy a)) (f (vz a)).

Definition vzip (f : float -> float -> float) (a b : vec3) : vec3 :=
  mk_vec3 (f (vx a) (vx b)) (f (vy a) (vy b)) (f (vz a) (vz b)).

(** [a - b], [s * a], [a / s], [-a], [a ** 2] and [a * b], elementwise *)
Definition vsub : vec3 -> vec3 -> vec3 := vzip fsub.
Definition vmul : vec3 -> vec3 -> vec3 := vzip fmul.
Definition vscale (s : float) : vec3 -> vec3 := vmap (fmul s).
Definition vdivs (a : vec3) (s : float) : vec3 := vmap (fun c => fdiv c s) a.
Definition vneg : vec3 -> vec3 := vmap fneg.
Definition vsquare (a : vec3) : vec3 := vmul a a.

(** [np.sum] of a vector, and [dot] of two vectors *)
Definition vsum (a : vec3) : float := (vx a + vy a + vz a)%float.
Definition dot (a b : vec3) : float := vsum (vmul a b).

(** [numpy.linalg.norm] of a vector: the square root of [dot a a] *)
Definition norm (a : vec3) : float := fsqrt (dot a a).

(** The vector of three finite coordinates *)
Definition vfin (x y z : R) : vec3 := mk_vec3 (Fin x) (Fin y) (Fin z).

Definition vfinite (a : vec3) : bool :=
  is_finite (vx a) && is_finite (vy a) && is_finite (vz a).

End Vec3.
Export Vec3.

(* ------------------------------------------------------------------ *)
(** ** Python sequences: [len], indexing and slicing *)

Module PySeq.

Section Seq.
Context {A : Type}.

Definition len (l : list A) : Z := Z.of_nat (length l).

(** [l[i]]: a negative index counts from the end; out of range raises
    [IndexError]. *)
Definition getitem (l : list A) (i : Z) : result A :=
  let j := if (i <? 0)%Z then (i + len l)%Z else i in
  if ((0 <=? j) && (j <? len l))%Z then
    match nth_error l (Z.to_nat j) with
    | Some a => Ok a
    | None => Raise IndexError
    end
  else Raise IndexError.

(** A slice bound brought into [0 .. n] *)
Definition clamp (n i : Z) : Z :=
  if (i <? 0)%Z then Z.max (i + n) 0 else Z.min i n.

(** [l[i:j]] and [l[i:]]; slicing never raises. *)
Definition slice (l : list A) (i j : Z) : list A :=
  let lo := clamp (len l) i in
  let hi := clamp (len l) j in
  firstn (Z.to_nat (hi - lo)) (skipn (Z.to_nat lo) l).

Definition slice_from (l : list A) (i : Z) : list A :=
  skipn (Z.to_nat (clamp (len l) i)) l.

End Seq.

(** A loop whose body may raise: the state is threaded, the first
    exception ends the loop. *)
Fixpoint foldM {A B : Type} (f : B -> A -> result B) (l : list A) (b : B)
  : result B :=
  match l with
  | [] => Ok b
  | a :: l' => b' <- f b a ;; foldM f l' b'
  end.

End PySeq.
Export PySeq.

(* ------------------------------------------------------------------ *)
(** ** [get_data]: the fitting windows around the band edges *)

(** A band edge, the dict [{'num': .., 'loc': .., 'e': ..}] *)
Record edge := mk_edge { num : Z; loc : vec3; e : float }.

(** A window, the dict [{'start': .., 'end': .., 'vals': .., 'label': ..,
    'dir': .., 'kpoints': ..}] *)
Record window := mk_window {
  w_start : Z;
  w_end : Z;
  w_vals : list float;
  w_label : string;
  w_dir : vec3;
  w_kpoints : list vec3
}.

(** [direction = kpoints[start] - kpoints[end]; direction /= norm(direction)] *)
Definition unit_direction (k_start k_end : vec3) : vec3 :=
  let direction := vsub k_start k_end in
  vdivs direction (norm direction).

(** [2 * c - kpts], the reflection of every row about [c] *)
Definition mirror (c : vec3) (kpts : list vec3) : list vec3 :=
  map (fun k => vsub (vscale (Fin 2) c) k) kpts.

(** The body of the loop over [x]: the window of one edge for one signed
    offset, [None] when the guard fails. *)
Definition window_at (kpoints : list vec3) (band : list float) (steps : Z)
  (edge : edge) (x : Z) : result (option window) :=
  let start_tmp := (num edge - 1)%Z in
  if ((start_tmp + x >? 0) && (start_tmp + x <? len band))%Z then
    let end_tmp := (start_tmp + x)%Z in
    let start := Z.min start_tmp end_tmp in
    let end_ := Z.max start_tmp end_tmp in
    k_start <- getitem kpoints start ;;
    k_end <- getitem kpoints end_ ;;
    let direction := unit_direction k_start k_end in
    let vals_tmp := slice band start (end_ + 1) in
    let kpts_tmp := slice kpoints start (end_ + 1) in
    let vals_rev := rev vals_tmp in
    if (x <? 0)%Z then
      let vals := vals_tmp ++ slice_from vals_rev 1 in
      c <- getitem kpts_tmp steps ;;
      let kpts_repeated := mirror c kpts_tmp in
      let kpts_rev := rev kpts_repeated in
      let kpts := kpts_tmp ++ slice_from kpts_rev 1 in
      Ok (Some (mk_window start_tmp end_tmp vals "" direction kpts))
    else
      let vals := vals_rev ++ slice_from vals_tmp 1 in
      c <- getitem kpts_tmp 0 ;;
      let kpts_repeated := mirror c kpts_tmp in
      let kpts_rev := rev kpts_repeated in
      let kpts := kpts_rev ++ slice_from kpts_tmp 1 in
      Ok (Some (mk_window start_tmp end_tmp vals "" direction kpts))
  else Ok None.

Definition get_data (kpoints : list vec3) (band : list float)
  (band_edges : list edge) (steps : Z) (band_labels : option (list string))
  : result (list window) :=
  foldM (fun data edge =>
    foldM (fun data x =>
      w <- window_at kpoints band steps edge x ;;
      Ok (match w with Some w => data ++ [w] | None => data end))
      [(- steps)%Z; steps] data)
    band_edges [].

(* ------------------------------------------------------------------ *)
(** ** [get_band_edges]: band edges within tolerance, and the band gaps *)

(** The nominal band edge of the PROCAR, [{'energy': .., 'kpoint': ..}] *)
Record nominal := mk_nominal { n_energy : float; n_kpoint : Z }.

(** An entry of [bg_direct]: the seed [{'e': inf}] has neither ['num'] nor
    ['loc']; the others are points like the band edges. *)
Inductive gap_entry :=
| Seed (gap : float)
| Point (p : edge).

Definition gap_e (g : gap_entry) : float :=
  match g with
  | Seed gap => gap
  | Point p => e p
  end.

(** First loop: the highest valence and the lowest conduction energy on
    the path, from the seeds -inf and +inf. *)
Definition band_extrema (vb cb : list float) : float * float :=
  fold_left
    (fun (acc : float * float) (ve_ce : float * float) =>
       let (vbm, cbm) := acc in
       let (v_e, c_e) := ve_ce in
       (if (v_e >? vbm)%float then v_e else vbm,
        if (c_e <? cbm)%float then c_e else cbm))
    (combine vb cb) (NInf, PInf).

(** The variables the second loop updates *)
Record scan := mk_scan {
  s_vbms : list edge;
  s_cbms : list edge;
  s_bg_direct : list gap_entry;
  s_k_num : Z
}.

(** [k_num in vkpts] *)
Definition contains (ks : list Z) (k : Z) : bool := existsb (Z.eqb k) ks.

(** Body of the second loop *)
Definition scan_step (vbm cbm tol : float) (vkpts ckpts : list Z)
  (s : scan) (item : vec3 * (float * float)) : result scan :=
  let (kpoint, ve_ce) := item in
  let (v_e, c_e) := ve_ce in
  let k_num := s_k_num s in
  let vbms :=
    if contains vkpts k_num || (fabs (v_e - vbm) <? tol)%float
    then s_vbms s ++ [mk_edge k_num kpoint v_e] else s_vbms s in
  let cbms :=
    if contains ckpts k_num || (fabs (c_e - cbm) <? tol)%float
    then s_cbms s ++ [mk_edge k_num kpoint c_e] else s_cbms s in
  let bg := (c_e - v_e)%float in
  best <- getitem (s_bg_direct s) 0 ;;
  let bg_direct :=
    if (gap_e best - bg >? tol)%float
    then [Point (mk_edge k_num kpoint bg)]
    else if (fabs (gap_e best - bg) <? tol)%float
         then s_bg_direct s ++ [Point (mk_edge k_num kpoint bg)]
         else s_bg_direct s in
  Ok (mk_scan vbms cbms bg_direct (k_num + 1)).

Definition scan_init : scan := mk_scan [] [] [Seed PInf] 1.

(** What [get_band_edges] returns ([vbms], [cbms]) together with the
    values it logs: the two advisory tests on the nominal edges, the
    indirect gap, the direct gap and the points it is found at. *)
Record report := mk_report {
  vbms : list edge;
  cbms : list edge;
  higher_vbm_outside : bool;
  lower_cbm_outside : bool;
  bg_indirect : float;
  direct_gap : float;
  bg_direct : list gap_entry
}.

(** Logging a point of [bg_direct] reads its ['loc'] and ['num']. *)
Definition log_gap_point (_ : unit) (g : gap_entry) : result unit :=
  match g with
  | Seed _ => Raise KeyError
  | Point _ => Ok tt
  end.

Definition get_band_edges (kpoints : list vec3) (vb cb : list float)
  (n_vbm n_cbm : nominal) (tol : float) (vkpts ckpts : list Z)
  : result report :=
  let (vbm, cbm) := band_extrema vb cb in
  let higher := (n_energy n_vbm >=? vbm + tol)%float in
  let lower := (n_energy n_cbm + tol <=? cbm)%float in
  s <- foldM (scan_step vbm cbm tol vkpts ckpts)
         (combine kpoints (combine vb cb)) scan_init ;;
  c0 <- getitem (s_cbms s) 0 ;;
  v0 <- getitem (s_vbms s) 0 ;;
  let bg_indirect := (e c0 - e v0)%float in
  g0 <- getitem (s_bg_direct s) 0 ;;
  _ <- foldM log_gap_point (s_bg_direct s) tt ;;
  Ok (mk_report (s_vbms s) (s_cbms s) higher lower bg_indirect (gap_e g0)
        (s_bg_direct s)).

(* ------------------------------------------------------------------ *)
(** ** [calc_em]: the effective mass of a window *)

(** A 3x3 matrix by rows (the reciprocal lattice) *)
Record mat3 := mk_mat3 { row0 : vec3; row1 : vec3; row2 : vec3 }.

(** [diag(v)] *)
Definition diag (v : vec3) : mat3 :=
  mk_mat3 (mk_vec3 (vx v) (Fin 0) (Fin 0))
          (mk_vec3 (Fin 0) (vy v) (Fin 0))
          (mk_vec3 (Fin 0) (Fin 0) (vz v)).

(** [dot(m, v)] of a matrix and a column *)
Definition matvec (m : mat3) (v : vec3) : vec3 :=
  mk_vec3 (dot (row0 m) v) (dot (row1 m) v) (dot (row2 m) v).

(** [sqrt(np.sum(m ** 2, axis=1))] *)
Definition row_lengths (m : mat3) : vec3 :=
  mk_vec3 (fsqrt (vsum (vsquare (row0 m))))
          (fsqrt (vsum (vsquare (row1 m))))
          (fsqrt (vsum (vsquare (row2 m)))).

(** *** [numpy.polyfit(x, y, 2)]

    The library routine is modelled by what it computes on finite data
    of full rank: the coefficients [a; b; c], highest power first, that
    solve the normal equations of the least-squares problem
    [y ~ a x^2 + b x + c].  On data that are not of full rank numpy
    warns and answers with a minimum-norm solution, and on data that are
    not finite it answers with NaN or raises [LinAlgError]; the model
    answers with NaN coefficients in both cases, and the theorems on the
    fit speak of the full-rank case only.  The coefficients are exact:
    where the exact coefficient is zero (constant energies) numpy
    returns a rounding error of either sign, so a coefficient that is
    zero here stands for a number near zero whose sign is not known. *)

Fixpoint reals (l : list float) : option (list R) :=
  match l with
  | [] => Some []
  | Fin r :: l' => option_map (cons r) (reals l')
  | _ :: _ => None
  end.

Definition Rsum (l : list R) : R := fold_right Rplus 0%R l.

(** [sum x^k] and [sum x^k y] *)
Definition moment (k : nat) (xs : list R) : R :=
  Rsum (map (fun x => x ^ k)%R xs).
Definition xmoment (k : nat) (xs ys : list R) : R :=
  Rsum (map (fun xy => (fst xy ^ k * snd xy)%R) (combine xs ys)).

Definition det3 (a11 a12 a13 a21 a22 a23 a31 a32 a33 : R) : R :=
  (a11 * (a22 * a33 - a23 * a32)
   - a12 * (a21 * a33 - a23 * a31)
   + a13 * (a21 * a32 - a22 * a31))%R.

(** Determinant of the normal equations of the quadratic fit *)
Definition fit_det (xs : list R) : R :=
  let s := fun k => moment k xs in
  det3 (s 4%nat) (s 3%nat) (s 2%nat)
       (s 3%nat) (s 2%nat) (s 1%nat)
       (s 2%nat) (s 1%nat) (s 0%nat).

(** Cramer's rule for the normal equations *)
Definition lstsq2 (xs ys : list R) : R * R * R :=
  let s := fun k => moment k xs in
  let t := fun k => xmoment k xs ys in
  let d := fit_det xs in
  (det3 (t 2%nat) (s 3%nat) (s 2%nat)
        (t 1%nat) (s 2%nat) (s 1%nat)
        (t 0%nat) (s 1%nat) (s 0%nat) / d,
   det3 (s 4%nat) (t 2%nat) (s 2%nat)
        (s 3%nat) (t 1%nat) (s 1%nat)
        (s 2%nat) (t 0%nat) (s 0%nat) / d,
   det3 (s 4%nat) (s 3%nat) (t 2%nat)
        (s 3%nat) (s 2%nat) (t 1%nat)
        (s 2%nat) (s 1%nat) (t 0%nat) / d)%R.

Definition polyfit2 (x y : list float) : result (list float) :=
  if (len x =? 0)%Z then Raise TypeError
  else if negb (len x =? len y)%Z then Raise TypeError
  else
    match reals x, reals y with
    | Some xs, Some ys =>
        if Req_dec_T (fit_det xs) 0 then Ok [NaN; NaN; NaN]
        else
          let '(a, b, c) := lstsq2 xs ys in
          Ok [Fin a; Fin b; Fin c]
    | _, _ => Ok [NaN; NaN; NaN]
    end.

(** The conversion constant of [calc_em], 7.61996348863 *)
Definition hbar2 : R := (761996348863 / 100000000000)%R.

(** [dot(diag(lengths), data['kpoints'].T)] has one column per k-point,
    [matvec (diag lengths) k]; [dot(data['dir'], ...)] is the dot product
    of the direction with each of these columns. *)
Definition calc_em (data : window) (recip_lattice : mat3) : result float :=
  let lengths := row_lengths recip_lattice in
  let x := map (fun k => dot (w_dir data) (matvec (diag lengths) k))
               (w_kpoints data) in
  pfit <- polyfit2 x (w_vals data) ;;
  a <- getitem pfit 0 ;;
  let co := (a * Fin 2)%float in
  let em := (Fin hbar2 / co)%float in
  Ok em.

(* ------------------------------------------------------------------ *)
(** ** The loops of [get_data], flattened *)

(** The pairs (edge, offset) in the order the two loops visit them *)
Definition visits (band_edges : list edge) (steps : Z) : list (edge * Z) :=
  flat_map (fun edge => [(edge, (- steps)%Z); (edge, steps)]) band_edges.

Definition visit_step (kpoints : list vec3) (band : list float) (steps : Z)
  (data : list window) (v : edge * Z) : result (list window) :=
  w <- window_at kpoints band steps (fst v) (snd v) ;;
  Ok (match w with Some w => data ++ [w] | None => data end).

(** The windows a list of visits yields when none of them raises *)
Fixpoint built (kpoints : list vec3) (band : list float) (steps : Z)
  (vs : list (edge * Z)) : list (edge * Z * window) :=
  match vs with
  | [] => []
  | v :: vs' =>
      match window_at kpoints band steps (fst v) (snd v) with
      | Ok (Some w) => (v, w) :: built kpoints band steps vs'
      | _ => built kpoints band steps vs'
      end
  end.

(* ------------------------------------------------------------------ *)
(** ** The specification's window *)

(** What the specification says of a window built for the 0-based
    extremum index [p] and the signed offset [x], with [s] steps. *)
Definition window_as_specified (kpoints : list vec3) (band : list float)
  (s p x : Z) (w : window) : Prop :=
  let lo := Z.min p (p + x) in
  let hi := Z.max p (p + x) in
  let vals_slice := slice band lo (hi + 1) in
  let kpts_slice := slice kpoints lo (hi + 1) in
  ((x < 0)%Z ->
     exists c, getitem kpts_slice s = Ok c /\
       w_vals w = vals_slice ++ tl (rev vals_slice) /\
       w_kpoints w = kpts_slice ++ tl (rev (mirror c kpts_slice))) /\
  ((x > 0)%Z ->
     exists c, getitem kpts_slice 0 = Ok c /\
       w_vals w = rev vals_slice ++ tl vals_slice /\
       w_kpoints w = rev (mirror c kpts_slice) ++ tl kpts_slice) /\
  len (w_vals w) = (2 * s + 1)%Z /\
  len (w_kpoints w) = (2 * s + 1)%Z.

(* ------------------------------------------------------------------ *)
(** ** Example inputs *)

(** Three k-points on a line and a band with its maximum in the middle *)
Definition path3 : list vec3 := [vfin 0 0 0; vfin (1 / 2) 0 0; vfin 1 0 0].
Definition band3 : list float := [Fin (-1); Fin (-1 / 5); Fin (-1)].

(** The extremum at the last of three points, one step: one backward
    window, from index 2 to index 1. *)
Definition backward_window3 : window :=
  mk_window 2 1 [Fin (-1 / 5); Fin (-1); Fin (-1 / 5)] ""
    (unit_direction (vfin (1 / 2) 0 0) (vfin 1 0 0))
    [vfin (1 / 2) 0 0; vfin 1 0 0;
     vsub (vscale (Fin 2) (vfin 1 0 0)) (vfin (1 / 2) 0 0)].

(* ------------------------------------------------------------------ *)
(** ** The specification's Edge Finder *)

(** The membership test of a band-edge point: the k-index is forced, or
    the energy is within [tol] of the target. *)
Definition is_edge_point (forced : list Z) (tol target : float)
  (k_num : Z) (en : float) : bool :=
  contains forced k_num || (fabs (en - target) <? tol)%float.

(** The points (k-point, energy) of a path that pass the test, numbered
    from [k_num], in traversal order *)
Fixpoint edge_points (forced : list Z) (tol target : float) (k_num : Z)
  (pts : list (vec3 * float)) : list edge :=
  match pts with
  | [] => []
  | (k, en) :: pts' =>
      (if is_edge_point forced tol target k_num en
       then [mk_edge k_num k en] else [])
      ++ edge_points forced tol target (k_num + 1) pts'
  end.

(** The direct gap at every k-index, [gap[i] = cb[i] - vb[i]]. *)
Fixpoint gap_points (k_num : Z) (items : list (vec3 * (float * float)))
  : list edge :=
  match items with
  | [] => []
  | (k, (v_e, c_e)) :: items' =>
      mk_edge k_num k (c_e - v_e)%float :: gap_points (k_num + 1) items'
  end.

(** The running best cluster: its gap, +inf for the seed, and its
    members in traversal order. *)
Definition cluster : Type := float * list edge.

Definition cluster_seed : cluster := (PInf, []).

Definition cluster_step (tol : float) (best : cluster) (pt : edge) : cluster :=
  if (fst best - e pt >? tol)%float then (e pt, [pt])
  else if (fabs (fst best - e pt) <? tol)%float then (fst best, snd best ++ [pt])
  else best.

Definition direct_gap_cluster (tol : float) (pts : list edge) : cluster :=
  fold_left (cluster_step tol) pts cluster_seed.

(** How the list [bg_direct] of the code holds a cluster: the seed entry
    alone, or the members, the first of them carrying the cluster's gap. *)
Definition holds_cluster (l : list gap_entry) (c : cluster) : Prop :=
  (l = [Seed PInf] /\ c = cluster_seed) \/
  (exists p ps, l = map Point (p :: ps) /\ c = (e p, p :: ps)).

(** The items of the second loop, projected on one band *)
Definition valence_of (it : vec3 * (float * float)) : vec3 * float :=
  (fst it, fst (snd it)).
Definition conduction_of (it : vec3 * (float * float)) : vec3 * float :=
  (fst it, snd (snd it)).

(** The items the second loop visits, [zip(kpoints, vb, cb)], and what
    the specification makes of them *)
Definition scan_items (kpoints : list vec3) (vb cb : list float)
  : list (vec3 * (float * float)) :=
  combine kpoints (combine vb cb).

Definition vbm_points (kpoints : list vec3) (vb cb : list float)
  (tol : float) (forced_vbm_indices : list Z) : list edge :=
  edge_points forced_vbm_indices tol (fst (band_extrema vb cb)) 1
    (map valence_of (scan_items kpoints vb cb)).

Definition cbm_points (kpoints : list vec3) (vb cb : list float)
  (tol : float) (forced_cbm_indices : list Z) : list edge :=
  edge_points forced_cbm_indices tol (snd (band_extrema vb cb)) 1
    (map conduction_of (scan_items kpoints vb cb)).

Definition direct_gap_points (kpoints : list vec3) (vb cb : list float)
  (tol : float) : cluster :=
  direct_gap_cluster tol (gap_points 1 (scan_items kpoints vb cb)).

Definition finite_gap (p : edge) : Prop := is_finite (e p) = true.

(** [p] is a point of the path (its 1-based index, k-point and real
    energy) whose index is forced or whose energy is within [tolr] of
    [target]. *)
Definition edge_point_of (kpoints : list vec3) (band : list R)
  (forced : list Z) (tolr target : R) (p : edge) : Prop :=
  exists v : R,
    (1 <= num p)%Z /\
    nth_error kpoints (Z.to_nat (num p - 1)) = Some (loc p) /\
    nth_error band (Z.to_nat (num p - 1)) = Some v /\
    e p = Fin v /\
    (In (num p) forced \/ (Rabs (v - target) < tolr)%R).

(** The real value of a finite float (0 for the others) *)
Definition real_of (x : float) : R :=
  match x with Fin r => r | _ => 0%R end.

(** The gap of a direct-gap point, as a real number *)
Definition gap_of (p : edge) : R := real_of (e p).

(** [|gap(p) - gap(q)| < tol], the test of the append branch *)
Definition within (tol : float) (p q : edge) : bool :=
  (fabs (e p - e q) <? tol)%float.

(** Two points of a path, the smaller gap first, and the scenario of the
    specification: three points with both band edges at the second *)
Definition path2 : list vec3 := [vfin 0 0 0; vfin (1 / 2) 0 0].
Definition nominal0 : nominal := mk_nominal (Fin 0) 1.
Definition vb3 : list R := [-1; -1 / 5; -1]%R.
Definition cb3 : list R := [3; 2; 3]%R.

(** The vector numpy makes of a zero vector divided by its norm *)
Definition vnan : vec3 := mk_vec3 NaN NaN NaN.

(** A path that comes back to its first k-point *)
Definition loop3 : list vec3 := [vfin 0 0 0; vfin (1 / 2) 0 0; vfin 0 0 0].

(* ------------------------------------------------------------------ *)
(** ** The specification's Curvature Fitter, on real data *)

(** A vector of three real numbers as a numpy vector *)
Definition vreal (t : R * R * R) : vec3 :=
  let '(x, y, z) := t in vfin x y z.

(** [sqrt(sum(row^2))], the length of a basis row *)
Definition axis_length (row : R * R * R) : R :=
  let '(x, y, z) := row in sqrt (x * x + y * y + z * z).

(** [direction . (diag(lengths) . k)] *)
Definition x_coord (lengths direction k : R * R * R) : R :=
  let '(l0, l1, l2) := lengths in
  let '(dx, dy, dz) := direction in
  let '(kx, ky, kz) := k in
  (dx * (l0 * kx) + dy * (l1 * ky) + dz * (l2 * kz))%R.

(** The sum of the squared residuals of [a x^2 + b x + c] *)
Definition sse (xs ys : list R) (a b c : R) : R :=
  Rsum (map (fun xy => ((a * fst xy ^ 2 + b * fst xy + c - snd xy) ^ 2)%R)
            (combine xs ys)).

(** Three k-points around the origin of the first axis and a parabola
    sampled on them *)
Definition kline3 : list (R * R * R) :=
  [(-1 / 2, 0, 0); (0, 0, 0); (1 / 2, 0, 0)]%R.
Definition parabola3 : list R := [1 / 4; 0; 1 / 4]%R.

(** The abscissas [x] that [calc_em] hands to the fit *)
Definition x_coords (data : window) (recip_lattice : mat3) : list float :=
  map (fun k => dot (w_dir data) (matvec (diag (row_lengths recip_lattice)) k))
      (w_kpoints data).

(** The window [data] with its direction reversed *)
Definition reverse_direction (data : window) : window :=
  mk_window (w_start data) (w_end data) (w_vals data) (w_label data)
            (vneg (w_dir data)) (w_kpoints data).

(** The window and the basis of real data *)
Definition real_window (s en : Z) (lab : string) (d : R * R * R)
  (ks : list (R * R * R)) (ys : list R) : window :=
  mk_window s en (map Fin ys) lab (vreal d) (map vreal ks).

Definition real_basis (b0 b1 b2 : R * R * R) : mat3 :=
  mk_mat3 (vreal b0) (vreal b1) (vreal b2).

(* ------------------------------------------------------------------ *)
(** ** Further notions for the windows *)

(** The number of windows [get_data] builds for a band of [n] energies:
    per edge, one for each signed offset that passes the guard. *)
Definition windows_of_edge (n steps : Z) (edge : edge) : nat :=
  ((if (0 <? num edge - 1 - steps)%Z then 1 else 0)
   + (if (num edge - 1 + steps <? n)%Z then 1 else 0))%nat.

Fixpoint window_count (n steps : Z) (band_edges : list edge) : nat :=
  match band_edges with
  | [] => 0
  | edge :: edges => (windows_of_edge n steps edge + window_count n steps edges)%nat
  end.

(* ------------------------------------------------------------------ *)
(** ** Further notions for the band edges *)

(** A tolerance no distance is below: NaN, -inf, or a real number that
    is not positive *)
Definition nonpositive (tol : float) : Prop :=
  tol = NaN \/ tol = NInf \/ exists t, tol = Fin t /\ (t <= 0)%R.

(** The direct gaps of a path of real energies, [cb[i] - vb[i]] *)
Definition real_gaps (vbr cbr : list R) : list R :=
  map (fun vc => (snd vc - fst vc)%R) (combine vbr cbr).

(** [p] is the point of the zipped path at its 1-based index, with the
    energy of [band] there. *)
Definition on_path (kpoints : list vec3) (vb cb band : list float)
  (p : edge) : Prop :=
  (1 <= num p)%Z /\ (num p <= len kpoints)%Z /\
  (num p <= len vb)%Z /\ (num p <= len cb)%Z /\
  nth_error kpoints (Z.to_nat (num p - 1)) = Some (loc p) /\
  nth_error band (Z.to_nat (num p - 1)) = Some (e p).

(** The report of the scenario with the first k-index forced into the
    valence points *)
Definition first_found_report : report :=
  mk_report [mk_edge 1 (vfin 0 0 0) (Fin (-1));
             mk_edge 2 (vfin (1 / 2) 0 0) (Fin (-1 / 5))]
    [mk_edge 2 (vfin (1 / 2) 0 0) (Fin 2)] true true
    (Fin (2 - -1)) (Fin (2 - -1 / 5))
    [Point (mk_edge 2 (vfin (1 / 2) 0 0) (Fin (2 - -1 / 5)))].

(** What the cluster keeps while the scan proceeds over the points
    [seen] so far: its first member carries its gap, every member is a
    point seen, within the tolerance of the first, and no point seen has
    a gap more than the tolerance below the cluster's. *)
Definition cluster_inv (tolr : R) (seen : list edge) (c : cluster) : Prop :=
  (seen = [] /\ c = cluster_seed) \/
  (exists p ps,
      c = (e p, p :: ps) /\
      Forall (fun q => In q seen /\ (Rabs (gap_of p - gap_of q) < tolr)%R)
             (p :: ps) /\
      forall q, In q seen -> (gap_of p - gap_of q <= tolr)%R).

(* ------------------------------------------------------------------ *)
(** ** Further notions for the fit *)

(** The quadratic [A x^2 + B x + C] *)
Definition quadratic (A B C x : R) : R := (A * x ^ 2 + B * x + C)%R.

(** Triples of real numbers: scaling and translation *)
Definition tscale (m : R) (t : R * R * R) : R * R * R :=
  let '(x, y, z) := t in (m * x, m * y, m * z)%R.

Definition tadd (t k : R * R * R) : R * R * R :=
  let '(tx, ty, tz) := t in
  let '(x, y, z) := k in (x + tx, y + ty, z + tz)%R.

(* ------------------------------------------------------------------ *)
(** ** [bandstats]: the driver *)

(** A 3x3 matrix of real numbers by rows (the lattice of the POSCAR) *)
Definition rmat3 : Type := (R * R * R) * (R * R * R) * (R * R * R).

Definition rdet3 (m : rmat3) : R :=
  let '((a, b, c), (d, e, f), (g, h, i)) := m in
  det3 a b c d e f g h i.

(** [numpy.linalg.inv], for a matrix that is not singular: its inverse.
    For a matrix whose determinant is zero the answer is [None], and
    stands for no behaviour of numpy: there [inv] raises [LinAlgError]
    when its LU factorisation meets a pivot that is exactly zero, and
    otherwise returns a matrix made of rounding errors; which of the two
    happens depends on the rounding, which exact arithmetic does not
    follow. *)
Definition rinv3 (m : rmat3) : option rmat3 :=
  let '((a, b, c), (d, e, f), (g, h, i)) := m in
  let dt := rdet3 m in
  if Req_dec_T dt 0 then None
  else Some (((e * i - f * h) / dt, (c * h - b * i) / dt, (b * f - c * e) / dt),
             ((f * g - d * i) / dt, (a * i - c * g) / dt, (c * d - a * f) / dt),
             ((d * h - e * g) / dt, (b * g - a * h) / dt, (a * e - b * d) / dt))%R.

(** [m.T] *)
Definition rtranspose (m : rmat3) : rmat3 :=
  let '((a, b, c), (d, e, f), (g, h, i)) := m in
  ((a, d, g), (b, e, h), (c, f, i)).

(** [m * 2e0 * pi / 1], elementwise *)
Definition two_pi_times (m : rmat3) : rmat3 :=
  let f := fun x => (x * 2 * PI / 1)%R in
  let '((a, b, c), (d, e, f'), (g, h, i)) := m in
  ((f a, f b, f c), (f d, f e, f f'), (f g, f h, f i)).

(** [inv(poscar.lattice).T * 2e0 * pi / 1] *)
Definition reciprocal_lattice (lattice : rmat3) : option rmat3 :=
  option_map (fun m => two_pi_times (rtranspose m)) (rinv3 lattice).

Definition basis_of (m : rmat3) : mat3 :=
  let '(r0, r1, r2) := m in real_basis r0 r1 r2.

(** The dot product of two real triples *)
Definition rdot (u v : R * R * R) : R :=
  let '(a, b, c) := u in
  let '(x, y, z) := v in (a * x + b * y + c * z)%R.

(** A band edge of the PROCAR, [{'band': .., 'energy': .., 'kpoint': ..}],
    and the PROCAR itself *)
Record procar_edge := mk_procar_edge {
  pe_band : Z;
  pe_energy : float;
  pe_kpoint : Z
}.

Record procar := mk_procar {
  pr_eigenvals : list (list float);
  pr_vbm : procar_edge;
  pr_cbm : procar_edge;
  pr_kpoints : list vec3
}.

Definition nominal_of (pe : procar_edge) : nominal :=
  mk_nominal (pe_energy pe) (pe_kpoint pe).

(** [get_band_edges] as [bandstats] calls it, with [vkpts] and [ckpts]
    that may be [None] (their default): [k_num in None] raises
    [TypeError] in the first pass of the second loop; without any pass
    the function goes on to [cbms[0]]. *)
Definition get_band_edges_opt (kpoints : list vec3) (vb cb : list float)
  (n_vbm n_cbm : nominal) (tol : float) (vkpts ckpts : option (list Z))
  : result report :=
  match vkpts, ckpts with
  | Some vk, Some ck => get_band_edges kpoints vb cb n_vbm n_cbm tol vk ck
  | _, _ =>
      match scan_items kpoints vb cb with
      | [] => get_band_edges kpoints vb cb n_vbm n_cbm tol [] []
      | _ :: _ => Raise TypeError
      end
  end.

(** ["%d" % z] *)
Definition show_Z (z : Z) : string := NilZero.string_of_int (Z.to_int z).

(** The label of a window in the log *)
Definition window_label (w : window) : string :=
  if String.eqb (w_label w) "" then
    ("kpoints " ++ show_Z (w_start w + 1) ++ " to " ++ show_Z (w_end w + 1))%string
  else w_label w.

(** The loop over the windows of one band: the label and the effective
    mass of each, in order *)
Definition masses (data : list window) (recip_lattice : mat3)
  : result (list (string * float)) :=
  foldM (fun acc w =>
           em <- calc_em w recip_lattice ;;
           Ok (acc ++ [(window_label w, em)]))
        data [].

(** What [bandstats] logs: the report of [get_band_edges], then the hole
    masses ([m_h]) and the electron masses ([m_e]) *)
Record bandstats_log := mk_bandstats_log {
  bs_report : report;
  bs_holes : list (string * float);
  bs_electrons : list (string * float)
}.

(** How a run ends.  [SingularLattice] is the run on a lattice whose
    determinant is zero: [inv] then raises or returns rounding errors
    (see [rinv3]), the run is not followed further and nothing is proved
    of it. *)
Inductive outcome (A : Type) : Type :=
| Returns (a : A)
| Raises (err : exn)
| SingularLattice.

Arguments Returns {A} a.
Arguments Raises {A} err.
Arguments SingularLattice {A}.

Definition outcome_of {A} (r : result A) : outcome A :=
  match r with
  | Ok a => Returns a
  | Raise err => Raises err
  end.

Definition bandstats (lattice : rmat3) (procar : procar) (steps : Z)
  (tol : float) (labels : option (list string)) (vkpts ckpts : option (list Z))
  : outcome bandstats_log :=
  match reciprocal_lattice lattice with
  | None => SingularLattice
  | Some recip =>
      let recip_lattice := basis_of recip in
      outcome_of
        (vb <- getitem (pr_eigenvals procar) (pe_band (pr_vbm procar) - 1) ;;
         cb <- getitem (pr_eigenvals procar) (pe_band (pr_cbm procar) - 1) ;;
         let kpoints := pr_kpoints procar in
         rep <- get_band_edges_opt kpoints vb cb (nominal_of (pr_vbm procar))
                  (nominal_of (pr_cbm procar)) tol vkpts ckpts ;;
         vb_data <- get_data kpoints vb (vbms rep) steps labels ;;
         cb_data <- get_data kpoints cb (cbms rep) steps labels ;;
         holes <- masses vb_data recip_lattice ;;
         electrons <- masses cb_data recip_lattice ;;
         Ok (mk_bandstats_log rep holes electrons))
  end.

(** The labels of the log for a band edge of 1-based index [n]: forward
    and backward *)
Definition forward_label (n steps : Z) : string :=
  ("kpoints " ++ show_Z n ++ " to " ++ show_Z (n + steps))%string.

Definition backward_label (n steps : Z) : string :=
  ("kpoints " ++ show_Z n ++ " to " ++ show_Z (n - steps))%string.

(** A PROCAR with the scenario's two bands on the three-point path, and
    the cubic unit lattice *)
Definition procar3 : procar :=
  mk_procar [map Fin vb3; map Fin cb3]
    (mk_procar_edge 1 (Fin (-1 / 5)) 2) (mk_procar_edge 2 (Fin 2) 2) path3.

Definition unit_lattice : rmat3 := ((1, 0, 0), (0, 1, 0), (0, 0, 1))%R.

(* ------------------------------------------------------------------ *)
(** ** Further notions for the three-point windows *)

(** [k - c] of two real triples *)
Definition tsub (k c : R * R * R) : R * R * R :=
  let '(kx, ky, kz) := k in
  let '(cx, cy, cz) := c in
  (kx - cx, ky - cy, kz - cz)%R.

(** [t / sqrt(t . t)] of a real triple *)
Definition unit_of (t : R * R * R) : R * R * R :=
  let '(x, y, z) := t in
  let n := sqrt (x * x + y * y + z * z) in
  (x / n, y / n, z / n)%R.

(** [2 * c - k] of two real triples *)
Definition treflect (c k : R * R * R) : R * R * R :=
  let '(cx, cy, cz) := c in
  let '(kx, ky, kz) := k in
  (2 * cx - kx, 2 * cy - ky, 2 * cz - kz)%R.

(** The distance, along the abscissa of [calc_em], between an extremum
    at [c] and its neighbour at [k]: with [delta = k - c] and axis
    lengths [l], [(sum_i l_i delta_i^2) / |delta|], which is
    [l |delta|] when the three lengths are the same [l]. *)
Definition neighbour_distance (lengths c k : R * R * R) : R :=
  let '(l0, l1, l2) := lengths in
  let '(dx, dy, dz) := tsub k c in
  ((l0 * (dx * dx) + l1 * (dy * dy) + l2 * (dz * dz))
   / sqrt (dx * dx + dy * dy + dz * dz))%R.

(* ------------------------------------------------------------------ *)
(** ** [vaspy.cli.optplot]: the absorption-spectrum driver

    [optplot] is glue around collaborators that are not part of this
    repository: pymatgen's [Vasprun], the functions [broaden_eps],
    [calculate_alpha] and [write_files] of the optics module, the
    [VOpticsPlotter] and matplotlib.  They are the fields of the class
    [Collaborators]; each may return or raise, and what is proved of
    [optplot] holds for every instance.  The calls that write to the
    file system, [plt.savefig] and [write_files], are kept in a trace.
    Paths are joined as [posixpath.join] joins them. *)

Module Optplot.

(** An exception of Python itself, or one raised by a collaborator *)
Inductive fault := PyTypeError | Foreign (name : string).

Inductive attempt (A : Type) : Type :=
| Done (a : A)
| Failed (f : fault).

Arguments Done {A} a.
Arguments Failed {A} f.

Definition andthen {A B} (m : attempt A) (k : A -> attempt B) : attempt B :=
  match m with
  | Done a => k a
  | Failed f => Failed f
  end.

(** A list comprehension [[f(x) for x in l]]: in order, the first
    exception ends it. *)
Fixpoint comprehension {A B} (f : A -> attempt B) (l : list A)
  : attempt (list B) :=
  match l with
  | [] => Done []
  | a :: l' =>
      andthen (f a) (fun b =>
      andthen (comprehension f l') (fun bs => Done (b :: bs)))
  end.

(** The argument [filenames]: a string or a list of strings *)
Inductive filenames_arg := OneFile (f : string) | Files (fs : list string).

(** The argument [band_gaps]: [None], a float, or a list, of strings
    (as the command line gives them) or of numbers *)
Inductive band_gaps_arg :=
| GapsNone
| GapsFloat (g : float)
| GapsStrings (l : list string)
| GapsNumbers (l : list float).

(** What the plotter is given as [band_gap] *)
Inductive band_gaps_value :=
| NoGap
| OneGap (g : float)
| GapList (l : list float).

Class Collaborators := {
  vasprun : Type;
  dielectric : Type;
  absorption : Type;
  plotter : Type;
  pyplot : Type;
  labels_arg : Type;
  (** [width], [height], [xmin], [xmax], [ymin], [ymax], [colours] and
      [fonts], which [optplot] only hands on *)
  plot_options : Type;
  (** [Vasprun(f)] *)
  Vasprun : string -> attempt vasprun;
  (** [vr.dielectric] *)
  vr_dielectric : vasprun -> attempt dielectric;
  (** [vr.get_band_structure().get_band_gap()['energy']] *)
  vr_band_gap : vasprun -> attempt float;
  broaden_eps : dielectric -> float -> attempt dielectric;
  (** [calculate_alpha(d, average=average)] *)
  calculate_alpha : dielectric -> bool -> attempt absorption;
  (** [float(i)] of a string *)
  float_of_string : string -> attempt float;
  (** [VOpticsPlotter(abs_data, band_gap=band_gaps, label=labels)] *)
  VOpticsPlotter : list absorption -> band_gaps_value -> labels_arg
                   -> attempt plotter;
  (** [plotter.get_plot(..., dpi=dpi, plt=plt, fonts=fonts)] *)
  get_plot : plotter -> plot_options -> Z -> option pyplot -> attempt pyplot;
  (** [plt.savefig(filename, format=image_format, dpi=dpi)] *)
  savefig : pyplot -> string -> string -> Z -> attempt unit;
  (** [write_files(abs_data, prefix=prefix, directory=directory)] *)
  write_files : list absorption -> option string -> option string
                -> attempt unit
}.

(** Truth values: [None] and the empty string are false, and so is the
    number zero; NaN and the infinities are true. *)
Definition truthy_string (s : option string) : bool :=
  match s with
  | None | Some EmptyString => false
  | Some _ => true
  end.

Definition truthy_float (g : option float) : bool :=
  match g with
  | None => false
  | Some (Fin r) => if Req_dec_T r 0 then false else true
  | Some _ => true
  end.

(** [needle in hay] for two strings *)
Fixpoint is_substring (needle hay : string) : bool :=
  prefix needle hay ||
  match hay with
  | EmptyString => false
  | String _ hay' => is_substring needle hay'
  end.

(** [s.endswith('/')] *)
Fixpoint ends_with_slash (s : string) : bool :=
  match s with
  | EmptyString => false
  | String c EmptyString => String.eqb (String c EmptyString) "/"
  | String _ s' => ends_with_slash s'
  end.

(** [os.path.join(a, b)] of [posixpath] *)
Definition path_join (a b : string) : string :=
  if prefix "/" b then b
  else if (match a with EmptyString => true | _ => false end)
          || ends_with_slash a
       then (a ++ b)%string
       else (a ++ "/" ++ b)%string.

(** Lines 112 to 115: the name of the image file *)
Definition absorption_filename (prefix directory : option string)
  (image_format : string) : string :=
  let basename := ("absorption." ++ image_format)%string in
  let filename :=
    match prefix with
    | Some p => if truthy_string prefix then (p ++ "_" ++ basename)%string
                else basename
    | None => basename
    end in
  match directory with
  | Some d => if truthy_string directory then path_join d filename
              else filename
  | None => filename
  end.

(** The calls that write to the file system *)
Inductive effect {C : Collaborators} :=
| SaveFig (plt : pyplot) (filename image_format : string) (dpi : Z)
| WriteFiles (abs_data : list absorption) (prefix directory : option string).

Section Model.
Context {C : Collaborators}.

(** Lines 78 to 89: the files are read, broadened if [gaussian] is true,
    and turned into absorption data. *)
Definition load_spectra (filenames : filenames_arg) (gaussian : option float)
  (average : bool) : attempt (list vasprun * list absorption) :=
  let filenames :=
    match filenames with OneFile f => [f] | Files fs => fs end in
  andthen (comprehension Vasprun filenames) (fun vrs =>
  andthen (comprehension vr_dielectric vrs) (fun dielectrics =>
  andthen (match gaussian with
           | Some g =>
               if truthy_float gaussian
               then comprehension (fun d => broaden_eps d g) dielectrics
               else Done dielectrics
           | None => Done dielectrics
           end) (fun dielectrics =>
  andthen (comprehension (fun d => calculate_alpha d average) dielectrics)
          (fun abs_data =>
  Done (vrs, abs_data))))).

(** Lines 91 to 102: a list of band gaps is resolved by its first
    element. *)
Definition resolve_band_gaps (vrs : list vasprun) (band_gaps : band_gaps_arg)
  : attempt band_gaps_value :=
  match band_gaps with
  | GapsNone => Done NoGap
  | GapsFloat g => Done (OneGap g)
  | GapsStrings [] | GapsNumbers [] =>
      andthen (comprehension vr_band_gap vrs) (fun gs => Done (GapList gs))
  | GapsStrings (first :: rest) =>
      if is_substring "vasprun" first then
        andthen (comprehension Vasprun (first :: rest)) (fun bg_vrs =>
        andthen (comprehension vr_band_gap bg_vrs) (fun gs =>
        Done (GapList gs)))
      else
        andthen (comprehension float_of_string (first :: rest)) (fun gs =>
        Done (GapList gs))
  | GapsNumbers (_ :: _) =>
      (* ['vasprun' in band_gaps[0]] of a number *)
      Failed PyTypeError
  end.

(** [optplot]: the trace of the writing calls, and the value returned
    ([None] is Python's [None]) or the exception raised *)
Definition optplot (filenames : filenames_arg) (prefix directory : option string)
  (gaussian : option float) (band_gaps : band_gaps_arg) (labels : labels_arg)
  (average : bool) (options : plot_options) (image_format : string) (dpi : Z)
  (plt : option pyplot) : list effect * attempt (option pyplot) :=
  match
    andthen (load_spectra filenames gaussian average) (fun '(vrs, abs_data) =>
    andthen (resolve_band_gaps vrs band_gaps) (fun band_gaps =>
    andthen (VOpticsPlotter abs_data band_gaps labels) (fun plotter =>
    andthen (get_plot plotter options dpi plt) (fun plt' =>
    Done (abs_data, plt')))))
  with
  | Failed f => ([], Failed f)
  | Done (abs_data, plt') =>
      let save_files := match plt with Some _ => false | None => true end in
      if save_files then
        let filename := absorption_filename prefix directory image_format in
        let saved := SaveFig plt' filename image_format dpi in
        match savefig plt' filename image_format dpi with
        | Failed f => ([saved], Failed f)
        | Done _ =>
            let written := WriteFiles abs_data prefix directory in
            match write_files abs_data prefix directory with
            | Failed f => ([saved; written], Failed f)
            | Done _ => ([saved; written], Done None)
            end
        end
      else ([], Done (Some plt'))
  end.

End Model.

(** Collaborators that return what they are given, over strings, for the
    examples *)
Definition echo : Collaborators := {|
  vasprun := string;
  dielectric := string;
  absorption := string;
  plotter := list string;
  pyplot := list string;
  labels_arg := unit;
  plot_options := unit;
  Vasprun := fun f => Done f;
  vr_dielectric := fun vr => Done vr;
  vr_band_gap := fun _ => Done (Fin 1);
  broaden_eps := fun d _ => Done d;
  calculate_alpha := fun d _ => Done d;
  float_of_string := fun _ => Failed (Foreign "ValueError");
  VOpticsPlotter := fun abs_data _ _ => Done abs_data;
  get_plot := fun p _ _ _ => Done p;
  savefig := fun _ _ _ _ => Done tt;
  write_files := fun _ _ _ => Done tt
|}.

End Optplot.
Export Optplot.

(* ================================================================== *)
(** * Properties *)

(** ** Sequences *)

Section SeqFacts.
Context {A : Type}.
Implicit Types l : list A.

Lemma len_app l1 l2 : len (l1 ++ l2) = (len l1 + len l2)%Z.
Proof. unfold len; rewrite length_app; lia. Qed.

Lemma len_rev l : len (rev l) = len l.
Proof. unfold len; now rewrite length_rev. Qed.

Lemma getitem_inrange l i :
  (0 <= i < len l)%Z ->
  exists a, getitem l i = Ok a /\ nth_error l (Z.to_nat i) = Some a.
Proof.
  intros Hi. unfold getitem.
  destruct (Z.ltb_spec i 0); [lia|].
  destruct (Z.leb_spec 0 i); [|lia].
  destruct (Z.ltb_spec i (len l)); [|lia]. cbn.
  destruct (nth_error l (Z.to_nat i)) as [a|] eqn:E.
  - now exists a.
  - apply nth_error_None in E. unfold len in *. lia.
Qed.

Lemma getitem_empty i : getitem (@nil A) i = Raise IndexError.
Proof.
  unfold getitem, len. cbn.
  destruct (i <? 0)%Z eqn:E.
  - replace (i + 0)%Z with i by lia.
    destruct (Z.leb_spec 0 i); [apply Z.ltb_lt in E; lia|reflexivity].
  - destruct (0 <=? i)%Z; cbn; [|reflexivity].
    destruct (Z.ltb_spec i 0); [lia|reflexivity].
Qed.

Lemma getitem_head a l : getitem (a :: l) 0 = Ok a.
Proof.
  unfold getitem, len. cbn [Z.ltb Z.compare Z.leb andb].
  destruct (Z.ltb_spec 0 (Z.of_nat (length (a :: l)))) as [_|H].
  - reflexivity.
  - cbn [length] in H. lia.
Qed.

Lemma clamp_inrange n i : (0 <= i <= n)%Z -> clamp n i = i.
Proof.
  intros H. unfold clamp. destruct (Z.ltb_spec i 0); lia.
Qed.

Lemma slice_inrange l i j :
  (0 <= i <= j)%Z -> (j <= len l)%Z ->
  slice l i j = firstn (Z.to_nat (j - i)) (skipn (Z.to_nat i) l).
Proof.
  intros Hi Hj. unfold slice.
  rewrite !clamp_inrange by lia. reflexivity.
Qed.

Lemma len_slice l i j :
  (0 <= i <= j)%Z -> (j <= len l)%Z -> len (slice l i j) = (j - i)%Z.
Proof.
  intros Hi Hj. rewrite slice_inrange by assumption.
  unfold len in *. rewrite length_firstn, length_skipn. lia.
Qed.

(** [l[1:]] drops the first element. *)
Lemma slice_from_1 l : slice_from l 1 = tl l.
Proof.
  unfold slice_from, clamp, len. cbn [Z.ltb Z.compare].
  destruct l as [|a l]; [reflexivity|].
  cbn [length]. replace (Z.min 1 (Z.of_nat (S (length l)))) with 1%Z by lia.
  reflexivity.
Qed.

Lemma len_tl l : len (tl l) = Z.max 0 (len l - 1).
Proof. unfold len. destruct l; cbn [tl length]; lia. Qed.

End SeqFacts.

(** ** The loops of [get_data] *)

Lemma get_data_visits kpoints band band_edges steps labels :
  get_data kpoints band band_edges steps labels =
  foldM (visit_step kpoints band steps) (visits band_edges steps) [].
Proof.
  unfold get_data.
  enough (H : forall data,
    foldM (fun data edge =>
      foldM (fun data x =>
        w <- window_at kpoints band steps edge x ;;
        Ok (match w with Some w => data ++ [w] | None => data end))
        [(- steps)%Z; steps] data) band_edges data =
    foldM (visit_step kpoints band steps) (visits band_edges steps) data)
    by apply H.
  induction band_edges as [|edge edges IH]; intros data; [reflexivity|].
  cbn [foldM visits flat_map app]. unfold visit_step at 1 2. cbn [fst snd].
  destruct (window_at kpoints band steps edge (- steps)) as [w1|]; cbn [bind];
    [|reflexivity].
  destruct (window_at kpoints band steps edge steps) as [w2|]; cbn [bind];
    [|reflexivity].
  apply IH.
Qed.

Lemma foldM_visits kpoints band steps vs :
  Forall (fun v => exists w, window_at kpoints band steps (fst v) (snd v) = Ok w) vs ->
  forall data,
    foldM (visit_step kpoints band steps) vs data =
    Ok (data ++ map snd (built kpoints band steps vs)).
Proof.
  induction 1 as [|v vs [w Hw] _ IH]; intros data; cbn [foldM built map].
  - now rewrite app_nil_r.
  - unfold visit_step at 1. rewrite Hw. cbn [bind].
    destruct w as [w|]; rewrite IH; [|reflexivity].
    cbn [map snd]. now rewrite <- app_assoc.
Qed.

Lemma in_built kpoints band steps vs v w :
  In (v, w) (built kpoints band steps vs) <->
  In v vs /\ window_at kpoints band steps (fst v) (snd v) = Ok (Some w).
Proof.
  induction vs as [|v0 vs IH]; cbn [built In]; [tauto|].
  destruct (window_at kpoints band steps (fst v0) (snd v0)) as [[w0|]|] eqn:E.
  - cbn [In]. rewrite IH. split.
    + intros [H|H]; [inversion H; subst; auto|tauto].
    + intros [[->|H] Hw]; [left; congruence|tauto].
  - rewrite IH. split; [tauto|]. intros [[->|H] Hw]; [congruence|tauto].
  - rewrite IH. split; [tauto|]. intros [[->|H] Hw]; [congruence|tauto].
Qed.

Lemma in_visits band_edges steps edge x :
  In (edge, x) (visits band_edges steps) <->
  In edge band_edges /\ (x = (- steps)%Z \/ x = steps).
Proof.
  unfold visits. rewrite in_flat_map. split.
  - intros [e0 [He [H|[H|[]]]]]; inversion H; subst; auto.
  - intros [He [->| ->]]; exists edge; cbn; auto.
Qed.

Lemma len_mirror c ks : len (mirror c ks) = len ks.
Proof. unfold len, mirror. now rewrite length_map. Qed.

(** ** The window of one visit *)

Section Windows.
Variables (kpoints : list vec3) (band : list float) (steps : Z).
Hypothesis Hlen : len kpoints = len band.
Hypothesis Hsteps : (1 <= steps)%Z.

(** The guard of [window_at]: strictly positive on the left. *)
Lemma window_at_guard_false edge x :
  ((num edge - 1 + x >? 0) && (num edge - 1 + x <? len band))%Z = false ->
  window_at kpoints band steps edge x = Ok None.
Proof. intros H. unfold window_at. now rewrite H. Qed.

Lemma window_at_backward edge :
  let p := (num edge - 1)%Z in
  (p < len band)%Z -> (0 < p - steps)%Z ->
  exists w,
    window_at kpoints band steps edge (- steps) = Ok (Some w) /\
    w_start w = p /\ w_end w = (p - steps)%Z /\
    (exists k_lo k_hi,
        getitem kpoints (p - steps) = Ok k_lo /\ getitem kpoints p = Ok k_hi /\
        w_dir w = unit_direction k_lo k_hi) /\
    window_as_specified kpoints band steps p (- steps) w.
Proof.
  intros p Hp Hlo. unfold window_at. fold p.
  replace (p + - steps)%Z with (p - steps)%Z by lia.
  destruct (Z.gtb_spec (p - steps) 0) as [_|]; [|lia].
  destruct (Z.ltb_spec (p - steps) (len band)) as [_|]; [|lia].
  cbn [andb].
  replace (Z.min p (p - steps)) with (p - steps)%Z by lia.
  replace (Z.max p (p - steps)) with p by lia.
  destruct (getitem_inrange kpoints (p - steps)%Z) as [k_lo [Elo _]]; [lia|].
  destruct (getitem_inrange kpoints p) as [k_hi [Ehi _]]; [lia|].
  rewrite Elo, Ehi. cbn [bind].
  destruct (Z.ltb_spec (- steps) 0) as [_|]; [|lia].
  set (ks := slice kpoints (p - steps) (p + 1)).
  set (vs := slice band (p - steps) (p + 1)).
  assert (Lk : len ks = (steps + 1)%Z) by (unfold ks; rewrite len_slice; lia).
  assert (Lv : len vs = (steps + 1)%Z) by (unfold vs; rewrite len_slice; lia).
  destruct (getitem_inrange ks steps) as [c [Ec _]]; [lia|].
  rewrite Ec. cbn [bind]. rewrite !slice_from_1.
  eexists. split; [reflexivity|]. cbn [w_start w_end w_dir].
  split; [reflexivity|]. split; [reflexivity|].
  split; [now exists k_lo, k_hi|].
  unfold window_as_specified. cbn [w_vals w_kpoints].
  replace (Z.min p (p + - steps)) with (p - steps)%Z by lia.
  replace (Z.max p (p + - steps)) with p by lia.
  fold ks vs. repeat split.
  - intros _. exists c. auto.
  - intros; lia.
  - rewrite len_app, len_tl, len_rev. lia.
  - rewrite len_app, len_tl, len_rev, len_mirror. lia.
Qed.

Lemma window_at_forward edge :
  let p := (num edge - 1)%Z in
  (0 <= p)%Z -> (p + steps < len band)%Z ->
  exists w,
    window_at kpoints band steps edge steps = Ok (Some w) /\
    w_start w = p /\ w_end w = (p + steps)%Z /\
    (exists k_lo k_hi,
        getitem kpoints p = Ok k_lo /\ getitem kpoints (p + steps) = Ok k_hi /\
        w_dir w = unit_direction k_lo k_hi) /\
    window_as_specified kpoints band steps p steps w.
Proof.
  intros p Hp Hhi. unfold window_at. fold p.
  destruct (Z.gtb_spec (p + steps) 0) as [_|]; [|lia].
  destruct (Z.ltb_spec (p + steps) (len band)) as [_|]; [|lia].
  cbn [andb].
  replace (Z.min p (p + steps)) with p by lia.
  replace (Z.max p (p + steps)) with (p + steps)%Z by lia.
  destruct (getitem_inrange kpoints p) as [k_lo [Elo _]]; [lia|].
  destruct (getitem_inrange kpoints (p + steps)%Z) as [k_hi [Ehi _]]; [lia|].
  rewrite Elo, Ehi. cbn [bind].
  destruct (Z.ltb_spec steps 0) as [|_]; [lia|].
  set (ks := slice kpoints p (p + steps + 1)).
  set (vs := slice band p (p + steps + 1)).
  assert (Lk : len ks = (steps + 1)%Z) by (unfold ks; rewrite len_slice; lia).
  assert (Lv : len vs = (steps + 1)%Z) by (unfold vs; rewrite len_slice; lia).
  destruct (getitem_inrange ks 0%Z) as [c [Ec _]]; [lia|].
  rewrite Ec. cbn [bind]. rewrite !slice_from_1.
  eexists. split; [reflexivity|]. cbn [w_start w_end w_dir].
  split; [reflexivity|]. split; [reflexivity|].
  split; [now exists k_lo, k_hi|].
  unfold window_as_specified. cbn [w_vals w_kpoints].
  replace (Z.min p (p + steps)) with p by lia.
  replace (Z.max p (p + steps)) with (p + steps)%Z by lia.
  fold ks vs. repeat split.
  - intros; lia.
  - intros _. exists c. auto.
  - rewrite len_app, len_tl, len_rev. lia.
  - rewrite len_app, len_tl, len_rev, len_mirror. lia.
Qed.

(** On a path of [N] points and for an extremum on the path, a visit
    never raises: it builds a window when [0 < p + x < N] and none
    otherwise. *)
Lemma window_at_cases edge x :
  let p := (num edge - 1)%Z in
  (0 <= p < len band)%Z -> x = (- steps)%Z \/ x = steps ->
  (~ (0 < p + x < len band)%Z /\
   window_at kpoints band steps edge x = Ok None) \/
  ((0 < p + x < len band)%Z /\
   exists w,
     window_at kpoints band steps edge x = Ok (Some w) /\
     w_start w = p /\ w_end w = (p + x)%Z /\
     (exists k_lo k_hi,
        getitem kpoints (Z.min p (p + x)) = Ok k_lo /\
        getitem kpoints (Z.max p (p + x)) = Ok k_hi /\
        w_dir w = unit_direction k_lo k_hi) /\
     window_as_specified kpoints band steps p x w).
Proof.
  intros p Hp Hx.
  destruct (((p + x >? 0) && (p + x <? len band))%Z) eqn:G.
  - right. apply andb_true_iff in G. destruct G as [G1 G2].
    apply Z.gtb_lt in G1. apply Z.ltb_lt in G2. split; [lia|].
    destruct Hx as [-> | ->].
    + destruct (window_at_backward edge) as [w (E & S & En & D & W)];
        [fold p; lia | fold p; lia|].
      exists w. fold p in S, En, D, W.
      replace (p + - steps)%Z with (p - steps)%Z by lia.
      replace (Z.min p (p - steps)) with (p - steps)%Z by lia.
      replace (Z.max p (p - steps)) with p by lia. auto.
    + destruct (window_at_forward edge) as [w (E & S & En & D & W)];
        [fold p; lia | fold p; lia|].
      exists w. fold p in S, En, D, W.
      replace (Z.min p (p + steps)) with p by lia.
      replace (Z.max p (p + steps)) with (p + steps)%Z by lia. auto.
  - left. split.
    + apply andb_false_iff in G. destruct G as [G|G].
      * destruct (Z.gtb_spec (p + x) 0); [discriminate|lia].
      * apply Z.ltb_ge in G. lia.
    + now apply window_at_guard_false.
Qed.

End Windows.

(** ** The windows of [get_data] *)

(** Whatever the inputs, a window of the result comes from a visit. *)
Lemma foldM_visits_In kpoints band steps vs :
  forall data ws w,
    foldM (visit_step kpoints band steps) vs data = Ok ws -> In w ws ->
    In w data \/
    exists v, In v vs /\
      window_at kpoints band steps (fst v) (snd v) = Ok (Some w).
Proof.
  induction vs as [|v vs IH]; intros data ws w Hf Hw; cbn [foldM] in Hf.
  - inversion Hf; subst. now left.
  - unfold visit_step at 1 in Hf.
    destruct (window_at kpoints band steps (fst v) (snd v)) as [o|] eqn:E;
      cbn [bind] in Hf; [|discriminate].
    destruct (IH _ _ _ Hf Hw) as [Hd | [v' [Hv' Hw']]].
    + destruct o as [w0|]; [|now left].
      apply in_app_or in Hd. destruct Hd as [Hd | [<- | []]]; [now left|].
      right. exists v. split; [now left | assumption].
    + right. exists v'. split; [now right | assumption].
Qed.

Lemma get_data_In kpoints band band_edges steps labels ws w :
  get_data kpoints band band_edges steps labels = Ok ws -> In w ws ->
  exists edge x,
    In edge band_edges /\ (x = (- steps)%Z \/ x = steps) /\
    window_at kpoints band steps edge x = Ok (Some w).
Proof.
  rewrite get_data_visits. intros Hf Hw.
  destruct (foldM_visits_In _ _ _ _ _ _ _ Hf Hw) as [[] | [[edge x] [Hv E]]].
  apply in_visits in Hv. destruct Hv as [He Hx]. now exists edge, x.
Qed.

(** The stored bounds are the raw ones, [start_tmp] and [end_tmp]. *)
Lemma window_at_bounds kpoints band steps edge x w :
  window_at kpoints band steps edge x = Ok (Some w) ->
  w_start w = (num edge - 1)%Z /\ w_end w = (num edge - 1 + x)%Z.
Proof.
  unfold window_at.
  destruct ((num edge - 1 + x >? 0) && (num edge - 1 + x <? len band))%Z;
    [|discriminate].
  destruct (getitem kpoints _); cbn [bind]; [|discriminate].
  destruct (getitem kpoints _); cbn [bind]; [|discriminate].
  destruct (x <? 0)%Z;
    (destruct (getitem _ _); cbn [bind]; [|discriminate]);
    intros H; inversion H; subst; cbn; auto.
Qed.

(** On a well-formed path [get_data] raises nothing, and its windows are
    those of the visits whose guard holds. *)
Lemma get_data_total kpoints band band_edges steps labels :
  len kpoints = len band -> (1 <= steps)%Z ->
  Forall (fun edge => (1 <= num edge <= len band)%Z) band_edges ->
  get_data kpoints band band_edges steps labels =
  Ok (map snd (built kpoints band steps (visits band_edges steps))).
Proof.
  intros Hlen Hsteps Hedges. rewrite get_data_visits.
  rewrite foldM_visits; [reflexivity|].
  apply Forall_forall. intros [edge x] Hv. cbn [fst snd].
  apply in_visits in Hv. destruct Hv as [He Hx].
  rewrite Forall_forall in Hedges. specialize (Hedges _ He).
  destruct (window_at_cases kpoints band steps Hlen Hsteps edge x)
    as [[_ E] | [_ [w [E _]]]]; [lia | assumption | eauto | eauto].
Qed.

(** C1, at the input where the code departs from it.  On a path of three
    points with the extremum at the last one (1-based index 3, [p = 2])
    and two steps, the backward offset [x = -2] gives [p + x = 0], inside
    [0 <= p + x < 3], yet the guard [start_tmp + x > 0] of [get_data]
    rejects it: no window is built (the forward offset leaves the path),
    for any k-points and energies. *)
Theorem C1_window_reaching_first_point_dropped :
  forall (k0 k1 k2 : vec3) (v0 v1 v2 : float) (l : vec3) (en : float)
         (labels : option (list string)),
    let edge := mk_edge 3 l en in
    (0 <= (num edge - 1) + (- 2) < len [v0; v1; v2])%Z /\
    window_at [k0; k1; k2] [v0; v1; v2] 2 edge (- 2) = Ok None /\
    get_data [k0; k1; k2] [v0; v1; v2] [edge] 2 labels = Ok [].
Proof.
  intros. split; [cbn; lia|]. split; reflexivity.
Qed.

(** C2: on a path whose k-points and energies have the same length [N],
    with extrema on the path and [steps >= 1], [get_data] returns a list
    of windows such that
    - for every extremum of [band_edges], of 0-based index [p], and each
      signed offset [x] in [-steps], [+steps] that passes the guard
      [0 < p + x < N], the list holds a window built for it, with
      [start = p] and [end = p + x], whose energies and k-points are
      those the specification gives: with [vals_slice] and [kpts_slice]
      the inclusive slices from [min(p, p+x)] to [max(p, p+x)], for
      [x < 0] [vals_slice ++ reverse(vals_slice)[1:]] and
      [kpts_slice ++ reverse(2 * kpts_slice[steps] - kpts_slice)[1:]],
      for [x > 0] [reverse(vals_slice) ++ vals_slice[1:]] and
      [reverse(2 * kpts_slice[0] - kpts_slice) ++ kpts_slice[1:]], both
      of length [2 * steps + 1];
    - every window of the list is built in this way, for an extremum of
      [band_edges] and an offset that passes the guard, and holds these
      energies and k-points. *)
Theorem C2_window_contents :
  forall kpoints band band_edges steps labels,
    len kpoints = len band -> (1 <= steps)%Z ->
    Forall (fun edge => (1 <= num edge <= len band)%Z) band_edges ->
    exists ws,
      get_data kpoints band band_edges steps labels = Ok ws /\
      (forall edge x,
         In edge band_edges -> x = (- steps)%Z \/ x = steps ->
         (0 < num edge - 1 + x < len band)%Z ->
         exists w,
           In w ws /\
           w_start w = (num edge - 1)%Z /\ w_end w = (num edge - 1 + x)%Z /\
           window_as_specified kpoints band steps (num edge - 1) x w) /\
      (forall w, In w ws ->
         exists edge x,
           In edge band_edges /\ (x = (- steps)%Z \/ x = steps) /\
           (0 < num edge - 1 + x < len band)%Z /\
           w_start w = (num edge - 1)%Z /\ w_end w = (num edge - 1 + x)%Z /\
           window_as_specified kpoints band steps (num edge - 1) x w).
Proof.
  intros kpoints band band_edges steps labels Hlen Hsteps Hedges.
  exists (map snd (built kpoints band steps (visits band_edges steps))).
  split; [now apply get_data_total|].
  rewrite Forall_forall in Hedges. split.
  - intros edge x He Hx Hg. specialize (Hedges _ He).
    destruct (window_at_cases kpoints band steps Hlen Hsteps edge x)
      as [[G _] | [_ [w (E & S & En & _ & W)]]]; [lia | assumption | lia |].
    exists w. split; [|auto].
    apply in_map_iff. exists (edge, x, w). split; [reflexivity|].
    apply in_built. cbn [fst snd]. split; [|exact E].
    apply in_visits. auto.
  - intros w Hw. apply in_map_iff in Hw.
    destruct Hw as [[[edge x] w'] [Ew Hb]].
    cbn [snd] in Ew. subst w'. apply in_built in Hb. cbn [fst snd] in Hb.
    destruct Hb as [Hv E]. apply in_visits in Hv. destruct Hv as [He Hx].
    specialize (Hedges _ He).
    destruct (window_at_cases kpoints band steps Hlen Hsteps edge x)
      as [[_ E'] | [G [w' (E' & S & En & _ & W)]]];
      [lia | assumption | congruence |].
    rewrite E in E'. inversion E'; subst w'.
    exists edge, x. auto 10.
Qed.

Lemma C2_window_contents_witness :
  exists ws w,
    get_data path3 band3 [mk_edge 2 (vfin (1 / 2) 0 0) (Fin (-1 / 5))] 1 None
      = Ok ws /\
    In w ws /\ w_start w = 1%Z /\ w_end w = 2%Z /\
    w_vals w = [Fin (-1); Fin (-1 / 5); Fin (-1)] /\
    w_kpoints w
    = rev (mirror (vfin (1 / 2) 0 0) [vfin (1 / 2) 0 0; vfin 1 0 0])
      ++ [vfin 1 0 0].
Proof.
  destruct (C2_window_contents path3 band3
              [mk_edge 2 (vfin (1 / 2) 0 0) (Fin (-1 / 5))] 1 None)
    as [ws (Eg & Hbuilt & _)].
  - reflexivity.
  - lia.
  - repeat constructor; cbn; lia.
  - destruct (Hbuilt (mk_edge 2 (vfin (1 / 2) 0 0) (Fin (-1 / 5))) 1%Z)
      as [w (Hw & S & En & _ & Hforward & _)].
    + now left.
    + now right.
    + cbn. lia.
    + destruct Hforward as [c (Ec & Ev & Ek)]; [cbn; lia|].
      assert (Hc : c = vfin (1 / 2) 0 0).
      { assert (H : getitem (slice path3 (Z.min (2 - 1) (2 - 1 + 1))
                               (Z.max (2 - 1) (2 - 1 + 1) + 1)) 0
                    = Ok (vfin (1 / 2) 0 0)) by reflexivity.
        cbn [num] in Ec. rewrite H in Ec. now inversion Ec. }
      subst c. exists ws, w.
      split; [exact Eg|]. split; [exact Hw|].
      split; [exact S|]. split; [exact En|].
      split; [rewrite Ev | rewrite Ek]; reflexivity.
Defined.

(** C10, as the code has it.  A window stores the raw bounds: ['start']
    is the extremum's 0-based index [p] and ['end'] is [p + x]; the
    normalised [min] and [max] only delimit the slices.  So for
    [steps >= 1] a forward window ([x = +steps]) has [start < end] and a
    backward window ([x = -steps]) has [end < start]; in both
    [|end - start| = steps]. *)
Theorem C10_window_bounds :
  forall kpoints band band_edges steps labels ws w,
    (1 <= steps)%Z ->
    get_data kpoints band band_edges steps labels = Ok ws -> In w ws ->
    exists edge, In edge band_edges /\
      w_start w = (num edge - 1)%Z /\
      ((w_end w = (w_start w + steps)%Z /\ (w_start w < w_end w)%Z) \/
       (w_end w = (w_start w - steps)%Z /\ (w_end w < w_start w)%Z)).
Proof.
  intros kpoints band band_edges steps labels ws w Hsteps Hg Hw.
  destruct (get_data_In _ _ _ _ _ _ _ Hg Hw) as [edge [x (He & Hx & E)]].
  apply window_at_bounds in E. destruct E as [S En].
  exists edge. split; [assumption|]. split; [assumption|].
  destruct Hx as [-> | ->]; [right | left]; lia.
Qed.

Lemma get_data_backward3 :
  get_data path3 band3 [mk_edge 3 (vfin 1 0 0) (Fin (-1))] 1 None
  = Ok [backward_window3].
Proof. reflexivity. Qed.

Lemma C10_window_bounds_witness :
  exists edge, In edge [mk_edge 3 (vfin 1 0 0) (Fin (-1))] /\
    w_start backward_window3 = (num edge - 1)%Z /\
    ((w_end backward_window3 = (w_start backward_window3 + 1)%Z /\
      (w_start backward_window3 < w_end backward_window3)%Z) \/
     (w_end backward_window3 = (w_start backward_window3 - 1)%Z /\
      (w_end backward_window3 < w_start backward_window3)%Z)).
Proof.
  apply (C10_window_bounds path3 band3
           [mk_edge 3 (vfin 1 0 0) (Fin (-1))] 1 None [backward_window3]
           backward_window3).
  - lia.
  - reflexivity.
  - now left.
Defined.

(** C10 as stated fails: the backward window above has start 2 and
    end 1. *)
Lemma C10_backward_window_start_after_end :
  exists ws w,
    get_data path3 band3 [mk_edge 3 (vfin 1 0 0) (Fin (-1))] 1 None = Ok ws /\
    In w ws /\ ~ (w_start w < w_end w)%Z.
Proof.
  exists [backward_window3], backward_window3.
  split; [reflexivity|]. split; [now left|]. cbn. lia.
Qed.

(** ** Floats with finite values *)

Lemma fltb_Fin a b : (Fin a <? Fin b)%float = true <-> (a < b)%R.
Proof. cbn. destruct (Rlt_dec a b); split; (easy || intros; lra). Qed.

Lemma fltb_Fin_false a b : (Fin a <? Fin b)%float = false <-> (b <= a)%R.
Proof. cbn. destruct (Rlt_dec a b); split; (easy || intros; lra). Qed.

Lemma fgtb_Fin a b : (Fin a >? Fin b)%float = true <-> (b < a)%R.
Proof. unfold fgtb. apply fltb_Fin. Qed.

Lemma fgtb_Fin_false a b : (Fin a >? Fin b)%float = false <-> (a <= b)%R.
Proof. unfold fgtb. apply fltb_Fin_false. Qed.

Lemma fsub_Fin a b : (Fin a - Fin b)%float = Fin (a - b).
Proof. reflexivity. Qed.

Lemma fabs_fsub_Fin a b : fabs (Fin a - Fin b) = Fin (Rabs (a - b)).
Proof. reflexivity. Qed.

(** Nothing is within a tolerance of the seed's gap. *)
Lemma seed_never_within bg tol : (fabs (PInf - bg) <? tol)%float = false.
Proof. destruct bg, tol; reflexivity. Qed.

Lemma seed_above_finite g tol : (PInf - Fin g >? Fin tol)%float = true.
Proof. reflexivity. Qed.

(** ** The first loop of [get_band_edges] *)

Lemma fold_left_Rmax_MaxRlist l : forall a, fold_left Rmax l a = MaxRlist (a :: l).
Proof.
  induction l as [|b l IH]; intros a; [reflexivity|].
  cbn [fold_left]. rewrite IH.
  destruct l as [|c l]; [reflexivity|].
  change (MaxRlist (Rmax a b :: c :: l)) with (Rmax (Rmax a b) (MaxRlist (c :: l))).
  change (MaxRlist (a :: b :: c :: l))
    with (Rmax a (Rmax b (MaxRlist (c :: l)))).
  symmetry. apply Rmax_assoc.
Qed.

Lemma fold_left_Rmin_MinRlist l : forall a, fold_left Rmin l a = MinRlist (a :: l).
Proof.
  induction l as [|b l IH]; intros a; [reflexivity|].
  cbn [fold_left]. rewrite IH.
  destruct l as [|c l]; [reflexivity|].
  change (MinRlist (Rmin a b :: c :: l)) with (Rmin (Rmin a b) (MinRlist (c :: l))).
  change (MinRlist (a :: b :: c :: l))
    with (Rmin a (Rmin b (MinRlist (c :: l)))).
  symmetry. apply Rmin_assoc.
Qed.

Lemma MinRlist_In l : l <> [] -> In (MinRlist l) l.
Proof.
  induction l as [|a l IH]; [congruence|]. intros _.
  destruct l as [|b l]; [now left|].
  change (MinRlist (a :: b :: l)) with (Rmin a (MinRlist (b :: l))).
  unfold Rmin. destruct (Rle_dec a (MinRlist (b :: l))); [now left|].
  right. apply IH. congruence.
Qed.

Lemma MaxRlist_In l : l <> [] -> In (MaxRlist l) l.
Proof.
  intros H. apply MaxRlist_P2. destruct l as [|a l]; [congruence|].
  exists a. now left.
Qed.

Lemma band_extrema_fold vbr : forall cbr m c,
  length vbr = length cbr ->
  fold_left
    (fun (acc : float * float) (ve_ce : float * float) =>
       let (vbm, cbm) := acc in
       let (v_e, c_e) := ve_ce in
       (if (v_e >? vbm)%float then v_e else vbm,
        if (c_e <? cbm)%float then c_e else cbm))
    (combine (map Fin vbr) (map Fin cbr)) (Fin m, Fin c)
  = (Fin (fold_left Rmax vbr m), Fin (fold_left Rmin cbr c)).
Proof.
  induction vbr as [|v vbr IH]; intros [|c0 cbr] m c Hl; try discriminate;
    [reflexivity|].
  cbn [map combine fold_left].
  assert (Ev : (if (Fin v >? Fin m)%float then Fin v else Fin m) = Fin (Rmax m v)).
  { unfold Rmax. destruct (Rle_dec m v) as [H|H].
    - destruct (Fin v >? Fin m)%float eqn:E; [reflexivity|].
      apply fgtb_Fin_false in E. f_equal. lra.
    - destruct (Fin v >? Fin m)%float eqn:E; [|reflexivity].
      apply fgtb_Fin in E. lra. }
  assert (Ec : (if (Fin c0 <? Fin c)%float then Fin c0 else Fin c) = Fin (Rmin c c0)).
  { unfold Rmin. destruct (Rle_dec c c0) as [H|H].
    - destruct (Fin c0 <? Fin c)%float eqn:E; [|reflexivity].
      apply fltb_Fin in E. lra.
    - destruct (Fin c0 <? Fin c)%float eqn:E; [reflexivity|].
      apply fltb_Fin_false in E. f_equal. lra. }
  rewrite Ev, Ec. apply IH. now inversion Hl.
Qed.

(** On real energies the first loop finds [max(vb)] and [min(cb)]. *)
Lemma band_extrema_reals vbr cbr :
  length vbr = length cbr -> vbr <> [] ->
  band_extrema (map Fin vbr) (map Fin cbr)
  = (Fin (MaxRlist vbr), Fin (MinRlist cbr)).
Proof.
  intros Hl Hne. destruct vbr as [|v vbr]; [congruence|].
  destruct cbr as [|c cbr]; [discriminate|].
  unfold band_extrema. cbn [map combine fold_left].
  change (if (Fin v >? NInf)%float then Fin v else NInf) with (Fin v).
  change (if (Fin c <? PInf)%float then Fin c else PInf) with (Fin c).
  rewrite band_extrema_fold by (now inversion Hl).
  now rewrite fold_left_Rmax_MaxRlist, fold_left_Rmin_MinRlist.
Qed.

(** ** The second loop of [get_band_edges] *)

Lemma holds_cluster_head l c :
  holds_cluster l c -> exists best, getitem l 0 = Ok best /\ gap_e best = fst c.
Proof.
  intros [[-> ->] | [p [ps [-> ->]]]].
  - exists (Seed PInf). split; [apply getitem_head | reflexivity].
  - exists (Point p). split; [apply getitem_head | reflexivity].
Qed.

Lemma scan_foldM vbm cbm tol vkpts ckpts items :
  forall s c,
    holds_cluster (s_bg_direct s) c ->
    exists s',
      foldM (scan_step vbm cbm tol vkpts ckpts) items s = Ok s' /\
      s_vbms s' = s_vbms s ++
        edge_points vkpts tol vbm (s_k_num s) (map valence_of items) /\
      s_cbms s' = s_cbms s ++
        edge_points ckpts tol cbm (s_k_num s) (map conduction_of items) /\
      holds_cluster (s_bg_direct s')
        (fold_left (cluster_step tol) (gap_points (s_k_num s) items) c).
Proof.
  induction items as [|[kpoint [v_e c_e]] items IH]; intros s c Hc.
  - exists s. cbn. now rewrite !app_nil_r.
  - cbn [foldM]. unfold scan_step at 1.
    destruct (holds_cluster_head _ _ Hc) as [best [Eb Eg]].
    rewrite Eb. cbn [bind]. rewrite Eg.
    match goal with
    | |- context [foldM _ items ?s1] => destruct (IH s1 (cluster_step tol c (mk_edge (s_k_num s) kpoint (c_e - v_e)%float))) as [s' (Ef & Ev & Ec & Hh)]
    end.
    + cbn [s_bg_direct]. unfold cluster_step. cbn [e].
      destruct (fst c - (c_e - v_e) >? tol)%float.
      * right. now exists (mk_edge (s_k_num s) kpoint (c_e - v_e)%float), [].
      * destruct Hc as [[El ->] | [p [ps [El ->]]]].
        -- cbn [fst cluster_seed]. rewrite seed_never_within.
           left. split; [assumption|reflexivity].
        -- cbn [fst snd].
           destruct (fabs (e p - (c_e - v_e)) <? tol)%float.
           ++ right. exists p, (ps ++ [mk_edge (s_k_num s) kpoint (c_e - v_e)%float]).
              rewrite El. split; [|reflexivity].
              cbn [map]. now rewrite map_app.
           ++ right. now exists p, ps.
    + exists s'. split; [exact Ef|].
      cbn [s_vbms s_cbms s_k_num] in Ev, Ec, Hh.
      cbn [map gap_points fold_left edge_points valence_of conduction_of fst snd].
      unfold is_edge_point. rewrite Ev, Ec.
      split; [|split; [|exact Hh]].
      * destruct (contains vkpts (s_k_num s) || (fabs (v_e - vbm) <? tol)%float);
          cbn [app]; now rewrite <- ?app_assoc.
      * destruct (contains ckpts (s_k_num s) || (fabs (c_e - cbm) <? tol)%float);
          cbn [app]; now rewrite <- ?app_assoc.
Qed.

Lemma scan_run kpoints vb cb tol vkpts ckpts :
  exists s,
    foldM (scan_step (fst (band_extrema vb cb)) (snd (band_extrema vb cb))
             tol vkpts ckpts) (scan_items kpoints vb cb) scan_init = Ok s /\
    s_vbms s = vbm_points kpoints vb cb tol vkpts /\
    s_cbms s = cbm_points kpoints vb cb tol ckpts /\
    holds_cluster (s_bg_direct s) (direct_gap_points kpoints vb cb tol).
Proof.
  destruct (scan_foldM (fst (band_extrema vb cb)) (snd (band_extrema vb cb))
              tol vkpts ckpts (scan_items kpoints vb cb) scan_init cluster_seed)
    as [s (Ef & Ev & Ec & Hh)].
  - left. now split.
  - exists s. auto.
Qed.

(** Once a cluster has members it keeps some, and a finite first gap
    replaces the seed. *)
Lemma cluster_step_members tol c pt :
  snd c <> [] -> snd (cluster_step tol c pt) <> [].
Proof.
  intros H. unfold cluster_step.
  destruct (fst c - e pt >? tol)%float; [cbn; congruence|].
  destruct (fabs (fst c - e pt) <? tol)%float; [|assumption].
  cbn. destruct (snd c); [congruence|discriminate].
Qed.

Lemma cluster_fold_members tol pts :
  forall c, snd c <> [] -> snd (fold_left (cluster_step tol) pts c) <> [].
Proof.
  induction pts as [|pt pts IH]; intros c H; [assumption|].
  cbn [fold_left]. apply IH. now apply cluster_step_members.
Qed.

Lemma direct_gap_cluster_members tolr pts :
  pts <> [] -> Forall finite_gap pts ->
  snd (direct_gap_cluster (Fin tolr) pts) <> [].
Proof.
  intros Hne Hfin. destruct pts as [|p pts]; [congruence|].
  unfold direct_gap_cluster. cbn [fold_left]. apply cluster_fold_members.
  inversion Hfin as [|? ? Hp _]; subst. unfold finite_gap in Hp.
  unfold cluster_step. cbn [fst cluster_seed].
  destruct (e p); discriminate.
Qed.

Lemma gap_points_finite kpoints vbr cbr : forall k_num,
  Forall finite_gap
    (gap_points k_num (scan_items kpoints (map Fin vbr) (map Fin cbr))).
Proof.
  unfold scan_items. revert vbr cbr.
  induction kpoints as [|k kpoints IH]; intros vbr cbr k_num; [constructor|].
  destruct vbr as [|v vbr]; [constructor|].
  destruct cbr as [|c cbr]; [constructor|].
  cbn [map combine gap_points]. constructor; [reflexivity|apply IH].
Qed.

Lemma gap_points_nil k_num items : gap_points k_num items = [] -> items = [].
Proof. destruct items as [|[k [v c]] items]; [reflexivity|discriminate]. Qed.

Lemma log_gap_points ps : foldM log_gap_point (map Point ps) tt = Ok tt.
Proof. induction ps as [|p ps IH]; [reflexivity|exact IH]. Qed.

Lemma get_band_edges_unfold kpoints vb cb n_vbm n_cbm tol vkpts ckpts :
  get_band_edges kpoints vb cb n_vbm n_cbm tol vkpts ckpts =
  (let vbm := fst (band_extrema vb cb) in
   let cbm := snd (band_extrema vb cb) in
   s <- foldM (scan_step vbm cbm tol vkpts ckpts)
          (scan_items kpoints vb cb) scan_init ;;
   c0 <- getitem (s_cbms s) 0 ;;
   v0 <- getitem (s_vbms s) 0 ;;
   g0 <- getitem (s_bg_direct s) 0 ;;
   _ <- foldM log_gap_point (s_bg_direct s) tt ;;
   Ok (mk_report (s_vbms s) (s_cbms s)
         (n_energy n_vbm >=? vbm + tol)%float
         (n_energy n_cbm + tol <=? cbm)%float
         (e c0 - e v0)%float (gap_e g0) (s_bg_direct s))).
Proof.
  unfold get_band_edges, scan_items. now destruct (band_extrema vb cb).
Qed.

(** Without a valence or a conduction point [cbms[0]] or [vbms[0]] raises. *)
Lemma get_band_edges_no_points kpoints vb cb n_vbm n_cbm tol vkpts ckpts :
  vbm_points kpoints vb cb tol vkpts = [] \/
  cbm_points kpoints vb cb tol ckpts = [] ->
  get_band_edges kpoints vb cb n_vbm n_cbm tol vkpts ckpts = Raise IndexError.
Proof.
  intros H. rewrite get_band_edges_unfold. cbn zeta.
  destruct (scan_run kpoints vb cb tol vkpts ckpts) as [s (Ef & Ev & Ec & _)].
  rewrite Ef. cbn [bind]. rewrite Ev, Ec.
  destruct (cbm_points kpoints vb cb tol ckpts) as [|c0 C].
  - now rewrite getitem_empty.
  - rewrite getitem_head. cbn [bind].
    destruct H as [-> | H]; [now rewrite getitem_empty | discriminate].
Qed.

(** With a valence and a conduction point, on real energies, it returns
    the report of the specification. *)
Lemma get_band_edges_points kpoints vbr cbr n_vbm n_cbm tolr vkpts ckpts v0 V c0 C :
  let vb := map Fin vbr in
  let cb := map Fin cbr in
  vbm_points kpoints vb cb (Fin tolr) vkpts = v0 :: V ->
  cbm_points kpoints vb cb (Fin tolr) ckpts = c0 :: C ->
  get_band_edges kpoints vb cb n_vbm n_cbm (Fin tolr) vkpts ckpts =
  Ok (mk_report (v0 :: V) (c0 :: C)
        (n_energy n_vbm >=? fst (band_extrema vb cb) + Fin tolr)%float
        (n_energy n_cbm + Fin tolr <=? snd (band_extrema vb cb))%float
        (e c0 - e v0)%float
        (fst (direct_gap_points kpoints vb cb (Fin tolr)))
        (map Point (snd (direct_gap_points kpoints vb cb (Fin tolr))))).
Proof.
  intros vb cb HV HC. rewrite get_band_edges_unfold. cbn zeta.
  destruct (scan_run kpoints vb cb (Fin tolr) vkpts ckpts) as [s (Ef & Ev & Ec & Hh)].
  rewrite Ef. cbn [bind]. rewrite Ev, Ec, HV, HC, !getitem_head. cbn [bind].
  assert (Hm : snd (direct_gap_points kpoints vb cb (Fin tolr)) <> []).
  { apply direct_gap_cluster_members; [|apply gap_points_finite].
    intros En. apply gap_points_nil in En.
    unfold vbm_points in HV. rewrite En in HV. discriminate. }
  destruct Hh as [[_ Es] | [p [ps [El Es]]]].
  - rewrite Es in Hm. now elim Hm.
  - rewrite El, Es. cbn [map fst snd]. rewrite getitem_head. cbn [bind].
    change (Point p :: map Point ps) with (map Point (p :: ps)).
    now rewrite log_gap_points.
Qed.

(** ** Band-edge points *)

Lemma contains_In ks k : contains ks k = true <-> In k ks.
Proof.
  unfold contains. rewrite existsb_exists. split.
  - intros [x [Hx E]]. apply Z.eqb_eq in E. now subst.
  - intros H. exists k. split; [assumption|apply Z.eqb_refl].
Qed.

Lemma edge_points_In forced tol target pts : forall k_num p,
  In p (edge_points forced tol target k_num pts) <->
  exists j, nth_error pts j = Some (loc p, e p) /\
            num p = (k_num + Z.of_nat j)%Z /\
            is_edge_point forced tol target (num p) (e p) = true.
Proof.
  induction pts as [|[k en] pts IH]; intros k_num p; cbn [edge_points].
  - split; [intros []|]. intros [[|j] [H _]]; discriminate.
  - rewrite in_app_iff, IH. split.
    + intros [H | [j (Hj & Hn & Ht)]].
      * destruct (is_edge_point forced tol target k_num en) eqn:T; [|destruct H].
        destruct H as [<- | []]. exists 0%nat. cbn. repeat split; [lia|assumption].
      * exists (S j). cbn [nth_error]. repeat split; [assumption|lia|assumption].
    + intros [[|j] (Hj & Hn & Ht)].
      * left. cbn in Hj. inversion Hj; subst k en.
        replace (k_num + Z.of_nat 0)%Z with k_num in Hn by lia.
        rewrite <- Hn, Ht. left. now destruct p.
      * right. exists j. cbn in Hj. repeat split; [assumption|lia|assumption].
Qed.

Lemma edge_points_sorted forced tol target pts : forall k_num,
  StronglySorted Z.lt (map num (edge_points forced tol target k_num pts)).
Proof.
  induction pts as [|[k en] pts IH]; intros k_num; cbn [edge_points];
    [constructor|].
  destruct (is_edge_point forced tol target k_num en); cbn [app map];
    [|apply IH].
  constructor; [apply IH|].
  apply Forall_forall. intros n Hn. apply in_map_iff in Hn.
  destruct Hn as [p [<- Hp]]. apply edge_points_In in Hp.
  destruct Hp as [j (_ & Hn & _)]. cbn [num]. lia.
Qed.

Lemma nth_error_combine {A B} (l1 : list A) : forall (l2 : list B) j a b,
  nth_error (combine l1 l2) j = Some (a, b) <->
  nth_error l1 j = Some a /\ nth_error l2 j = Some b.
Proof.
  induction l1 as [|x l1 IH]; intros [|y l2] [|j] a b; cbn;
    try (split; [discriminate | intros [? ?]; discriminate]).
  - split; [intros H; inversion H; auto | intros [H1 H2]; congruence].
  - apply IH.
Qed.

Lemma valence_items kpoints : forall vb cb,
  length vb = length cb ->
  map valence_of (scan_items kpoints vb cb) = combine kpoints vb.
Proof.
  unfold scan_items.
  induction kpoints as [|k kpoints IH]; intros [|v vb] [|c cb] Hl;
    try discriminate; try reflexivity.
  cbn [combine map]. unfold valence_of at 1. cbn [fst snd].
  f_equal. apply IH. now inversion Hl.
Qed.

Lemma conduction_items kpoints : forall vb cb,
  length vb = length cb ->
  map conduction_of (scan_items kpoints vb cb) = combine kpoints cb.
Proof.
  unfold scan_items.
  induction kpoints as [|k kpoints IH]; intros [|v vb] [|c cb] Hl;
    try discriminate; try reflexivity.
  cbn [combine map]. unfold conduction_of at 1. cbn [fst snd].
  f_equal. apply IH. now inversion Hl.
Qed.

(** The points found for a band of real energies against a real target *)
Lemma edge_points_reals kpoints band forced tolr target p :
  In p (edge_points forced (Fin tolr) (Fin target) 1
          (combine kpoints (map Fin band))) <->
  edge_point_of kpoints band forced tolr target p.
Proof.
  rewrite edge_points_In. unfold edge_point_of, is_edge_point. split.
  - intros [j (Hj & Hn & Ht)]. apply nth_error_combine in Hj.
    destruct Hj as [Hk Hv]. rewrite nth_error_map in Hv.
    replace (Z.to_nat (num p - 1)) with j by lia.
    destruct (nth_error band j) as [v|] eqn:Ev; [|discriminate].
    cbn in Hv. inversion Hv as [Hv']. exists v.
    repeat split; [lia|assumption|].
    apply orb_true_iff in Ht. destruct Ht as [Ht|Ht].
    + left. now apply contains_In.
    + right. rewrite <- Hv', fabs_fsub_Fin in Ht. now apply fltb_Fin in Ht.
  - intros [v (H1 & Hk & Hv & He & Ht)]. exists (Z.to_nat (num p - 1)).
    split; [|split; [lia|]].
    + apply nth_error_combine. split; [assumption|].
      rewrite nth_error_map, Hv, He. reflexivity.
    + apply orb_true_iff. destruct Ht as [Ht|Ht].
      * left. now apply contains_In.
      * right. rewrite He, fabs_fsub_Fin. now apply fltb_Fin.
Qed.

(** An energy equal to the target is found, whatever is forced. *)
Lemma edge_points_target_In kpoints band forced tolr target :
  length kpoints = length band -> In target band -> (0 < tolr)%R ->
  exists p,
    In p (edge_points forced (Fin tolr) (Fin target) 1
            (combine kpoints (map Fin band))) /\
    e p = Fin target.
Proof.
  intros Hl Hin Htol.
  apply In_nth_error in Hin. destruct Hin as [j Hj].
  assert (Hlt : (j < length kpoints)%nat).
  { rewrite Hl. apply nth_error_Some. congruence. }
  destruct (nth_error kpoints j) as [k|] eqn:Ek;
    [|apply nth_error_None in Ek; lia].
  exists (mk_edge (1 + Z.of_nat j) k (Fin target)). split; [|reflexivity].
  apply edge_points_reals. exists target. cbn [num loc e].
  replace (Z.to_nat (1 + Z.of_nat j - 1)) with j by lia.
  repeat split; [lia|assumption|assumption|].
  right. replace (target - target)%R with 0%R by lra. now rewrite Rabs_R0.
Qed.

Lemma edge_points_target kpoints band forced tolr target :
  length kpoints = length band -> In target band -> (0 < tolr)%R ->
  edge_points forced (Fin tolr) (Fin target) 1
    (combine kpoints (map Fin band)) <> [].
Proof.
  intros Hl Hin Htol.
  destruct (edge_points_target_In kpoints band forced tolr target Hl Hin Htol)
    as [p [Hp _]].
  intros E. rewrite E in Hp. destruct Hp.
Qed.

Section EdgeFinder.
Variables (kpoints : list vec3) (vbr cbr : list R) (tolr : R).
Variables (n_vbm n_cbm : nominal) (forced_vbm forced_cbm : list Z).
Hypothesis Hk : length kpoints = length vbr.
Hypothesis Hvc : length vbr = length cbr.
Hypothesis Hne : vbr <> [].
Hypothesis Htol : (0 < tolr)%R.

Let vb := map Fin vbr.
Let cb := map Fin cbr.

Lemma cbr_nonempty : cbr <> [].
Proof. destruct vbr, cbr; try discriminate; congruence. Qed.

Lemma vbm_points_reals :
  vbm_points kpoints vb cb (Fin tolr) forced_vbm =
  edge_points forced_vbm (Fin tolr) (Fin (MaxRlist vbr)) 1 (combine kpoints vb).
Proof.
  unfold vbm_points, vb, cb.
  rewrite band_extrema_reals by assumption. cbn [fst].
  rewrite valence_items; [reflexivity|]. now rewrite !length_map.
Qed.

Lemma cbm_points_reals :
  cbm_points kpoints vb cb (Fin tolr) forced_cbm =
  edge_points forced_cbm (Fin tolr) (Fin (MinRlist cbr)) 1 (combine kpoints cb).
Proof.
  unfold cbm_points, vb, cb.
  rewrite band_extrema_reals by assumption. cbn [snd].
  rewrite conduction_items; [reflexivity|]. now rewrite !length_map.
Qed.

Lemma vbm_points_nonempty :
  vbm_points kpoints vb cb (Fin tolr) forced_vbm <> [].
Proof.
  rewrite vbm_points_reals. apply edge_points_target; try assumption.
  now apply MaxRlist_In.
Qed.

Lemma cbm_points_nonempty :
  cbm_points kpoints vb cb (Fin tolr) forced_cbm <> [].
Proof.
  rewrite cbm_points_reals. apply edge_points_target; try assumption.
  - congruence.
  - apply MinRlist_In, cbr_nonempty.
Qed.

(** On a well-formed path of real energies, with a positive tolerance,
    [get_band_edges] returns the report of the specification. *)
Lemma get_band_edges_reals :
  exists rep v0 c0,
    get_band_edges kpoints vb cb n_vbm n_cbm (Fin tolr) forced_vbm forced_cbm
      = Ok rep /\
    vbms rep = vbm_points kpoints vb cb (Fin tolr) forced_vbm /\
    cbms rep = cbm_points kpoints vb cb (Fin tolr) forced_cbm /\
    hd_error (vbms rep) = Some v0 /\
    hd_error (cbms rep) = Some c0 /\
    bg_indirect rep = (e c0 - e v0)%float /\
    direct_gap rep = fst (direct_gap_points kpoints vb cb (Fin tolr)) /\
    bg_direct rep = map Point (snd (direct_gap_points kpoints vb cb (Fin tolr))).
Proof.
  destruct (vbm_points kpoints vb cb (Fin tolr) forced_vbm) as [|v0 V] eqn:EV;
    [now elim vbm_points_nonempty|].
  destruct (cbm_points kpoints vb cb (Fin tolr) forced_cbm) as [|c0 C] eqn:EC;
    [now elim cbm_points_nonempty|].
  eexists. exists v0, c0. split.
  - apply get_band_edges_points; eassumption.
  - cbn. repeat split; reflexivity.
Qed.

End EdgeFinder.

(** ** The direct-gap cluster *)

Lemma finite_gap_Fin p : finite_gap p -> e p = Fin (gap_of p).
Proof. unfold finite_gap, gap_of. now destruct (e p). Qed.

(** Before the seeding point: the cluster's gap stays the seed's or the
    gap of an earlier point. *)
Lemma cluster_fold_before tolr (pm : edge) pre : forall c,
  (fst c = PInf \/ exists g, fst c = Fin g /\ (g - gap_of pm > tolr)%R) ->
  Forall finite_gap pre ->
  (forall q, In q pre -> (gap_of q - gap_of pm > tolr)%R) ->
  let c' := fold_left (cluster_step (Fin tolr)) pre c in
  fst c' = PInf \/ exists g, fst c' = Fin g /\ (g - gap_of pm > tolr)%R.
Proof.
  induction pre as [|q pre IH]; intros c Hc Hfin Hpre; [exact Hc|].
  cbn [fold_left]. inversion Hfin as [|? ? Hq Hfin']; subst.
  apply IH; [|assumption|intros; apply Hpre; now right].
  unfold cluster_step.
  destruct (fst c - e q >? Fin tolr)%float.
  - right. exists (gap_of q). split; [now apply finite_gap_Fin|].
    apply Hpre. now left.
  - destruct (fabs (fst c - e q) <? Fin tolr)%float; exact Hc.
Qed.

(** At the seeding point the cluster is replaced. *)
Lemma cluster_step_replace tolr (pm : edge) c :
  (fst c = PInf \/ exists g, fst c = Fin g /\ (g - gap_of pm > tolr)%R) ->
  finite_gap pm ->
  cluster_step (Fin tolr) c pm = (e pm, [pm]).
Proof.
  intros Hc Hm. unfold cluster_step. rewrite (finite_gap_Fin pm Hm).
  destruct Hc as [-> | [g [-> Hg]]].
  - now rewrite seed_above_finite.
  - rewrite fsub_Fin.
    destruct (Fin (g - gap_of pm) >? Fin tolr)%float eqn:E; [reflexivity|].
    apply fgtb_Fin_false in E. lra.
Qed.

(** After it: no point replaces it, those within the tolerance join. *)
Lemma cluster_fold_after tolr (pm : edge) post : forall ps,
  finite_gap pm -> Forall finite_gap post ->
  (forall q, In q post -> (gap_of pm - gap_of q <= tolr)%R) ->
  fold_left (cluster_step (Fin tolr)) post (e pm, ps) =
  (e pm, ps ++ filter (within (Fin tolr) pm) post).
Proof.
  induction post as [|q post IH]; intros ps Hm Hfin Hpost; cbn [fold_left filter].
  - now rewrite app_nil_r.
  - inversion Hfin as [|? ? Hq Hfin']; subst.
    assert (E : cluster_step (Fin tolr) (e pm, ps) q =
                (e pm, if within (Fin tolr) pm q then ps ++ [q] else ps)).
    { unfold cluster_step, within. cbn [fst snd].
      rewrite (finite_gap_Fin pm Hm), (finite_gap_Fin q Hq), fsub_Fin.
      destruct (Fin (gap_of pm - gap_of q) >? Fin tolr)%float eqn:G.
      - apply fgtb_Fin in G. specialize (Hpost q (or_introl eq_refl)). lra.
      - now destruct (fabs (Fin (gap_of pm - gap_of q)) <? Fin tolr)%float. }
    rewrite E.
    destruct (within (Fin tolr) pm q).
    + rewrite IH by (try assumption; intros; apply Hpost; now right).
      now rewrite <- app_assoc.
    + apply IH; try assumption. intros; apply Hpost; now right.
Qed.

(** The cluster seeded at [pm]: every earlier gap is more than [tolr]
    above its gap, no later gap more than [tolr] below. *)
Lemma direct_gap_cluster_seeded tolr pre pm post :
  Forall finite_gap (pre ++ pm :: post) ->
  (forall q, In q pre -> (gap_of q - gap_of pm > tolr)%R) ->
  (forall q, In q post -> (gap_of pm - gap_of q <= tolr)%R) ->
  direct_gap_cluster (Fin tolr) (pre ++ pm :: post) =
  (e pm, pm :: filter (within (Fin tolr) pm) post).
Proof.
  intros Hfin Hpre Hpost. apply Forall_app in Hfin. destruct Hfin as [Hf1 Hf2].
  inversion Hf2 as [|? ? Hm Hf3]; subst.
  unfold direct_gap_cluster. rewrite fold_left_app. cbn [fold_left].
  rewrite (cluster_step_replace tolr pm).
  - now rewrite cluster_fold_after.
  - apply cluster_fold_before; [now left | assumption | assumption].
  - assumption.
Qed.

Lemma within_reals tolr p q :
  finite_gap p -> finite_gap q ->
  within (Fin tolr) p q = true <-> (Rabs (gap_of p - gap_of q) < tolr)%R.
Proof.
  intros Hp Hq. unfold within.
  rewrite (finite_gap_Fin p Hp), (finite_gap_Fin q Hq), fabs_fsub_Fin.
  apply fltb_Fin.
Qed.

Lemma filter_none {A} (f : A -> bool) l :
  (forall x, In x l -> f x = false) -> filter f l = [].
Proof.
  induction l as [|a l IH]; intros H; [reflexivity|]. cbn [filter].
  rewrite (H a (or_introl eq_refl)). apply IH. intros; apply H; now right.
Qed.

(** ** The band edges and the gaps of [get_band_edges] *)

(** C3, as the code has it.  On a well-formed path of real energies with
    a positive tolerance [get_band_edges] returns, and its direct-gap
    list is the cluster of the stated rule: from the seed of gap +inf,
    in traversal order, the point [i] of gap [cb[i] - vb[i]] replaces the
    cluster by a singleton when [best.gap - gap[i] > tol] and joins it
    when [|best.gap - gap[i]| < tol], [best.gap] being the gap of the
    cluster's first element; [direct_gap] is that first gap.  In
    particular, when every gap before a point [pm] is more than [tol]
    above [gap[pm]] and no gap after it is more than [tol] below, the
    cluster is [pm] followed by exactly the later points within [tol] of
    [gap[pm]], in traversal order; so a point whose gap is more than
    [tol] below every other gap is the only entry, and a later point
    within [tol] of [gap[pm]] appears together with [pm], after it. *)
Theorem C3_direct_gap_clustering :
  forall kpoints vbr cbr n_vbm n_cbm tolr forced_vbm forced_cbm,
    length kpoints = length vbr -> length vbr = length cbr ->
    vbr <> [] -> (0 < tolr)%R ->
    let vb := map Fin vbr in
    let cb := map Fin cbr in
    let pts := gap_points 1 (scan_items kpoints vb cb) in
    exists rep,
      get_band_edges kpoints vb cb n_vbm n_cbm (Fin tolr)
        forced_vbm forced_cbm = Ok rep /\
      direct_gap rep = fst (fold_left (cluster_step (Fin tolr)) pts (PInf, [])) /\
      bg_direct rep =
        map Point (snd (fold_left (cluster_step (Fin tolr)) pts (PInf, []))) /\
      (exists p ps, bg_direct rep = Point p :: ps /\ direct_gap rep = e p) /\
      (forall pre pm post,
          pts = pre ++ pm :: post ->
          (forall q, In q pre -> (gap_of q - gap_of pm > tolr)%R) ->
          (forall q, In q post -> (gap_of pm - gap_of q <= tolr)%R) ->
          direct_gap rep = e pm /\
          bg_direct rep =
            map Point (pm :: filter (within (Fin tolr) pm) post) /\
          ((forall q, In q post -> (gap_of q - gap_of pm > tolr)%R) ->
           bg_direct rep = [Point pm]) /\
          (forall q, In q post -> (Rabs (gap_of pm - gap_of q) < tolr)%R ->
             exists l1 l2, bg_direct rep = Point pm :: l1 ++ Point q :: l2)).
Proof.
  intros kpoints vbr cbr n_vbm n_cbm tolr forced_vbm forced_cbm Hk Hvc Hne Htol
         vb cb pts.
  destruct (get_band_edges_reals kpoints vbr cbr tolr n_vbm n_cbm
              forced_vbm forced_cbm Hk Hvc Hne Htol)
    as [rep [v0 [c0 (Eg & EV & _ & Hv0 & _ & _ & Ed & Eb)]]].
  fold vb cb in Eg, EV, Ed, Eb.
  unfold direct_gap_points, direct_gap_cluster, cluster_seed in Ed, Eb.
  fold pts in Ed, Eb.
  assert (Hfin : Forall finite_gap pts) by apply gap_points_finite.
  assert (Hpts : pts <> []).
  { intros En. apply gap_points_nil in En.
    rewrite EV in Hv0. unfold vbm_points in Hv0. rewrite En in Hv0.
    discriminate. }
  pose proof (direct_gap_cluster_members tolr pts Hpts Hfin) as Hm.
  unfold direct_gap_cluster, cluster_seed in Hm.
  exists rep. split; [exact Eg|]. split; [exact Ed|]. split; [exact Eb|]. split.
  - destruct (scan_run kpoints vb cb (Fin tolr) forced_vbm forced_cbm)
      as [s (_ & _ & _ & Hh)].
    unfold direct_gap_points, direct_gap_cluster, cluster_seed in Hh.
    fold pts in Hh. destruct Hh as [[_ Es] | [p [ps [_ Es]]]].
    + rewrite Es in Hm. now elim Hm.
    + exists p, (map Point ps). rewrite Ed, Eb, Es. now split.
  - intros pre pm post Hsplit Hpre Hpost.
    rewrite Hsplit in Hfin.
    pose proof (direct_gap_cluster_seeded tolr pre pm post Hfin Hpre Hpost) as Hc.
    unfold direct_gap_cluster, cluster_seed in Hc.
    rewrite Hsplit in Ed, Eb. rewrite Hc in Ed, Eb. cbn [fst snd] in Ed, Eb.
    apply Forall_app in Hfin. destruct Hfin as [_ Hfin].
    inversion Hfin as [|? ? Hfm Hfpost]; subst.
    split; [exact Ed|]. split; [exact Eb|]. split.
    + intros Hsep. rewrite Eb, filter_none; [reflexivity|].
      intros q Hq. destruct (within (Fin tolr) pm q) eqn:W; [|reflexivity].
      rewrite Forall_forall in Hfpost.
      apply within_reals in W; [|assumption|now apply Hfpost].
      specialize (Hsep q Hq). unfold Rabs in W.
      destruct (Rcase_abs (gap_of pm - gap_of q)); lra.
    + intros q Hq Hw. rewrite Forall_forall in Hfpost.
      assert (Hin : In q (filter (within (Fin tolr) pm) post)).
      { apply filter_In. split; [assumption|].
        apply within_reals; [assumption|now apply Hfpost|assumption]. }
      apply in_split in Hin. destruct Hin as [l1 [l2 El]].
      exists (map Point l1), (map Point l2). rewrite Eb, El.
      cbn [map]. now rewrite map_app.
Qed.

Lemma C3_direct_gap_clustering_witness :
  let vb := map Fin vb3 in
  let cb := map Fin cb3 in
  let pts := gap_points 1 (scan_items path3 vb cb) in
  exists rep,
    get_band_edges path3 vb cb nominal0 nominal0 (Fin (1 / 10000)) [] []
      = Ok rep /\
    direct_gap rep =
      fst (fold_left (cluster_step (Fin (1 / 10000))) pts (PInf, [])) /\
    bg_direct rep =
      map Point (snd (fold_left (cluster_step (Fin (1 / 10000))) pts (PInf, []))) /\
    (exists p ps, bg_direct rep = Point p :: ps /\ direct_gap rep = e p) /\
    (forall pre pm post,
        pts = pre ++ pm :: post ->
        (forall q, In q pre -> (gap_of q - gap_of pm > 1 / 10000)%R) ->
        (forall q, In q post -> (gap_of pm - gap_of q <= 1 / 10000)%R) ->
        direct_gap rep = e pm /\
        bg_direct rep =
          map Point (pm :: filter (within (Fin (1 / 10000)) pm) post) /\
        ((forall q, In q post -> (gap_of q - gap_of pm > 1 / 10000)%R) ->
         bg_direct rep = [Point pm]) /\
        (forall q, In q post -> (Rabs (gap_of pm - gap_of q) < 1 / 10000)%R ->
           exists l1 l2, bg_direct rep = Point pm :: l1 ++ Point q :: l2)).
Proof.
  apply (C3_direct_gap_clustering path3 vb3 cb3 nominal0 nominal0
           (1 / 10000) [] []).
  - reflexivity.
  - reflexivity.
  - discriminate.
  - lra.
Defined.

(** C3 as stated fails.  With the gaps 10 and 11 and the tolerance 2 the
    minimum gap is reached once, at the first point, yet the second
    point is within the tolerance of it and joins the cluster: two
    entries. *)
Lemma C3_single_minimum_gap_two_entries :
  exists rep,
    get_band_edges path2 (map Fin [0; 0]%R) (map Fin [10; 11]%R)
      nominal0 nominal0 (Fin 2) [] [] = Ok rep /\
    map gap_e (bg_direct rep) = [(Fin 10 - Fin 0)%float; (Fin 11 - Fin 0)%float] /\
    (10 - 0 < 11 - 0)%R /\
    length (bg_direct rep) = 2%nat.
Proof.
  destruct (get_band_edges_reals path2 [0; 0]%R [10; 11]%R 2 nominal0 nominal0
              [] [] eq_refl eq_refl)
    as [rep [v0 [c0 (Eg & _ & _ & _ & _ & _ & _ & Eb)]]];
    [discriminate | lra |].
  exists rep. split; [exact Eg|].
  assert (Ec : direct_gap_points path2 (map Fin [0; 0]%R) (map Fin [10; 11]%R) (Fin 2)
               = ((Fin 10 - Fin 0)%float,
                  [mk_edge 1 (vfin 0 0 0) (Fin 10 - Fin 0)%float;
                   mk_edge 2 (vfin (1 / 2) 0 0) (Fin 11 - Fin 0)%float])).
  { unfold direct_gap_points.
    change (gap_points 1 (scan_items path2 (map Fin [0; 0]%R) (map Fin [10; 11]%R)))
      with ([] ++ [mk_edge 1 (vfin 0 0 0) (Fin 10 - Fin 0)%float;
                   mk_edge 2 (vfin (1 / 2) 0 0) (Fin 11 - Fin 0)%float]).
    rewrite (direct_gap_cluster_seeded 2 []
               (mk_edge 1 (vfin 0 0 0) (Fin 10 - Fin 0)%float)
               [mk_edge 2 (vfin (1 / 2) 0 0) (Fin 11 - Fin 0)%float]).
    - cbn [filter e]. f_equal. f_equal.
      assert (W : within (Fin 2) (mk_edge 1 (vfin 0 0 0) (Fin 10 - Fin 0)%float)
                    (mk_edge 2 (vfin (1 / 2) 0 0) (Fin 11 - Fin 0)%float) = true).
      { apply within_reals; [reflexivity|reflexivity|].
        cbn. unfold Rabs. destruct (Rcase_abs _); lra. }
      now rewrite W.
    - repeat constructor.
    - intros q [].
    - intros q [<- | []]. cbn. lra. }
  rewrite Eb, Ec. cbn [snd map gap_e e length]. repeat split. lra.
Qed.

(** C4: on a well-formed path of real energies (k-points, [vb] and [cb]
    of the same length [N >= 1]) with [tol > 0], [get_band_edges]
    returns, and [vbms] holds exactly the points (1-based k-index, its
    k-point, its energy) whose index is in [forced_vbm_indices] or whose
    energy is within [tol] of [max(vb)], in strictly ascending k-index
    order; a point of energy [max(vb)] is among them, so [vbms] is not
    empty.  The same holds of [cbms] with [min(cb)]. *)
Theorem C4_band_edge_points :
  forall kpoints vbr cbr n_vbm n_cbm tolr forced_vbm forced_cbm,
    length kpoints = length vbr -> length vbr = length cbr ->
    vbr <> [] -> (0 < tolr)%R ->
    exists rep,
      get_band_edges kpoints (map Fin vbr) (map Fin cbr) n_vbm n_cbm
        (Fin tolr) forced_vbm forced_cbm = Ok rep /\
      (forall p, In p (vbms rep) <->
                 edge_point_of kpoints vbr forced_vbm tolr (MaxRlist vbr) p) /\
      StronglySorted Z.lt (map num (vbms rep)) /\
      (exists p, In p (vbms rep) /\ e p = Fin (MaxRlist vbr)) /\
      vbms rep <> [] /\
      (forall p, In p (cbms rep) <->
                 edge_point_of kpoints cbr forced_cbm tolr (MinRlist cbr) p) /\
      StronglySorted Z.lt (map num (cbms rep)) /\
      (exists p, In p (cbms rep) /\ e p = Fin (MinRlist cbr)) /\
      cbms rep <> [].
Proof.
  intros kpoints vbr cbr n_vbm n_cbm tolr forced_vbm forced_cbm Hk Hvc Hne Htol.
  destruct (get_band_edges_reals kpoints vbr cbr tolr n_vbm n_cbm
              forced_vbm forced_cbm Hk Hvc Hne Htol)
    as [rep [v0 [c0 (Eg & EV & EC & _)]]].
  rewrite vbm_points_reals in EV by assumption.
  rewrite cbm_points_reals in EC by assumption.
  assert (Hc : cbr <> []) by (destruct vbr, cbr; try discriminate; congruence).
  assert (Hkc : length kpoints = length cbr) by congruence.
  destruct (edge_points_target_In kpoints vbr forced_vbm tolr (MaxRlist vbr)
              Hk (MaxRlist_In vbr Hne) Htol) as [pv [Hpv Epv]].
  destruct (edge_points_target_In kpoints cbr forced_cbm tolr (MinRlist cbr)
              Hkc (MinRlist_In cbr Hc) Htol) as [pc [Hpc Epc]].
  exists rep. split; [exact Eg|]. rewrite EV, EC.
  repeat split.
  - now apply edge_points_reals.
  - now apply edge_points_reals.
  - apply edge_points_sorted.
  - now exists pv.
  - intros E. rewrite E in Hpv. destruct Hpv.
  - now apply edge_points_reals.
  - now apply edge_points_reals.
  - apply edge_points_sorted.
  - now exists pc.
  - intros E. rewrite E in Hpc. destruct Hpc.
Qed.

Lemma C4_band_edge_points_witness :
  exists rep,
    get_band_edges path3 (map Fin vb3) (map Fin cb3) nominal0 nominal0
      (Fin (1 / 10000)) [] [] = Ok rep /\
    (forall p, In p (vbms rep) <->
               edge_point_of path3 vb3 [] (1 / 10000) (MaxRlist vb3) p) /\
    StronglySorted Z.lt (map num (vbms rep)) /\
    (exists p, In p (vbms rep) /\ e p = Fin (MaxRlist vb3)) /\
    vbms rep <> [] /\
    (forall p, In p (cbms rep) <->
               edge_point_of path3 cb3 [] (1 / 10000) (MinRlist cb3) p) /\
    StronglySorted Z.lt (map num (cbms rep)) /\
    (exists p, In p (cbms rep) /\ e p = Fin (MinRlist cb3)) /\
    cbms rep <> [].
Proof.
  apply (C4_band_edge_points path3 vb3 cb3 nominal0 nominal0 (1 / 10000) [] []).
  - reflexivity.
  - reflexivity.
  - discriminate.
  - lra.
Defined.

(** C6: on real energies, whenever the scan finds a valence and a
    conduction point, [get_band_edges] returns and the indirect gap it
    reports is the energy of the first conduction point minus the energy
    of the first valence point, each the point of least k-index among
    those found, whatever the other points and the extrema are. *)
Theorem C6_indirect_gap_first_found :
  forall kpoints vbr cbr n_vbm n_cbm tolr forced_vbm forced_cbm,
    let vb := map Fin vbr in
    let cb := map Fin cbr in
    vbm_points kpoints vb cb (Fin tolr) forced_vbm <> [] ->
    cbm_points kpoints vb cb (Fin tolr) forced_cbm <> [] ->
    exists rep v0 c0,
      get_band_edges kpoints vb cb n_vbm n_cbm (Fin tolr)
        forced_vbm forced_cbm = Ok rep /\
      vbms rep = vbm_points kpoints vb cb (Fin tolr) forced_vbm /\
      cbms rep = cbm_points kpoints vb cb (Fin tolr) forced_cbm /\
      hd_error (vbms rep) = Some v0 /\
      hd_error (cbms rep) = Some c0 /\
      (forall p, In p (vbms rep) -> (num v0 <= num p)%Z) /\
      (forall p, In p (cbms rep) -> (num c0 <= num p)%Z) /\
      bg_indirect rep = (e c0 - e v0)%float.
Proof.
  intros kpoints vbr cbr n_vbm n_cbm tolr forced_vbm forced_cbm vb cb HV HC.
  destruct (vbm_points kpoints vb cb (Fin tolr) forced_vbm) as [|v0 V] eqn:EV;
    [congruence|].
  destruct (cbm_points kpoints vb cb (Fin tolr) forced_cbm) as [|c0 C] eqn:EC;
    [congruence|].
  eexists. exists v0, c0. split.
  - apply get_band_edges_points; eassumption.
  - cbn [vbms cbms bg_indirect hd_error]. repeat split.
    + intros p Hp.
      pose proof (edge_points_sorted forced_vbm (Fin tolr)
                    (fst (band_extrema vb cb)) (map valence_of (scan_items kpoints vb cb)) 1) as S.
      fold (vbm_points kpoints vb cb (Fin tolr) forced_vbm) in S.
      rewrite EV in S. cbn [map] in S. apply StronglySorted_inv in S.
      destruct S as [_ S]. destruct Hp as [<- | Hp]; [lia|].
      rewrite Forall_forall in S. specialize (S (num p) (in_map num V p Hp)). lia.
    + intros p Hp.
      pose proof (edge_points_sorted forced_cbm (Fin tolr)
                    (snd (band_extrema vb cb)) (map conduction_of (scan_items kpoints vb cb)) 1) as S.
      fold (cbm_points kpoints vb cb (Fin tolr) forced_cbm) in S.
      rewrite EC in S. cbn [map] in S. apply StronglySorted_inv in S.
      destruct S as [_ S]. destruct Hp as [<- | Hp]; [lia|].
      rewrite Forall_forall in S. specialize (S (num p) (in_map num C p Hp)). lia.
Qed.

(** The scenario with the first k-index forced into the valence points:
    the first valence point is then not the maximum. *)
Lemma C6_indirect_gap_first_found_witness :
  exists rep v0 c0,
    get_band_edges path3 (map Fin vb3) (map Fin cb3) nominal0 nominal0
      (Fin (1 / 10000)) [1%Z] [] = Ok rep /\
    vbms rep = vbm_points path3 (map Fin vb3) (map Fin cb3) (Fin (1 / 10000)) [1%Z] /\
    cbms rep = cbm_points path3 (map Fin vb3) (map Fin cb3) (Fin (1 / 10000)) [] /\
    hd_error (vbms rep) = Some v0 /\
    hd_error (cbms rep) = Some c0 /\
    (forall p, In p (vbms rep) -> (num v0 <= num p)%Z) /\
    (forall p, In p (cbms rep) -> (num c0 <= num p)%Z) /\
    bg_indirect rep = (e c0 - e v0)%float.
Proof.
  apply (C6_indirect_gap_first_found path3 vb3 cb3 nominal0 nominal0
           (1 / 10000) [1%Z] []).
  - apply vbm_points_nonempty; [reflexivity | reflexivity | discriminate | lra].
  - apply cbm_points_nonempty; [reflexivity | reflexivity | discriminate | lra].
Defined.

(** C8: with an empty valence or conduction sequence [get_band_edges]
    fails: no band-edge point is found and [cbms[0]] raises (Python's
    IndexError, the failure the specification names InvalidInput).  On a
    well-formed non-empty path of real energies with a positive tolerance
    it raises nothing and returns its report. *)
Theorem C8_empty_band_fails :
  (forall kpoints vb cb n_vbm n_cbm tol forced_vbm forced_cbm,
      vb = [] \/ cb = [] ->
      get_band_edges kpoints vb cb n_vbm n_cbm tol forced_vbm forced_cbm
        = Raise IndexError) /\
  (forall kpoints vbr cbr n_vbm n_cbm tolr forced_vbm forced_cbm,
      length kpoints = length vbr -> length vbr = length cbr ->
      vbr <> [] -> (0 < tolr)%R ->
      exists rep,
        get_band_edges kpoints (map Fin vbr) (map Fin cbr) n_vbm n_cbm
          (Fin tolr) forced_vbm forced_cbm = Ok rep).
Proof.
  split.
  - intros kpoints vb cb n_vbm n_cbm tol forced_vbm forced_cbm H.
    apply get_band_edges_no_points. left. unfold vbm_points.
    replace (scan_items kpoints vb cb) with (@nil (vec3 * (float * float)));
      [reflexivity|].
    unfold scan_items. destruct H as [-> | ->].
    + now destruct kpoints.
    + destruct vb; now destruct kpoints.
  - intros kpoints vbr cbr n_vbm n_cbm tolr forced_vbm forced_cbm Hk Hvc Hne Htol.
    destruct (get_band_edges_reals kpoints vbr cbr tolr n_vbm n_cbm
                forced_vbm forced_cbm Hk Hvc Hne Htol) as [rep [_ [_ [Eg _]]]].
    now exists rep.
Qed.

Lemma C8_empty_band_fails_witness :
  get_band_edges path3 [] (map Fin cb3) nominal0 nominal0 (Fin (1 / 10000)) [] []
    = Raise IndexError /\
  exists rep,
    get_band_edges path3 (map Fin vb3) (map Fin cb3) nominal0 nominal0
      (Fin (1 / 10000)) [] [] = Ok rep.
Proof.
  split.
  - apply (proj1 C8_empty_band_fails). left. reflexivity.
  - apply (proj2 C8_empty_band_fails); [reflexivity | reflexivity | discriminate | lra].
Defined.

(** ** The direction of a window *)

Lemma Rsign_zero r : r = 0%R -> Rsign r = Eq.
Proof.
  intros ->. unfold Rsign.
  destruct (total_order_T 0 0) as [[H|H]|H]; try reflexivity; lra.
Qed.

Lemma Rsign_pos r : (0 < r)%R -> Rsign r = Gt.
Proof.
  intros Hr. unfold Rsign.
  destruct (total_order_T r 0) as [[H|H]|H]; try reflexivity; lra.
Qed.

Lemma Rsign_neg r : (r < 0)%R -> Rsign r = Lt.
Proof.
  intros Hr. unfold Rsign.
  destruct (total_order_T r 0) as [[H|H]|H]; try reflexivity; lra.
Qed.

Lemma fsqrt_Fin r : (0 <= r)%R -> fsqrt (Fin r) = Fin (sqrt r).
Proof.
  intros [Hr | <-]; cbn.
  - now rewrite Rsign_pos.
  - now rewrite Rsign_zero.
Qed.

Lemma fdiv_Fin a b : b <> 0%R -> (Fin a / Fin b)%float = Fin (a / b).
Proof.
  intros Hb. cbn. unfold Rsign.
  destruct (total_order_T b 0) as [[H|H]|H]; try reflexivity. contradiction.
Qed.

Lemma fdiv_zero_zero : (Fin 0 / Fin 0)%float = NaN.
Proof. cbn. now rewrite Rsign_zero. Qed.

Lemma vfinite_vfin k : vfinite k = true -> exists x y z, k = vfin x y z.
Proof.
  destruct k as [[| | |x] [| | |y] [| | |z]]; try discriminate.
  intros _. now exists x, y, z.
Qed.

Lemma norm_vfin x y z : norm (vfin x y z) = Fin (sqrt (x * x + y * y + z * z)).
Proof.
  unfold norm, dot, vsum, vmul, vzip. cbn [vfin vx vy vz fmul fadd].
  apply fsqrt_Fin. nra.
Qed.

(** Coinciding k-points: numpy divides the zero vector by zero and the
    direction is NaN in every component; nothing is raised. *)
Lemma unit_direction_coincide k :
  vfinite k = true -> unit_direction k k = vnan.
Proof.
  intros Hk. destruct (vfinite_vfin k Hk) as [x [y [z ->]]].
  unfold unit_direction.
  assert (Ed : vsub (vfin x y z) (vfin x y z) = vfin 0 0 0).
  { unfold vsub, vzip, vfin. cbn [vx vy vz]. rewrite !fsub_Fin.
    f_equal; f_equal; lra. }
  rewrite Ed, norm_vfin.
  replace (0 * 0 + 0 * 0 + 0 * 0)%R with 0%R by lra. rewrite sqrt_0.
  unfold vdivs, vmap, vfin, vnan. cbn [vx vy vz].
  now rewrite fdiv_zero_zero.
Qed.

(** Distinct k-points: the direction is a unit vector. *)
Lemma unit_direction_distinct k1 k2 :
  vfinite k1 = true -> vfinite k2 = true -> k1 <> k2 ->
  vfinite (unit_direction k1 k2) = true /\
  norm (unit_direction k1 k2) = Fin 1.
Proof.
  intros H1 H2 Hd.
  destruct (vfinite_vfin k1 H1) as [x1 [y1 [z1 ->]]].
  destruct (vfinite_vfin k2 H2) as [x2 [y2 [z2 ->]]].
  unfold unit_direction.
  assert (Ed : vsub (vfin x1 y1 z1) (vfin x2 y2 z2)
               = vfin (x1 - x2) (y1 - y2) (z1 - z2)) by reflexivity.
  rewrite Ed, norm_vfin.
  set (a := (x1 - x2)%R). set (b := (y1 - y2)%R). set (c := (z1 - z2)%R).
  set (s := (a * a + b * b + c * c)%R).
  assert (Hs : (0 < s)%R).
  { destruct (Req_dec a 0) as [Ha|Ha]; [|unfold s; nra].
    destruct (Req_dec b 0) as [Hb|Hb]; [|unfold s; nra].
    destruct (Req_dec c 0) as [Hc|Hc]; [|unfold s; nra].
    exfalso. apply Hd. unfold a, b, c in *.
    f_equal; f_equal; lra. }
  assert (Hn : (0 < sqrt s)%R) by now apply sqrt_lt_R0.
  assert (Hnn : (sqrt s * sqrt s = s)%R) by (apply sqrt_def; lra).
  unfold vdivs, vmap, vfin. cbn [vx vy vz].
  rewrite !fdiv_Fin by lra.
  split; [reflexivity|].
  change (mk_vec3 (Fin (a / sqrt s)) (Fin (b / sqrt s)) (Fin (c / sqrt s)))
    with (vfin (a / sqrt s) (b / sqrt s) (c / sqrt s)).
  rewrite norm_vfin. f_equal.
  replace (a / sqrt s * (a / sqrt s) + b / sqrt s * (b / sqrt s)
           + c / sqrt s * (c / sqrt s))%R
    with ((a * a + b * b + c * c) / (sqrt s * sqrt s))%R by (field; lra).
  rewrite Hnn. fold s. replace (s / s)%R with 1%R by (field; lra).
  apply sqrt_1.
Qed.

Lemma getitem_In {A} (l : list A) i a : getitem l i = Ok a -> In a l.
Proof.
  unfold getitem.
  destruct ((0 <=? _) && _)%Z; [|discriminate].
  destruct (nth_error l _) as [a'|] eqn:E; [|discriminate].
  intros H. inversion H; subst. eapply nth_error_In; eassumption.
Qed.

(** C9, as the code has it.  On a well-formed path of finite k-points
    [get_data] raises nothing.  The direction of each window is
    [k[start] - k[end]] divided by its norm, for the two k-points that
    bound the window: when they coincide the division is 0/0 and the
    direction is NaN in every component, without any error; when they
    differ the direction is a unit vector. *)
Theorem C9_window_direction :
  forall kpoints band band_edges steps labels,
    len kpoints = len band -> (1 <= steps)%Z ->
    Forall (fun edge => (1 <= num edge <= len band)%Z) band_edges ->
    Forall (fun k => vfinite k = true) kpoints ->
    exists ws,
      get_data kpoints band band_edges steps labels = Ok ws /\
      forall w, In w ws ->
        exists k_start k_end,
          getitem kpoints (Z.min (w_start w) (w_end w)) = Ok k_start /\
          getitem kpoints (Z.max (w_start w) (w_end w)) = Ok k_end /\
          w_dir w = unit_direction k_start k_end /\
          (k_start = k_end -> w_dir w = vnan) /\
          (k_start <> k_end ->
             vfinite (w_dir w) = true /\ norm (w_dir w) = Fin 1).
Proof.
  intros kpoints band band_edges steps labels Hlen Hsteps Hedges Hfin.
  eexists. split; [now apply get_data_total|].
  intros w Hw. apply in_map_iff in Hw. destruct Hw as [[[edge x] w'] [Ew Hb]].
  cbn [snd] in Ew. subst w'. apply in_built in Hb. cbn [fst snd] in Hb.
  destruct Hb as [Hv E]. apply in_visits in Hv. destruct Hv as [He Hx].
  rewrite Forall_forall in Hedges. specialize (Hedges _ He).
  destruct (window_at_cases kpoints band steps Hlen Hsteps edge x)
    as [[_ E'] | [_ [w' (E' & S & En & [k_lo [k_hi (Elo & Ehi & D)]] & _)]]];
    [lia | assumption | congruence |].
  rewrite E in E'. inversion E'; subst w'.
  rewrite S, En. exists k_lo, k_hi.
  rewrite Forall_forall in Hfin.
  pose proof (Hfin _ (getitem_In _ _ _ Elo)) as Flo.
  pose proof (Hfin _ (getitem_In _ _ _ Ehi)) as Fhi.
  split; [assumption|]. split; [assumption|]. split; [assumption|].
  rewrite D. split.
  - intros <-. now apply unit_direction_coincide.
  - intros Hd. now apply unit_direction_distinct.
Qed.

Lemma C9_window_direction_witness :
  exists ws,
    get_data path3 band3 [mk_edge 2 (vfin (1 / 2) 0 0) (Fin (-1 / 5))] 1 None
      = Ok ws /\
    forall w, In w ws ->
      exists k_start k_end,
        getitem path3 (Z.min (w_start w) (w_end w)) = Ok k_start /\
        getitem path3 (Z.max (w_start w) (w_end w)) = Ok k_end /\
        w_dir w = unit_direction k_start k_end /\
        (k_start = k_end -> w_dir w = vnan) /\
        (k_start <> k_end ->
           vfinite (w_dir w) = true /\ norm (w_dir w) = Fin 1).
Proof.
  apply (C9_window_direction path3 band3
           [mk_edge 2 (vfin (1 / 2) 0 0) (Fin (-1 / 5))] 1 None).
  - reflexivity.
  - lia.
  - repeat constructor; cbn; lia.
  - repeat constructor.
Defined.

(** C9 as stated fails.  On a path that comes back to its first k-point
    the window from index 0 to index 2 is bounded by two coinciding
    k-points; [get_data] raises nothing and returns the window, with a
    NaN direction. *)
Lemma C9_coinciding_kpoints_no_error :
  exists w,
    get_data loop3 band3 [mk_edge 1 (vfin 0 0 0) (Fin (-1))] 2 None = Ok [w] /\
    getitem loop3 (w_start w) = getitem loop3 (w_end w) /\
    w_dir w = vnan.
Proof.
  eexists. split; [reflexivity|]. cbn [w_start w_end w_dir].
  split; [reflexivity|].
  now apply unit_direction_coincide.
Qed.

(** ** Least squares *)

Section Moments.
Variable ps : list (R * R).

Let M (k : nat) : R := Rsum (map (fun xy => (fst xy ^ k)%R) ps).
Let T (k : nat) : R := Rsum (map (fun xy => (fst xy ^ k * snd xy)%R) ps).
Let Y : R := Rsum (map (fun xy => (snd xy ^ 2)%R) ps).

Lemma residuals_expand a b c :
  Rsum (map (fun xy => ((a * fst xy ^ 2 + b * fst xy + c - snd xy) ^ 2)%R) ps)
  = (a * a * M 4 + 2 * a * b * M 3 + (b * b + 2 * a * c) * M 2
     + 2 * b * c * M 1 + c * c * M 0
     - 2 * a * T 2 - 2 * b * T 1 - 2 * c * T 0 + Y)%R.
Proof.
  unfold M, T, Y. induction ps as [|[x y] l IH]; cbn [map Rsum fold_right fst snd].
  - ring.
  - unfold Rsum in IH. rewrite IH. ring.
Qed.

Lemma quadratic_expand a b c :
  Rsum (map (fun xy => ((a * fst xy ^ 2 + b * fst xy + c) ^ 2)%R) ps)
  = (a * a * M 4 + 2 * a * b * M 3 + (b * b + 2 * a * c) * M 2
     + 2 * b * c * M 1 + c * c * M 0)%R.
Proof.
  unfold M. induction ps as [|[x y] l IH]; cbn [map Rsum fold_right fst snd].
  - ring.
  - unfold Rsum in IH. rewrite IH. ring.
Qed.

Lemma quadratic_nonneg a b c :
  (0 <= Rsum (map (fun xy => ((a * fst xy ^ 2 + b * fst xy + c) ^ 2)%R) ps))%R.
Proof.
  induction ps as [|[x y] l IH]; cbn [map Rsum fold_right fst snd]; [lra|].
  unfold Rsum in IH. apply Rplus_le_le_0_compat; [apply pow2_ge_0 | exact IH].
Qed.

(** A solution of the normal equations minimises the residuals. *)
Lemma normal_equations_optimal a b c :
  (M 4 * a + M 3 * b + M 2 * c = T 2)%R ->
  (M 3 * a + M 2 * b + M 1 * c = T 1)%R ->
  (M 2 * a + M 1 * b + M 0 * c = T 0)%R ->
  forall a' b' c',
    (Rsum (map (fun xy => ((a * fst xy ^ 2 + b * fst xy + c - snd xy) ^ 2)%R) ps)
     <= Rsum (map (fun xy => ((a' * fst xy ^ 2 + b' * fst xy + c' - snd xy) ^ 2)%R) ps))%R.
Proof.
  intros N2 N1 N0 a' b' c'.
  pose proof (quadratic_nonneg (a' - a) (b' - b) (c' - c)) as Q.
  rewrite quadratic_expand in Q.
  rewrite !residuals_expand. rewrite <- N2, <- N1, <- N0.
  apply Rminus_le.
  match goal with
  | |- (?l - ?r <= 0)%R =>
      replace (l - r)%R with
        (- ((a' - a) * (a' - a) * M 4 + 2 * (a' - a) * (b' - b) * M 3
            + ((b' - b) * (b' - b) + 2 * (a' - a) * (c' - c)) * M 2
            + 2 * (b' - b) * (c' - c) * M 1 + (c' - c) * (c' - c) * M 0))%R
        by ring
  end.
  lra.
Qed.

End Moments.

(** Cramer's rule solves the normal equations. *)
Lemma cramer3 s0 s1 s2 s3 s4 t0 t1 t2 :
  let d := det3 s4 s3 s2 s3 s2 s1 s2 s1 s0 in
  d <> 0%R ->
  let a := (det3 t2 s3 s2 t1 s2 s1 t0 s1 s0 / d)%R in
  let b := (det3 s4 t2 s2 s3 t1 s1 s2 t0 s0 / d)%R in
  let c := (det3 s4 s3 t2 s3 s2 t1 s2 s1 t0 / d)%R in
  (s4 * a + s3 * b + s2 * c = t2 /\
   s3 * a + s2 * b + s1 * c = t1 /\
   s2 * a + s1 * b + s0 * c = t0)%R.
Proof.
  intros d Hd a b c. unfold a, b, c, d in *. unfold det3 in *.
  repeat split; field; exact Hd.
Qed.

Lemma map_fst_combine {A B} (l1 : list A) : forall (l2 : list B),
  length l1 = length l2 -> map fst (combine l1 l2) = l1.
Proof.
  induction l1 as [|a l1 IH]; intros [|b l2] H; try discriminate; [reflexivity|].
  cbn. f_equal. apply IH. now inversion H.
Qed.

Lemma moment_combine k xs ys :
  length xs = length ys ->
  moment k xs = Rsum (map (fun xy : R * R => (fst xy ^ k)%R) (combine xs ys)).
Proof.
  intros H. unfold moment.
  rewrite <- (map_fst_combine xs ys H) at 1. now rewrite map_map.
Qed.

(** The coefficients of [lstsq2] are a least-squares fit. *)
Lemma lstsq2_optimal xs ys :
  length xs = length ys -> fit_det xs <> 0%R ->
  forall a b c, lstsq2 xs ys = (a, b, c) ->
  forall a' b' c', (sse xs ys a b c <= sse xs ys a' b' c')%R.
Proof.
  intros Hl Hd a b c E a' b' c'. unfold sse.
  unfold lstsq2 in E. inversion E as [[Ea Eb Ec]]. clear E.
  destruct (cramer3 (moment 0 xs) (moment 1 xs) (moment 2 xs) (moment 3 xs)
              (moment 4 xs) (xmoment 0 xs ys) (xmoment 1 xs ys) (xmoment 2 xs ys) Hd)
    as (N2 & N1 & N0).
  fold (fit_det xs) in N2, N1, N0. rewrite Ea, Eb, Ec in N2, N1, N0.
  rewrite ?Ea, ?Eb, ?Ec.
  assert (Hm : forall k, moment k xs
            = Rsum (map (fun xy : R * R => (fst xy ^ k)%R) (combine xs ys)))
    by (intros k; now apply moment_combine).
  rewrite !Hm in N2. rewrite !Hm in N1. rewrite !Hm in N0.
  unfold xmoment in N2, N1, N0.
  now apply normal_equations_optimal.
Qed.

(** ** [calc_em] on real data *)

Lemma reals_map_Fin xs : reals (map Fin xs) = Some xs.
Proof.
  induction xs as [|x xs IH]; [reflexivity|]. cbn [map reals]. now rewrite IH.
Qed.

Lemma row_length_reals row :
  fsqrt (vsum (vsquare (vreal row))) = Fin (axis_length row).
Proof.
  destruct row as [[x y] z].
  unfold vsquare, vsum, vmul, vzip, vreal, vfin, axis_length.
  cbn [vx vy vz fmul fadd]. apply fsqrt_Fin. nra.
Qed.

Lemma row_lengths_reals b0 b1 b2 :
  row_lengths (mk_mat3 (vreal b0) (vreal b1) (vreal b2))
  = vreal (axis_length b0, axis_length b1, axis_length b2).
Proof.
  unfold row_lengths. cbn [row0 row1 row2]. now rewrite !row_length_reals.
Qed.

Lemma x_coord_reals lengths direction k :
  dot (vreal direction) (matvec (diag (vreal lengths)) (vreal k))
  = Fin (x_coord lengths direction k).
Proof.
  destruct lengths as [[l0 l1] l2], direction as [[dx dy] dz], k as [[kx ky] kz].
  unfold matvec, diag, dot, vsum, vmul, vzip, vreal, vfin, x_coord.
  cbn [vx vy vz row0 row1 row2 fmul fadd]. f_equal. ring.
Qed.

Lemma x_coords_reals lengths direction ks :
  map (fun k => dot (vreal direction) (matvec (diag (vreal lengths)) k))
      (map vreal ks)
  = map Fin (map (x_coord lengths direction) ks).
Proof.
  rewrite !map_map. apply map_ext. intros k. apply x_coord_reals.
Qed.

Lemma polyfit2_reals xs ys a b c :
  xs <> [] -> length xs = length ys -> fit_det xs <> 0%R ->
  lstsq2 xs ys = (a, b, c) ->
  polyfit2 (map Fin xs) (map Fin ys) = Ok [Fin a; Fin b; Fin c].
Proof.
  intros Hne Hl Hd E. unfold polyfit2, len. rewrite !length_map.
  destruct (Z.eqb_spec (Z.of_nat (length xs)) 0) as [H0|_].
  { destruct xs; [congruence|discriminate]. }
  rewrite Hl, Z.eqb_refl. cbn [negb]. rewrite !reals_map_Fin.
  destruct (Req_dec_T (fit_det xs) 0); [contradiction|]. now rewrite E.
Qed.

Lemma fmul_Fin a b : (Fin a * Fin b)%float = Fin (a * b).
Proof. reflexivity. Qed.

(** Negated abscissas: the even moments stay, the odd ones change sign. *)
Lemma moment_opp k xs :
  moment k (map Ropp xs) = ((-1) ^ k * moment k xs)%R.
Proof.
  unfold moment. induction xs as [|x xs IH]; cbn [map Rsum fold_right].
  - ring.
  - unfold Rsum in IH. rewrite IH.
    replace ((- x) ^ k)%R with ((-1) ^ k * x ^ k)%R; [ring|].
    rewrite <- Rpow_mult_distr. f_equal. ring.
Qed.

Lemma xmoment_opp k xs : forall ys,
  xmoment k (map Ropp xs) ys = ((-1) ^ k * xmoment k xs ys)%R.
Proof.
  unfold xmoment. induction xs as [|x xs IH]; intros [|y ys];
    cbn [map combine Rsum fold_right fst snd]; try ring.
  specialize (IH ys). unfold Rsum in IH. rewrite IH.
  replace ((- x) ^ k)%R with ((-1) ^ k * x ^ k)%R; [ring|].
  rewrite <- Rpow_mult_distr. f_equal. ring.
Qed.

Lemma fit_det_opp xs : fit_det (map Ropp xs) = fit_det xs.
Proof. unfold fit_det. rewrite !moment_opp. unfold det3. ring. Qed.

Lemma lstsq2_opp xs ys a b c :
  fit_det xs <> 0%R -> lstsq2 xs ys = (a, b, c) ->
  lstsq2 (map Ropp xs) ys = (a, (- b)%R, c).
Proof.
  intros Hd E. unfold lstsq2 in *. rewrite fit_det_opp.
  rewrite !moment_opp, !xmoment_opp.
  inversion E as [[Ea Eb Ec]]. unfold fit_det, det3 in *.
  f_equal; [f_equal|]; field; exact Hd.
Qed.

Lemma x_coord_opp lengths dx dy dz k :
  x_coord lengths (- dx, - dy, - dz)%R k = (- x_coord lengths (dx, dy, dz) k)%R.
Proof.
  destruct lengths as [[l0 l1] l2], k as [[kx ky] kz]. unfold x_coord. ring.
Qed.

Lemma calc_em_reals b0 b1 b2 d ks ys s en lab a b c :
  let lengths := (axis_length b0, axis_length b1, axis_length b2) in
  let xs := map (x_coord lengths d) ks in
  ks <> [] -> length ks = length ys -> fit_det xs <> 0%R ->
  lstsq2 xs ys = (a, b, c) ->
  calc_em (mk_window s en (map Fin ys) lab (vreal d) (map vreal ks))
          (mk_mat3 (vreal b0) (vreal b1) (vreal b2))
  = Ok (Fin hbar2 / Fin (2 * a))%float.
Proof.
  intros lengths xs Hne Hl Hd E. unfold calc_em.
  cbn [w_dir w_kpoints w_vals]. rewrite row_lengths_reals.
  fold lengths. rewrite x_coords_reals. fold xs.
  rewrite (polyfit2_reals xs ys a b c); try assumption.
  - cbn [bind]. rewrite getitem_head. cbn [bind]. rewrite fmul_Fin.
    now replace (a * 2)%R with (2 * a)%R by ring.
  - unfold xs. destruct ks; [congruence|discriminate].
  - unfold xs. now rewrite length_map.
Qed.

Lemma calc_em_x_coords data recip_lattice :
  calc_em data recip_lattice =
  (pfit <- polyfit2 (x_coords data recip_lattice) (w_vals data) ;;
   a <- getitem pfit 0 ;;
   Ok (Fin hbar2 / (a * Fin 2))%float).
Proof. reflexivity. Qed.

Lemma x_coords_real_window b0 b1 b2 d ks ys s en lab :
  x_coords (real_window s en lab d ks ys) (real_basis b0 b1 b2)
  = map Fin (map (x_coord (axis_length b0, axis_length b1, axis_length b2) d) ks).
Proof.
  unfold x_coords, real_window, real_basis. cbn [w_dir w_kpoints].
  rewrite row_lengths_reals. apply x_coords_reals.
Qed.

Lemma reverse_real_window s en lab dx dy dz ks ys :
  reverse_direction (real_window s en lab (dx, dy, dz) ks ys)
  = real_window s en lab (- dx, - dy, - dz)%R ks ys.
Proof. reflexivity. Qed.

(** C5: for a window and a reciprocal basis of real data, with a fit of
    full rank, [calc_em] takes the lengths of the three basis rows,
    [sqrt(sum(row^2))], projects every k-point on the scalar
    [x[j] = direction . (diag(lengths) . kpoints[j])], fits the energies
    by the polynomial [a x^2 + b x + c] of degree 2 that minimises the
    sum of the squared residuals over all samples of the window, and
    returns [7.61996348863 / (2 a)]. *)
Theorem C5_effective_mass :
  forall (b0 b1 b2 d : R * R * R) (ks : list (R * R * R)) (ys : list R)
         (s en : Z) (lab : string),
    let lengths := (axis_length b0, axis_length b1, axis_length b2) in
    let xs := map (x_coord lengths d) ks in
    let data := real_window s en lab d ks ys in
    let recip := real_basis b0 b1 b2 in
    ks <> [] -> length ks = length ys -> fit_det xs <> 0%R ->
    row_lengths recip = vreal lengths /\
    x_coords data recip = map Fin xs /\
    exists a b c,
      polyfit2 (x_coords data recip) (w_vals data) = Ok [Fin a; Fin b; Fin c] /\
      (forall a' b' c', (sse xs ys a b c <= sse xs ys a' b' c')%R) /\
      calc_em data recip = Ok (Fin hbar2 / Fin (2 * a))%float /\
      hbar2 = (761996348863 / 100000000000)%R /\
      (a <> 0%R -> calc_em data recip = Ok (Fin (hbar2 / (2 * a)))).
Proof.
  intros b0 b1 b2 d ks ys s en lab lengths xs data recip Hne Hl Hd.
  split; [apply row_lengths_reals|].
  split; [apply x_coords_real_window|].
  destruct (lstsq2 xs ys) as [[a b] c] eqn:E. exists a, b, c.
  assert (Hx : xs <> []) by (unfold xs; destruct ks; [congruence|discriminate]).
  assert (Hxl : length xs = length ys) by (unfold xs; now rewrite length_map).
  assert (Ec : calc_em data recip = Ok (Fin hbar2 / Fin (2 * a))%float)
    by (now apply (calc_em_reals b0 b1 b2 d ks ys s en lab a b c)).
  split; [|split; [|split; [exact Ec|split; [reflexivity|]]]].
  - unfold data, recip. rewrite x_coords_real_window. fold lengths xs.
    now apply polyfit2_reals.
  - now apply lstsq2_optimal.
  - intros Ha. rewrite Ec. f_equal. apply fdiv_Fin. lra.
Qed.

Lemma axis_length_unit_rows :
  axis_length (1, 0, 0)%R = 1%R /\ axis_length (0, 1, 0)%R = 1%R /\
  axis_length (0, 0, 1)%R = 1%R.
Proof.
  unfold axis_length. repeat split.
  - replace (1 * 1 + 0 * 0 + 0 * 0)%R with 1%R by lra. apply sqrt_1.
  - replace (0 * 0 + 1 * 1 + 0 * 0)%R with 1%R by lra. apply sqrt_1.
  - replace (0 * 0 + 0 * 0 + 1 * 1)%R with 1%R by lra. apply sqrt_1.
Qed.

(** The fit of the three samples of [kline3] along the first axis has
    full rank. *)
Lemma kline3_full_rank :
  fit_det (map (x_coord (axis_length (1, 0, 0)%R, axis_length (0, 1, 0)%R,
                         axis_length (0, 0, 1)%R) (1, 0, 0)%R) kline3) <> 0%R.
Proof.
  destruct axis_length_unit_rows as (-> & -> & ->).
  unfold fit_det, moment, det3, kline3, x_coord, Rsum.
  cbn [map fold_right]. lra.
Qed.

Lemma C5_effective_mass_witness :
  let lengths := (axis_length (1, 0, 0)%R, axis_length (0, 1, 0)%R,
                  axis_length (0, 0, 1)%R) in
  let xs := map (x_coord lengths (1, 0, 0)%R) kline3 in
  let data := real_window 1 2 "" (1, 0, 0)%R kline3 parabola3 in
  let recip := real_basis (1, 0, 0)%R (0, 1, 0)%R (0, 0, 1)%R in
  row_lengths recip = vreal lengths /\
  x_coords data recip = map Fin xs /\
  exists a b c,
    polyfit2 (x_coords data recip) (w_vals data) = Ok [Fin a; Fin b; Fin c] /\
    (forall a' b' c', (sse xs parabola3 a b c <= sse xs parabola3 a' b' c')%R) /\
    calc_em data recip = Ok (Fin hbar2 / Fin (2 * a))%float /\
    hbar2 = (761996348863 / 100000000000)%R /\
    (a <> 0%R -> calc_em data recip = Ok (Fin (hbar2 / (2 * a)))).
Proof.
  apply (C5_effective_mass (1, 0, 0)%R (0, 1, 0)%R (0, 0, 1)%R (1, 0, 0)%R kline3
           parabola3 1 2 "").
  - discriminate.
  - reflexivity.
  - exact kline3_full_rank.
Defined.

(** C7: for a window and a basis of real data with a fit of full rank,
    reversing the direction negates every abscissa, leaves the quadratic
    coefficient of the least-squares fit (and the constant one) unchanged,
    negates the linear one, and [calc_em] returns the same effective
    mass. *)
Theorem C7_direction_sign_invariance :
  forall (b0 b1 b2 d : R * R * R) (ks : list (R * R * R)) (ys : list R)
         (s en : Z) (lab : string),
    let lengths := (axis_length b0, axis_length b1, axis_length b2) in
    let xs := map (x_coord lengths d) ks in
    let data := real_window s en lab d ks ys in
    let recip := real_basis b0 b1 b2 in
    ks <> [] -> length ks = length ys -> fit_det xs <> 0%R ->
    x_coords (reverse_direction data) recip = map fneg (x_coords data recip) /\
    (exists a b c,
        polyfit2 (x_coords data recip) (w_vals data)
          = Ok [Fin a; Fin b; Fin c] /\
        polyfit2 (x_coords (reverse_direction data) recip)
                 (w_vals (reverse_direction data))
          = Ok [Fin a; Fin (- b); Fin c]) /\
    calc_em (reverse_direction data) recip = calc_em data recip.
Proof.
  intros b0 b1 b2 [[dx dy] dz] ks ys s en lab lengths xs data recip Hne Hl Hd.
  assert (Hx : xs <> []) by (unfold xs; destruct ks; [congruence|discriminate]).
  assert (Hxl : length xs = length ys) by (unfold xs; now rewrite length_map).
  assert (Exs : map (x_coord lengths (- dx, - dy, - dz)%R) ks = map Ropp xs).
  { unfold xs. rewrite map_map. apply map_ext. intros k. apply x_coord_opp. }
  assert (Hd' : fit_det (map Ropp xs) <> 0%R) by now rewrite fit_det_opp.
  assert (Hx' : map Ropp xs <> [])
    by (destruct xs; [congruence|discriminate]).
  assert (Hxl' : length (map Ropp xs) = length ys) by now rewrite length_map.
  destruct (lstsq2 xs ys) as [[a b] c] eqn:E.
  pose proof (lstsq2_opp xs ys a b c Hd E) as E'.
  unfold data, recip. rewrite reverse_real_window, !x_coords_real_window.
  fold lengths xs. rewrite Exs. split; [|split].
  - rewrite !map_map. apply map_ext. reflexivity.
  - exists a, b, c. split; now apply polyfit2_reals.
  - unfold real_window, real_basis.
    rewrite (calc_em_reals b0 b1 b2 (dx, dy, dz) ks ys s en lab a b c);
      try assumption.
    apply (calc_em_reals b0 b1 b2 (- dx, - dy, - dz)%R ks ys s en lab a (- b)%R c);
      try assumption.
    + fold lengths. now rewrite Exs.
    + fold lengths. now rewrite Exs.
Qed.

Lemma C7_direction_sign_invariance_witness :
  let data := real_window 1 2 "" (1, 0, 0)%R kline3 parabola3 in
  let recip := real_basis (1, 0, 0)%R (0, 1, 0)%R (0, 0, 1)%R in
  x_coords (reverse_direction data) recip = map fneg (x_coords data recip) /\
  (exists a b c,
      polyfit2 (x_coords data recip) (w_vals data)
        = Ok [Fin a; Fin b; Fin c] /\
      polyfit2 (x_coords (reverse_direction data) recip)
               (w_vals (reverse_direction data))
        = Ok [Fin a; Fin (- b); Fin c]) /\
  calc_em (reverse_direction data) recip = calc_em data recip.
Proof.
  apply (C7_direction_sign_invariance (1, 0, 0)%R (0, 1, 0)%R (0, 0, 1)%R (1, 0, 0)%R
           kline3 parabola3 1 2 "").
  - discriminate.
  - reflexivity.
  - exact kline3_full_rank.
Defined.

(** ** The scenarios of the specification, evaluated *)

Ltac real_arith :=
  unfold Rabs in *;
  repeat match goal with
         | |- context [Rcase_abs ?x] => destruct (Rcase_abs x)
         | H : context [Rcase_abs ?x] |- _ => destruct (Rcase_abs x)
         end;
  lra.

(** Settles the comparisons of real numbers a run meets. *)
Ltac decide_floats :=
  repeat match goal with
         | |- context [Rlt_dec ?a ?b] =>
             destruct (Rlt_dec a b);
             [try (exfalso; real_arith) | try (exfalso; real_arith)]
         | |- context [Rle_dec ?a ?b] =>
             destruct (Rle_dec a b);
             [try (exfalso; real_arith) | try (exfalso; real_arith)]
         end.

Ltac run_band_edges :=
  unfold get_band_edges, band_extrema, nominal0;
  repeat (progress
            (cbn [map combine fold_left fgtb fltb fleb fgeb foldM scan_step
                  scan_init s_k_num s_vbms s_cbms s_bg_direct contains existsb
                  orb fabs fsub fadd fneg bind getitem len length Z.of_nat
                  Z.ltb Z.leb Z.eqb Z.compare andb nth_error Z.to_nat gap_e e
                  app log_gap_point Z.add Pos.add Pos.succ Pos.of_succ_nat
                  Pos.eqb n_energy];
             decide_floats)).

(** The band with its maximum -0.2 and minimum 2.0 at the second of three
    k-points, [tol = 1e-4]: one valence and one conduction point, both of
    k-index 2; indirect and direct gap 2.0 - (-0.2), the direct one at
    k-index 2. *)
Example band_edges_scenario :
  get_band_edges path3 (map Fin vb3) (map Fin cb3) nominal0 nominal0
    (Fin (1 / 10000)) [] []
  = Ok (mk_report [mk_edge 2 (vfin (1 / 2) 0 0) (Fin (-1 / 5))]
          [mk_edge 2 (vfin (1 / 2) 0 0) (Fin 2)] true true
          (Fin (2 - -1 / 5)) (Fin (2 - -1 / 5))
          [Point (mk_edge 2 (vfin (1 / 2) 0 0) (Fin (2 - -1 / 5)))]).
Proof. unfold vb3, cb3, path3. run_band_edges. reflexivity. Qed.

(** With the first k-index forced into the valence points the indirect
    gap pairs the first points found, 2.0 - (-1.0), not the extrema. *)
Example band_edges_first_found :
  get_band_edges path3 (map Fin vb3) (map Fin cb3) nominal0 nominal0
    (Fin (1 / 10000)) [1%Z] []
  = Ok (mk_report [mk_edge 1 (vfin 0 0 0) (Fin (-1));
                   mk_edge 2 (vfin (1 / 2) 0 0) (Fin (-1 / 5))]
          [mk_edge 2 (vfin (1 / 2) 0 0) (Fin 2)] true true
          (Fin (2 - -1)) (Fin (2 - -1 / 5))
          [Point (mk_edge 2 (vfin (1 / 2) 0 0) (Fin (2 - -1 / 5)))]).
Proof. unfold vb3, cb3, path3. run_band_edges. reflexivity. Qed.

(** The extremum at the first of three points, two steps: the backward
    offset leaves the path, the forward one gives the window from index
    0 to index 2, five samples long. *)
Example window_at_path_boundary :
  get_data path3 band3 [mk_edge 1 (vfin 0 0 0) (Fin (-1))] 2 None
  = Ok [mk_window 0 2
          [Fin (-1); Fin (-1 / 5); Fin (-1); Fin (-1 / 5); Fin (-1)] ""
          (unit_direction (vfin 0 0 0) (vfin 1 0 0))
          [vsub (vscale (Fin 2) (vfin 0 0 0)) (vfin 1 0 0);
           vsub (vscale (Fin 2) (vfin 0 0 0)) (vfin (1 / 2) 0 0);
           vsub (vscale (Fin 2) (vfin 0 0 0)) (vfin 0 0 0);
           vfin (1 / 2) 0 0; vfin 1 0 0]].
Proof. reflexivity. Qed.

(** The parabola [y = x^2] sampled at -1/2, 0 and 1/2 along the first
    axis of the unit basis: the fit has [a = 1] and the effective mass is
    [7.61996348863 / 2]. *)
Example calc_em_parabola :
  calc_em (real_window 1 2 "" (1, 0, 0)%R kline3 parabola3)
          (real_basis (1, 0, 0)%R (0, 1, 0)%R (0, 0, 1)%R)
  = Ok (Fin (hbar2 / (2 * 1))).
Proof.
  unfold real_window, real_basis.
  rewrite (calc_em_reals (1, 0, 0)%R (0, 1, 0)%R (0, 0, 1)%R (1, 0, 0)%R
             kline3 parabola3 1 2 "" 1 0 0).
  - f_equal. apply fdiv_Fin. lra.
  - discriminate.
  - reflexivity.
  - exact kline3_full_rank.
  - destruct axis_length_unit_rows as (-> & -> & ->).
    unfold lstsq2, fit_det, moment, xmoment, det3, kline3, parabola3, x_coord, Rsum.
    cbn [map combine fold_right fst snd].
    f_equal; [f_equal|]; field_simplify; lra.
Qed.

(* ================================================================== *)
(** * Further properties of the code *)

(** ** [get_data]: shape and symmetry of the windows *)

Lemma nth_error_slice {A} (l : list A) i j k :
  (0 <= i <= j)%Z -> (j <= len l)%Z -> (0 <= k < j - i)%Z ->
  nth_error (slice l i j) (Z.to_nat k) = nth_error l (Z.to_nat (i + k)).
Proof.
  intros Hi Hj Hk. rewrite slice_inrange by assumption.
  rewrite nth_error_firstn.
  destruct (Nat.ltb_spec (Z.to_nat k) (Z.to_nat (j - i))); [|lia].
  rewrite nth_error_skipn. f_equal. lia.
Qed.

Lemma getitem_nth_error {A} (l : list A) i :
  (0 <= i < len l)%Z ->
  getitem l i = match nth_error l (Z.to_nat i) with
                | Some a => Ok a
                | None => Raise IndexError
                end.
Proof.
  intros Hi. unfold getitem.
  destruct (Z.ltb_spec i 0); [lia|].
  destruct (Z.leb_spec 0 i); [|lia].
  destruct (Z.ltb_spec i (len l)); [|lia]. reflexivity.
Qed.

Lemma getitem_out_of_range {A} (l : list A) i :
  (len l <= i)%Z -> getitem l i = Raise IndexError.
Proof.
  intros Hi. unfold getitem. pose proof (Zle_0_nat (length l)) as H0.
  unfold len in *.
  destruct (Z.ltb_spec i 0); [lia|].
  destruct (Z.ltb_spec i (Z.of_nat (length l))); [lia|].
  now rewrite andb_false_r.
Qed.

(** A list of [s + 1] elements read as its first [s] and its last *)
Lemma list_last_split {A} (l : list A) s :
  len l = (s + 1)%Z -> (0 <= s)%Z ->
  exists init a, l = init ++ [a] /\ len init = s /\
                 nth_error l (Z.to_nat s) = Some a.
Proof.
  intros Hl Hs0. destruct (rev l) as [|a r] eqn:E.
  - apply (f_equal (@rev A)) in E. rewrite rev_involutive in E. subst l.
    unfold len in Hl. cbn in Hl. lia.
  - apply (f_equal (@rev A)) in E. rewrite rev_involutive in E. cbn in E.
    exists (rev r), a. subst l. unfold len in *. rewrite length_app in Hl.
    cbn [length] in Hl. split; [reflexivity|].
    assert (Hs : Z.to_nat s = length (rev r)) by lia.
    split; [lia|]. rewrite Hs, nth_error_app2 by lia.
    now rewrite Nat.sub_diag.
Qed.

Lemma list_head_split {A} (l : list A) s :
  len l = (s + 1)%Z -> (0 <= s)%Z ->
  exists a t, l = a :: t /\ len t = s.
Proof.
  intros Hl Hs. destruct l as [|a t]; unfold len in *; cbn [length] in *; [lia|].
  exists a, t. split; [reflexivity|lia].
Qed.

Lemma mirror_app c l1 l2 : mirror c (l1 ++ l2) = mirror c l1 ++ mirror c l2.
Proof. unfold mirror. apply map_app. Qed.

Lemma mirror_rev c l : mirror c (rev l) = rev (mirror c l).
Proof. unfold mirror. apply map_rev. Qed.

(** Reflecting twice about a finite point gives a finite point back. *)
Lemma mirror_point_involutive c k :
  vfinite c = true -> vfinite k = true ->
  vsub (vscale (Fin 2) c) (vsub (vscale (Fin 2) c) k) = k.
Proof.
  intros Hc Hk.
  destruct (vfinite_vfin c Hc) as [cx [cy [cz ->]]].
  destruct (vfinite_vfin k Hk) as [x [y [z ->]]].
  unfold vsub, vscale, vzip, vmap, vfin. cbn [vx vy vz fmul fsub fadd fneg].
  f_equal; f_equal; ring.
Qed.

Lemma mirror_point_fixed c :
  vfinite c = true -> vsub (vscale (Fin 2) c) c = c.
Proof.
  intros Hc. destruct (vfinite_vfin c Hc) as [cx [cy [cz ->]]].
  unfold vsub, vscale, vzip, vmap, vfin. cbn [vx vy vz fmul fsub fadd fneg].
  f_equal; f_equal; ring.
Qed.

Lemma mirror_involutive c l :
  vfinite c = true -> Forall (fun k => vfinite k = true) l ->
  mirror c (mirror c l) = l.
Proof.
  intros Hc Hl. induction Hl as [|k l Hk _ IH]; [reflexivity|].
  cbn [mirror map]. unfold mirror in IH. rewrite IH.
  now rewrite mirror_point_involutive.
Qed.

Lemma In_slice {A} (l : list A) i j x : In x (slice l i j) -> In x l.
Proof.
  unfold slice. intros H.
  set (n := Z.to_nat (clamp (len l) i)) in *.
  set (m := Z.to_nat (clamp (len l) j - clamp (len l) i)) in *.
  rewrite <- (firstn_skipn n l). apply in_or_app. right.
  rewrite <- (firstn_skipn m (skipn n l)). apply in_or_app. now left.
Qed.

Lemma Forall_slice {A} (P : A -> Prop) (l : list A) i j :
  Forall P l -> Forall P (slice l i j).
Proof.
  intros H. rewrite Forall_forall in *. intros x Hx.
  apply H. eapply In_slice. exact Hx.
Qed.

Lemma len_mirror' c ks : length (mirror c ks) = length ks.
Proof. unfold mirror. apply length_map. Qed.

(** On a well-formed path the windows of [get_data] are those of the
    visits that pass the guard, each as the specification's window. *)
Lemma get_data_windows kpoints band band_edges steps labels :
  len kpoints = len band -> (1 <= steps)%Z ->
  Forall (fun edge => (1 <= num edge <= len band)%Z) band_edges ->
  exists ws,
    get_data kpoints band band_edges steps labels = Ok ws /\
    forall w, In w ws ->
      exists edge x,
        In edge band_edges /\ (x = (- steps)%Z \/ x = steps) /\
        (0 < num edge - 1 + x < len band)%Z /\
        w_start w = (num edge - 1)%Z /\ w_end w = (num edge - 1 + x)%Z /\
        window_as_specified kpoints band steps (num edge - 1) x w.
Proof.
  intros Hlen Hsteps Hedges.
  eexists. split; [now apply get_data_total|].
  intros w Hw. apply in_map_iff in Hw. destruct Hw as [[[edge x] w'] [Ew Hb]].
  cbn [snd] in Ew. subst w'. apply in_built in Hb. cbn [fst snd] in Hb.
  destruct Hb as [Hv E]. apply in_visits in Hv. destruct Hv as [He Hx].
  rewrite Forall_forall in Hedges. specialize (Hedges _ He).
  destruct (window_at_cases kpoints band steps Hlen Hsteps edge x)
    as [[_ E'] | [G [w' (E' & S & En & _ & W)]]]; [lia | assumption | congruence |].
  rewrite E in E'. inversion E'; subst w'.
  exists edge, x. auto 10.
Qed.

(** Lists that read the same in both directions around a middle element *)
Lemma rev_around {A} (l : list A) a : rev (l ++ a :: rev l) = l ++ a :: rev l.
Proof.
  rewrite rev_app_distr. cbn [rev]. rewrite rev_involutive, <- app_assoc.
  reflexivity.
Qed.

Lemma rev_around' {A} (t : list A) a : rev (rev t ++ a :: t) = rev t ++ a :: t.
Proof.
  rewrite <- (rev_involutive t) at 2 4. apply rev_around.
Qed.

Lemma nth_error_middle {A} (l r : list A) a n :
  n = length l -> nth_error (l ++ a :: r) n = Some a.
Proof.
  intros ->. rewrite nth_error_app2 by lia. now rewrite Nat.sub_diag.
Qed.

Section WindowSymmetry.
Variables (kpoints : list vec3) (band : list float) (steps p x : Z) (w : window).
Hypothesis Hlen : len kpoints = len band.
Hypothesis Hsteps : (1 <= steps)%Z.
Hypothesis Hp : (0 <= p < len band)%Z.
Hypothesis Hx : x = (- steps)%Z \/ x = steps.
Hypothesis Hguard : (0 < p + x < len band)%Z.
Hypothesis Hw : window_as_specified kpoints band steps p x w.

Lemma specified_vals_symmetric :
  rev (w_vals w) = w_vals w /\
  nth_error (w_vals w) (Z.to_nat steps) = nth_error band (Z.to_nat p).
Proof.
  destruct Hw as (Hneg & Hpos & _). destruct Hx as [-> | ->].
  - destruct Hneg as [c (_ & Ev & _)]; [lia|].
    replace (Z.min p (p + - steps)) with (p - steps)%Z in Ev by lia.
    replace (Z.max p (p + - steps)) with p in Ev by lia.
    set (vs := slice band (p - steps) (p + 1)) in *.
    assert (Lv : len vs = (steps + 1)%Z) by (unfold vs; rewrite len_slice; lia).
    destruct (list_last_split vs steps Lv) as [init [a (E & Li & Ea)]]; [lia|].
    assert (Eb : nth_error vs (Z.to_nat steps) = nth_error band (Z.to_nat p)).
    { unfold vs. rewrite nth_error_slice by lia. f_equal. lia. }
    rewrite Ev, <- Eb, Ea, E, rev_unit. cbn [tl]. rewrite <- app_assoc.
    cbn [app]. split; [apply rev_around|].
    apply nth_error_middle. unfold len in Li. lia.
  - destruct Hpos as [c (_ & Ev & _)]; [lia|].
    replace (Z.min p (p + steps)) with p in Ev by lia.
    replace (Z.max p (p + steps)) with (p + steps)%Z in Ev by lia.
    set (vs := slice band p (p + steps + 1)) in *.
    assert (Lv : len vs = (steps + 1)%Z) by (unfold vs; rewrite len_slice; lia).
    destruct (list_head_split vs steps Lv) as [a [t (E & Lt)]]; [lia|].
    assert (Eb : nth_error vs (Z.to_nat 0) = nth_error band (Z.to_nat p)).
    { unfold vs. rewrite nth_error_slice by lia. f_equal. lia. }
    rewrite E in Eb. cbn [Z.to_nat nth_error] in Eb.
    rewrite Ev, <- Eb, E. cbn [rev tl]. rewrite <- app_assoc. cbn [app].
    split; [apply rev_around'|].
    apply nth_error_middle. rewrite length_rev. unfold len in Lt. lia.
Qed.

Lemma specified_kpoints_symmetric :
  Forall (fun k => vfinite k = true) kpoints ->
  exists c,
    nth_error kpoints (Z.to_nat p) = Some c /\
    nth_error (w_kpoints w) (Z.to_nat steps) = Some c /\
    mirror c (rev (w_kpoints w)) = w_kpoints w.
Proof.
  intros Hfin. destruct Hw as (Hneg & Hpos & _). destruct Hx as [-> | ->].
  - destruct Hneg as [c (Ec & _ & Ek)]; [lia|].
    replace (Z.min p (p + - steps)) with (p - steps)%Z in Ec, Ek by lia.
    replace (Z.max p (p + - steps)) with p in Ec, Ek by lia.
    set (ks := slice kpoints (p - steps) (p + 1)) in *.
    assert (Fk : Forall (fun k => vfinite k = true) ks)
      by (now apply Forall_slice).
    assert (Lk : len ks = (steps + 1)%Z) by (unfold ks; rewrite len_slice; lia).
    destruct (list_last_split ks steps Lk) as [init [a (E & Li & Ea)]]; [lia|].
    rewrite getitem_nth_error, Ea in Ec by lia. inversion Ec; subst a.
    assert (Eb : nth_error ks (Z.to_nat steps) = nth_error kpoints (Z.to_nat p)).
    { unfold ks. rewrite nth_error_slice by lia. f_equal. lia. }
    rewrite E in Fk. apply Forall_app in Fk. destruct Fk as [Fi Fc].
    pose proof (Forall_inv Fc) as Hc.
    exists c. split; [now rewrite <- Eb|].
    assert (Ew : w_kpoints w = init ++ c :: rev (mirror c init)).
    { rewrite Ek, E, mirror_app, rev_app_distr. cbn [mirror map rev app tl].
      now rewrite <- app_assoc. }
    rewrite Ew. split.
    + apply nth_error_middle. unfold len in Li. lia.
    + rewrite rev_app_distr. cbn [rev]. rewrite rev_involutive, <- app_assoc.
      cbn [app]. rewrite mirror_app.
      change (mirror c (c :: rev init))
        with (vsub (vscale (Fin 2) c) c :: mirror c (rev init)).
      now rewrite mirror_involutive, mirror_point_fixed, mirror_rev by assumption.
  - destruct Hpos as [c (Ec & _ & Ek)]; [lia|].
    replace (Z.min p (p + steps)) with p in Ec, Ek by lia.
    replace (Z.max p (p + steps)) with (p + steps)%Z in Ec, Ek by lia.
    set (ks := slice kpoints p (p + steps + 1)) in *.
    assert (Fk : Forall (fun k => vfinite k = true) ks)
      by (now apply Forall_slice).
    assert (Lk : len ks = (steps + 1)%Z) by (unfold ks; rewrite len_slice; lia).
    destruct (list_head_split ks steps Lk) as [a [t (E & Lt)]]; [lia|].
    assert (Eb : nth_error ks (Z.to_nat 0) = nth_error kpoints (Z.to_nat p)).
    { unfold ks. rewrite nth_error_slice by lia. f_equal. lia. }
    rewrite E in Ec, Eb, Fk. rewrite getitem_head in Ec. inversion Ec; subst a.
    cbn [Z.to_nat nth_error] in Eb.
    pose proof (Forall_inv Fk) as Hc. pose proof (Forall_inv_tail Fk) as Ft.
    exists c. split; [now rewrite <- Eb|].
    assert (Ew : w_kpoints w = rev (mirror c t) ++ c :: t).
    { rewrite Ek, E. cbn [mirror map rev tl]. fold (mirror c t).
      rewrite mirror_point_fixed by assumption. now rewrite <- app_assoc. }
    rewrite Ew. split.
    + apply nth_error_middle. rewrite length_rev, len_mirror'.
      unfold len in Lt. lia.
    + rewrite rev_app_distr. cbn [rev]. rewrite rev_involutive, <- app_assoc.
      cbn [app]. rewrite mirror_app.
      change (mirror c (c :: mirror c t))
        with (vsub (vscale (Fin 2) c) c :: mirror c (mirror c t)).
      now rewrite mirror_involutive, mirror_point_fixed, mirror_rev by assumption.
Qed.

End WindowSymmetry.

(** X1: on a well-formed path every window's energies read the same in
    both directions, and the middle sample, at position [steps], is the
    energy of the extremum, [band[start]]. *)
Theorem X1_window_energies_symmetric :
  forall kpoints band band_edges steps labels,
    len kpoints = len band -> (1 <= steps)%Z ->
    Forall (fun edge => (1 <= num edge <= len band)%Z) band_edges ->
    exists ws,
      get_data kpoints band band_edges steps labels = Ok ws /\
      forall w, In w ws ->
        rev (w_vals w) = w_vals w /\
        exists en, getitem band (w_start w) = Ok en /\
                   getitem (w_vals w) steps = Ok en.
Proof.
  intros kpoints band band_edges steps labels Hlen Hsteps Hedges.
  destruct (get_data_windows kpoints band band_edges steps labels Hlen Hsteps Hedges)
    as [ws [Eg Hws]].
  exists ws. split; [exact Eg|]. intros w Hw.
  destruct (Hws w Hw) as [edge [x (He & Hx & G & S & _ & W)]].
  rewrite Forall_forall in Hedges. specialize (Hedges _ He).
  destruct (specified_vals_symmetric kpoints band steps (num edge - 1) x w)
    as [Hrev Hmid]; try assumption; try lia.
  split; [exact Hrev|].
  destruct W as (_ & _ & Lv & _).
  rewrite S, (getitem_nth_error band) by lia.
  rewrite (getitem_nth_error (w_vals w)) by lia. rewrite Hmid.
  destruct (nth_error band (Z.to_nat (num edge - 1))) as [en|] eqn:E.
  - now exists en.
  - apply nth_error_None in E. unfold len in *. lia.
Qed.

Lemma X1_window_energies_symmetric_witness :
  exists ws,
    get_data path3 band3 [mk_edge 2 (vfin (1 / 2) 0 0) (Fin (-1 / 5))] 1 None
      = Ok ws /\
    forall w, In w ws ->
      rev (w_vals w) = w_vals w /\
      exists en, getitem band3 (w_start w) = Ok en /\
                 getitem (w_vals w) 1 = Ok en.
Proof.
  apply (X1_window_energies_symmetric path3 band3
           [mk_edge 2 (vfin (1 / 2) 0 0) (Fin (-1 / 5))] 1 None).
  - reflexivity.
  - lia.
  - repeat constructor; cbn; lia.
Defined.

(** X2: on a well-formed path of finite k-points every window's k-points
    are symmetric about the extremum's k-point [c = kpoints[start]]: [c]
    is the middle sample, and reflecting the reversed sequence about [c]
    ([2 c - k]) gives the sequence back. *)
Theorem X2_window_kpoints_symmetric :
  forall kpoints band band_edges steps labels,
    len kpoints = len band -> (1 <= steps)%Z ->
    Forall (fun edge => (1 <= num edge <= len band)%Z) band_edges ->
    Forall (fun k => vfinite k = true) kpoints ->
    exists ws,
      get_data kpoints band band_edges steps labels = Ok ws /\
      forall w, In w ws ->
        exists c, getitem kpoints (w_start w) = Ok c /\
                  getitem (w_kpoints w) steps = Ok c /\
                  mirror c (rev (w_kpoints w)) = w_kpoints w.
Proof.
  intros kpoints band band_edges steps labels Hlen Hsteps Hedges Hfin.
  destruct (get_data_windows kpoints band band_edges steps labels Hlen Hsteps Hedges)
    as [ws [Eg Hws]].
  exists ws. split; [exact Eg|]. intros w Hw.
  destruct (Hws w Hw) as [edge [x (He & Hx & G & S & _ & W)]].
  rewrite Forall_forall in Hedges. specialize (Hedges _ He).
  destruct (specified_kpoints_symmetric kpoints band steps (num edge - 1) x w)
    as [c (Ec & Em & Es)]; try assumption; try lia.
  exists c. destruct W as (_ & _ & _ & Lk).
  rewrite S, (getitem_nth_error kpoints), Ec by lia.
  rewrite (getitem_nth_error (w_kpoints w)), Em by lia. auto.
Qed.

Lemma X2_window_kpoints_symmetric_witness :
  exists ws,
    get_data path3 band3 [mk_edge 2 (vfin (1 / 2) 0 0) (Fin (-1 / 5))] 1 None
      = Ok ws /\
    forall w, In w ws ->
      exists c, getitem path3 (w_start w) = Ok c /\
                getitem (w_kpoints w) 1 = Ok c /\
                mirror c (rev (w_kpoints w)) = w_kpoints w.
Proof.
  apply (X2_window_kpoints_symmetric path3 band3
           [mk_edge 2 (vfin (1 / 2) 0 0) (Fin (-1 / 5))] 1 None).
  - reflexivity.
  - lia.
  - repeat constructor; cbn; lia.
  - repeat constructor.
Defined.

(** The accumulator of the loop only grows at its end. *)
Lemma foldM_visits_data kpoints band steps vs : forall data,
  foldM (visit_step kpoints band steps) vs data =
  (ws <- foldM (visit_step kpoints band steps) vs [] ;; Ok (data ++ ws)).
Proof.
  induction vs as [|v vs IH]; intros data; cbn [foldM bind].
  - now rewrite app_nil_r.
  - unfold visit_step at 1 3.
    destruct (window_at kpoints band steps (fst v) (snd v)) as [[w|]|];
      cbn [bind app]; [| apply IH | reflexivity].
    rewrite (IH (data ++ [w])), (IH [w]).
    destruct (foldM (visit_step kpoints band steps) vs []); cbn [bind];
      [|reflexivity].
    now rewrite <- app_assoc.
Qed.

Lemma foldM_app {A B} (f : B -> A -> result B) l1 : forall l2 b,
  foldM f (l1 ++ l2) b = (b' <- foldM f l1 b ;; foldM f l2 b').
Proof.
  induction l1 as [|a l1 IH]; intros l2 b; cbn [app foldM bind]; [reflexivity|].
  destruct (f b a); cbn [bind]; [apply IH | reflexivity].
Qed.

Lemma visits_app e1 e2 steps :
  visits (e1 ++ e2) steps = visits e1 steps ++ visits e2 steps.
Proof. unfold visits. apply flat_map_app. Qed.

(** X3: the windows of a list of band edges are those of its parts, in
    order: [get_data] of [e1 ++ e2] runs [get_data] of [e1], then of
    [e2], and concatenates (the first exception of either ends it);
    without band edges there is no window. *)
Theorem X3_get_data_concatenates :
  forall kpoints band e1 e2 steps labels,
    get_data kpoints band [] steps labels = Ok [] /\
    get_data kpoints band (e1 ++ e2) steps labels =
    (ws1 <- get_data kpoints band e1 steps labels ;;
     ws2 <- get_data kpoints band e2 steps labels ;;
     Ok (ws1 ++ ws2)).
Proof.
  intros kpoints band e1 e2 steps labels. split; [reflexivity|].
  rewrite !get_data_visits, visits_app, foldM_app.
  destruct (foldM (visit_step kpoints band steps) (visits e1 steps) [])
    as [ws1|]; cbn [bind]; [|reflexivity].
  apply foldM_visits_data.
Qed.

Lemma built_app kpoints band steps v1 v2 :
  built kpoints band steps (v1 ++ v2) =
  built kpoints band steps v1 ++ built kpoints band steps v2.
Proof.
  induction v1 as [|v v1 IH]; cbn [app built]; [reflexivity|].
  destruct (window_at kpoints band steps (fst v) (snd v)) as [[w|]|];
    cbn [app]; now rewrite IH.
Qed.

Lemma get_data_window_count :
  forall kpoints band band_edges steps labels,
    len kpoints = len band -> (1 <= steps)%Z ->
    Forall (fun edge => (1 <= num edge <= len band)%Z) band_edges ->
    exists ws,
      get_data kpoints band band_edges steps labels = Ok ws /\
      length ws = window_count (len band) steps band_edges.
Proof.
  intros kpoints band band_edges steps labels Hlen Hsteps Hedges.
  eexists. split; [now apply get_data_total|].
  rewrite length_map.
  induction Hedges as [|edge edges He _ IH]; [reflexivity|].
  change (visits (edge :: edges) steps)
    with ([(edge, (- steps)%Z); (edge, steps)] ++ visits edges steps).
  rewrite built_app, length_app, IH. cbn [window_count]. f_equal.
  unfold windows_of_edge. cbn [built fst snd].
  destruct (window_at_cases kpoints band steps Hlen Hsteps edge (- steps))
    as [[G1 E1] | [G1 [w1 [E1 _]]]]; [lia | now left | |];
  destruct (window_at_cases kpoints band steps Hlen Hsteps edge steps)
    as [[G2 E2] | [G2 [w2 [E2 _]]]]; try lia; try (now right);
  rewrite E1, E2; cbn [length];
  destruct (Z.ltb_spec 0 (num edge - 1 - steps));
  destruct (Z.ltb_spec (num edge - 1 + steps) (len band)); lia.
Qed.

(** X4: on a well-formed path the number of windows is, per band edge of
    0-based index [p], one if [0 < p - steps] plus one if
    [p + steps < N]: two for an extremum further than [steps] from the
    first point and at least [steps] before the last, none for an
    extremum within [steps] of the first point and of the end. *)
Theorem X4_window_count :
  forall kpoints band band_edges steps labels,
    len kpoints = len band -> (1 <= steps)%Z ->
    Forall (fun edge => (1 <= num edge <= len band)%Z) band_edges ->
    exists ws,
      get_data kpoints band band_edges steps labels = Ok ws /\
      length ws = window_count (len band) steps band_edges.
Proof. exact get_data_window_count. Qed.

Lemma X4_window_count_witness :
  exists ws,
    get_data path3 band3 [mk_edge 2 (vfin (1 / 2) 0 0) (Fin (-1 / 5))] 1 None
      = Ok ws /\
    length ws = window_count (len band3) 1
                  [mk_edge 2 (vfin (1 / 2) 0 0) (Fin (-1 / 5))].
Proof.
  apply (X4_window_count path3 band3
           [mk_edge 2 (vfin (1 / 2) 0 0) (Fin (-1 / 5))] 1 None).
  - reflexivity.
  - lia.
  - repeat constructor; cbn; lia.
Defined.

(** [getitem], and so a visit, raises nothing but [IndexError]. *)
Lemma getitem_raises {A} (l : list A) i err :
  getitem l i = Raise err -> err = IndexError.
Proof.
  unfold getitem. destruct ((0 <=? _) && _)%Z; [|congruence].
  destruct (nth_error l _); congruence.
Qed.

Lemma window_at_raises kpoints band steps edge x err :
  window_at kpoints band steps edge x = Raise err -> err = IndexError.
Proof.
  unfold window_at.
  destruct ((num edge - 1 + x >? 0) && (num edge - 1 + x <? len band))%Z;
    [|discriminate].
  destruct (x <? 0)%Z;
    repeat match goal with
           | |- bind (getitem ?l ?i) _ = _ -> _ =>
               let E := fresh "E" in
               destruct (getitem l i) eqn:E; cbn [bind];
               [|intros H; injection H as <-; exact (getitem_raises _ _ _ E)]
           end;
    discriminate.
Qed.

Lemma foldM_visits_raise kpoints band steps vs : forall data v,
  In v vs ->
  window_at kpoints band steps (fst v) (snd v) = Raise IndexError ->
  foldM (visit_step kpoints band steps) vs data = Raise IndexError.
Proof.
  induction vs as [|v0 vs IH]; intros data v Hv Hr; [destruct Hv|].
  cbn [foldM]. unfold visit_step at 1.
  destruct (window_at kpoints band steps (fst v0) (snd v0)) as [o|err] eqn:E;
    cbn [bind].
  - destruct Hv as [-> | Hv]; [congruence|]. eapply IH; eassumption.
  - f_equal. eapply window_at_raises; eassumption.
Qed.

(** X5: when the k-point list is shorter than the band, a band edge
    whose forward window fits the band but reaches past the k-points
    makes [get_data] fail with [IndexError] ([kpoints[end]]), whatever
    the other band edges are. *)
Theorem X5_short_kpoints_raise :
  forall kpoints band band_edges steps labels edge,
    In edge band_edges -> (1 <= num edge)%Z -> (1 <= steps)%Z ->
    (num edge - 1 + steps < len band)%Z ->
    (len kpoints <= num edge - 1 + steps)%Z ->
    get_data kpoints band band_edges steps labels = Raise IndexError.
Proof.
  intros kpoints band band_edges steps labels edge He Hn Hs Hb Hk.
  rewrite get_data_visits.
  apply (foldM_visits_raise kpoints band steps _ [] (edge, steps)).
  - apply in_visits. auto.
  - cbn [fst snd]. unfold window_at.
    destruct (Z.gtb_spec (num edge - 1 + steps) 0); [|lia].
    destruct (Z.ltb_spec (num edge - 1 + steps) (len band)); [|lia].
    cbn [andb].
    replace (Z.max (num edge - 1) (num edge - 1 + steps))
      with (num edge - 1 + steps)%Z by lia.
    rewrite (getitem_out_of_range kpoints (num edge - 1 + steps)) by lia.
    destruct (getitem kpoints _) as [k|err] eqn:E; cbn [bind]; [reflexivity|].
    f_equal. eapply getitem_raises; eassumption.
Qed.

Lemma X5_short_kpoints_raise_witness :
  get_data [vfin 0 0 0; vfin (1 / 2) 0 0] band3
    [mk_edge 2 (vfin (1 / 2) 0 0) (Fin (-1 / 5))] 1 None = Raise IndexError.
Proof.
  apply (X5_short_kpoints_raise [vfin 0 0 0; vfin (1 / 2) 0 0] band3
           [mk_edge 2 (vfin (1 / 2) 0 0) (Fin (-1 / 5))] 1 None
           (mk_edge 2 (vfin (1 / 2) 0 0) (Fin (-1 / 5)))).
  - now left.
  - cbn; lia.
  - lia.
  - cbn; lia.
  - cbn; lia.
Defined.

(** ** [get_band_edges]: forced indices, tolerance and gaps *)

(** Whatever the floats, a report holds the points and the cluster of
    the specification. *)
Lemma get_band_edges_Ok kpoints vb cb n_vbm n_cbm tol vkpts ckpts rep :
  get_band_edges kpoints vb cb n_vbm n_cbm tol vkpts ckpts = Ok rep ->
  vbms rep = vbm_points kpoints vb cb tol vkpts /\
  cbms rep = cbm_points kpoints vb cb tol ckpts /\
  bg_direct rep = map Point (snd (direct_gap_points kpoints vb cb tol)) /\
  direct_gap rep = fst (direct_gap_points kpoints vb cb tol) /\
  (exists v0 c0, hd_error (vbms rep) = Some v0 /\ hd_error (cbms rep) = Some c0 /\
                 bg_indirect rep = (e c0 - e v0)%float) /\
  higher_vbm_outside rep
    = (n_energy n_vbm >=? fst (band_extrema vb cb) + tol)%float /\
  lower_cbm_outside rep
    = (n_energy n_cbm + tol <=? snd (band_extrema vb cb))%float.
Proof.
  rewrite get_band_edges_unfold. cbn zeta.
  destruct (scan_run kpoints vb cb tol vkpts ckpts) as [s (Ef & Ev & Ec & Hh)].
  rewrite Ef. cbn [bind]. rewrite Ev, Ec.
  destruct (cbm_points kpoints vb cb tol ckpts) as [|c0 C];
    [rewrite getitem_empty; discriminate|].
  rewrite getitem_head. cbn [bind].
  destruct (vbm_points kpoints vb cb tol vkpts) as [|v0 V];
    [rewrite getitem_empty; discriminate|].
  rewrite getitem_head. cbn [bind].
  destruct Hh as [[El Es] | [p [ps [El Es]]]]; rewrite El.
  - rewrite getitem_head. cbn [bind foldM log_gap_point]. discriminate.
  - cbn [map]. rewrite getitem_head. cbn [bind].
    change (Point p :: map Point ps) with (map Point (p :: ps)).
    rewrite log_gap_points. cbn [bind]. intros H. inversion H; subst rep.
    cbn [vbms cbms bg_direct direct_gap bg_indirect higher_vbm_outside
         lower_cbm_outside]. rewrite Es. cbn [fst snd gap_e].
    repeat split. now exists v0, c0.
Qed.

Lemma nth_error_combine3 kpoints vb cb j k v c :
  nth_error (scan_items kpoints vb cb) j = Some (k, (v, c)) <->
  nth_error kpoints j = Some k /\ nth_error vb j = Some v /\
  nth_error cb j = Some c.
Proof.
  unfold scan_items. rewrite nth_error_combine, nth_error_combine. tauto.
Qed.

Lemma nth_error_Some_len {A} (l : list A) j a :
  nth_error l j = Some a -> (Z.of_nat j + 1 <= len l)%Z.
Proof.
  intros H. assert (j < length l)%nat by (apply nth_error_Some; congruence).
  unfold len. lia.
Qed.

(** The valence points, whatever the floats: points of the zipped path
    that pass the test. *)
Lemma vbm_points_In kpoints vb cb tol vkpts p :
  In p (vbm_points kpoints vb cb tol vkpts) <->
  on_path kpoints vb cb vb p /\
  is_edge_point vkpts tol (fst (band_extrema vb cb)) (num p) (e p) = true.
Proof.
  unfold vbm_points, on_path. rewrite edge_points_In. split.
  - intros [j (Hj & Hn & Ht)]. rewrite nth_error_map in Hj.
    destruct (nth_error (scan_items kpoints vb cb) j) as [[k [v c]]|] eqn:E;
      [|discriminate].
    cbn in Hj. inversion Hj; subst k v. apply nth_error_combine3 in E.
    destruct E as (Ek & Ev & Ec).
    pose proof (nth_error_Some_len _ _ _ Ek).
    pose proof (nth_error_Some_len _ _ _ Ev).
    pose proof (nth_error_Some_len _ _ _ Ec).
    replace (Z.to_nat (num p - 1)) with j by lia.
    repeat split; try lia; assumption.
  - intros [(H1 & Hk & Hv & Hc & Ek & Ev) Ht].
    exists (Z.to_nat (num p - 1)). split; [|split; [lia|assumption]].
    rewrite nth_error_map.
    destruct (nth_error cb (Z.to_nat (num p - 1))) as [c|] eqn:Ec;
      [|apply nth_error_None in Ec; unfold len in *; lia].
    assert (E : nth_error (scan_items kpoints vb cb) (Z.to_nat (num p - 1))
                = Some (loc p, (e p, c))) by (now apply nth_error_combine3).
    now rewrite E.
Qed.

Lemma cbm_points_In kpoints vb cb tol ckpts p :
  In p (cbm_points kpoints vb cb tol ckpts) <->
  on_path kpoints vb cb cb p /\
  is_edge_point ckpts tol (snd (band_extrema vb cb)) (num p) (e p) = true.
Proof.
  unfold cbm_points, on_path. rewrite edge_points_In. split.
  - intros [j (Hj & Hn & Ht)]. rewrite nth_error_map in Hj.
    destruct (nth_error (scan_items kpoints vb cb) j) as [[k [v c]]|] eqn:E;
      [|discriminate].
    cbn in Hj. inversion Hj; subst k c. apply nth_error_combine3 in E.
    destruct E as (Ek & Ev & Ec).
    pose proof (nth_error_Some_len _ _ _ Ek).
    pose proof (nth_error_Some_len _ _ _ Ev).
    pose proof (nth_error_Some_len _ _ _ Ec).
    replace (Z.to_nat (num p - 1)) with j by lia.
    repeat split; try lia; assumption.
  - intros [(H1 & Hk & Hv & Hc & Ek & Ec) Ht].
    exists (Z.to_nat (num p - 1)). split; [|split; [lia|assumption]].
    rewrite nth_error_map.
    destruct (nth_error vb (Z.to_nat (num p - 1))) as [v|] eqn:Ev;
      [|apply nth_error_None in Ev; unfold len in *; lia].
    assert (E : nth_error (scan_items kpoints vb cb) (Z.to_nat (num p - 1))
                = Some (loc p, (v, e p))) by (now apply nth_error_combine3).
    now rewrite E.
Qed.

(** The points of a report lie on the zipped path. *)
Lemma report_points_on_path kpoints vb cb n_vbm n_cbm tol vkpts ckpts rep :
  get_band_edges kpoints vb cb n_vbm n_cbm tol vkpts ckpts = Ok rep ->
  (forall p, In p (vbms rep) -> on_path kpoints vb cb vb p) /\
  (forall p, In p (cbms rep) -> on_path kpoints vb cb cb p).
Proof.
  intros Hg. destruct (get_band_edges_Ok _ _ _ _ _ _ _ _ _ Hg) as (EV & EC & _).
  rewrite EV, EC. split; intros p Hp.
  - now apply vbm_points_In in Hp.
  - now apply cbm_points_In in Hp.
Qed.

(** X6: whatever the floats, when [get_band_edges] returns, each valence
    point is a point of the zipped path (its index within the three
    sequences, its k-point and its [vb] energy), every forced index on
    the zipped path has its point, and a forced index off the path has
    none and raises nothing; the same for the conduction points. *)
Theorem X6_forced_indices :
  forall kpoints vb cb n_vbm n_cbm tol vkpts ckpts rep,
    get_band_edges kpoints vb cb n_vbm n_cbm tol vkpts ckpts = Ok rep ->
    (forall p, In p (vbms rep) -> on_path kpoints vb cb vb p) /\
    (forall p, In p (cbms rep) -> on_path kpoints vb cb cb p) /\
    (forall i, In i vkpts ->
       ((exists p, In p (vbms rep) /\ num p = i) <->
        (1 <= i)%Z /\ (i <= len kpoints)%Z /\ (i <= len vb)%Z /\ (i <= len cb)%Z)) /\
    (forall i, In i ckpts ->
       ((exists p, In p (cbms rep) /\ num p = i) <->
        (1 <= i)%Z /\ (i <= len kpoints)%Z /\ (i <= len vb)%Z /\ (i <= len cb)%Z)).
Proof.
  intros kpoints vb cb n_vbm n_cbm tol vkpts ckpts rep Hg.
  destruct (get_band_edges_Ok _ _ _ _ _ _ _ _ _ Hg) as (EV & EC & _).
  rewrite EV, EC. split; [|split; [|split]].
  - intros p Hp. now apply vbm_points_In in Hp.
  - intros p Hp. now apply cbm_points_In in Hp.
  - intros i Hi. split.
    + intros [p [Hp <-]]. apply vbm_points_In in Hp.
      destruct Hp as [(H1 & H2 & H3 & H4 & _) _]. auto.
    + intros (H1 & Hk & Hv & Hc).
      destruct (nth_error kpoints (Z.to_nat (i - 1))) as [k|] eqn:Ek;
        [|apply nth_error_None in Ek; unfold len in *; lia].
      destruct (nth_error vb (Z.to_nat (i - 1))) as [v|] eqn:Ev;
        [|apply nth_error_None in Ev; unfold len in *; lia].
      exists (mk_edge i k v). split; [|reflexivity].
      apply vbm_points_In. unfold on_path, is_edge_point. cbn [num loc e].
      split; [auto 10|].
      apply orb_true_iff. left. now apply contains_In.
  - intros i Hi. split.
    + intros [p [Hp <-]]. apply cbm_points_In in Hp.
      destruct Hp as [(H1 & H2 & H3 & H4 & _) _]. auto.
    + intros (H1 & Hk & Hv & Hc).
      destruct (nth_error kpoints (Z.to_nat (i - 1))) as [k|] eqn:Ek;
        [|apply nth_error_None in Ek; unfold len in *; lia].
      destruct (nth_error cb (Z.to_nat (i - 1))) as [c|] eqn:Ec;
        [|apply nth_error_None in Ec; unfold len in *; lia].
      exists (mk_edge i k c). split; [|reflexivity].
      apply cbm_points_In. unfold on_path, is_edge_point. cbn [num loc e].
      split; [auto 10|].
      apply orb_true_iff. left. now apply contains_In.
Qed.

Lemma X6_forced_indices_witness :
  (forall p, In p (vbms first_found_report) ->
             on_path path3 (map Fin vb3) (map Fin cb3) (map Fin vb3) p) /\
  (forall p, In p (cbms first_found_report) ->
             on_path path3 (map Fin vb3) (map Fin cb3) (map Fin cb3) p) /\
  (forall i, In i [1%Z] ->
     ((exists p, In p (vbms first_found_report) /\ num p = i) <->
      (1 <= i)%Z /\ (i <= len path3)%Z /\ (i <= len (map Fin vb3))%Z /\
      (i <= len (map Fin cb3))%Z)) /\
  (forall i, In i [] ->
     ((exists p, In p (cbms first_found_report) /\ num p = i) <->
      (1 <= i)%Z /\ (i <= len path3)%Z /\ (i <= len (map Fin vb3))%Z /\
      (i <= len (map Fin cb3))%Z)).
Proof.
  apply (X6_forced_indices path3 (map Fin vb3) (map Fin cb3) nominal0 nominal0
           (Fin (1 / 10000)) [1%Z] [] first_found_report).
  exact band_edges_first_found.
Defined.

(** Nothing is within a tolerance that is not positive. *)
Lemma nonpositive_never_within tol x :
  nonpositive tol -> (fabs x <? tol)%float = false.
Proof.
  intros [-> | [-> | [t [-> Ht]]]].
  - now destruct (fabs x).
  - now destruct (fabs x).
  - destruct x as [| | |r]; try reflexivity. cbn [fabs].
    apply fltb_Fin_false. pose proof (Rabs_pos r). lra.
Qed.

Lemma edge_points_unforced tol target pts : forall k_num,
  nonpositive tol -> edge_points [] tol target k_num pts = [].
Proof.
  induction pts as [|[k en] pts IH]; intros k_num Ht; [reflexivity|].
  cbn [edge_points]. unfold is_edge_point. cbn [contains existsb orb].
  rewrite nonpositive_never_within by assumption. cbn [app]. now apply IH.
Qed.

(** X7: with a tolerance that is not positive (zero, negative, -inf or
    NaN) and no forced index for one of the bands, no point of that band
    passes the test, not even the extremum, and [get_band_edges] fails
    with [IndexError] on every input. *)
Theorem X7_nonpositive_tolerance_raises :
  forall kpoints vb cb n_vbm n_cbm tol vkpts ckpts,
    nonpositive tol -> vkpts = [] \/ ckpts = [] ->
    get_band_edges kpoints vb cb n_vbm n_cbm tol vkpts ckpts = Raise IndexError.
Proof.
  intros kpoints vb cb n_vbm n_cbm tol vkpts ckpts Ht H.
  apply get_band_edges_no_points. destruct H as [-> | ->]; [left|right].
  - unfold vbm_points. now apply edge_points_unforced.
  - unfold cbm_points. now apply edge_points_unforced.
Qed.

Lemma X7_nonpositive_tolerance_raises_witness :
  get_band_edges path3 (map Fin vb3) (map Fin cb3) nominal0 nominal0 (Fin 0) [] []
  = Raise IndexError.
Proof.
  apply X7_nonpositive_tolerance_raises.
  - right. right. exists 0%R. split; [reflexivity|lra].
  - now left.
Defined.

(** ** The direct gap and its points *)

Lemma cluster_step_inv tolr seen c q :
  (0 < tolr)%R -> finite_gap q -> Forall finite_gap seen ->
  cluster_inv tolr seen c ->
  cluster_inv tolr (seen ++ [q]) (cluster_step (Fin tolr) c q).
Proof.
  intros Htol Hq Hseen [[-> ->] | [p [ps (-> & Hm & Hs)]]].
  - right. exists q, []. unfold cluster_step. cbn [fst cluster_seed].
    rewrite (finite_gap_Fin q Hq), seed_above_finite.
    rewrite <- (finite_gap_Fin q Hq). split; [reflexivity|]. split.
    + constructor; [|constructor]. split; [now left|].
      replace (gap_of q - gap_of q)%R with 0%R by lra. now rewrite Rabs_R0.
    + intros q' [<- | []]. lra.
  - assert (Hp : finite_gap p).
    { rewrite Forall_forall in Hseen. apply Hseen.
      now destruct (Forall_inv Hm). }
    right. unfold cluster_step. cbn [fst snd].
    rewrite (finite_gap_Fin p Hp), (finite_gap_Fin q Hq), fsub_Fin.
    destruct (Fin (gap_of p - gap_of q) >? Fin tolr)%float eqn:G.
    + apply fgtb_Fin in G. exists q, []. rewrite <- (finite_gap_Fin q Hq).
      split; [reflexivity|]. split.
      * constructor; [|constructor]. split; [apply in_or_app; right; now left|].
        replace (gap_of q - gap_of q)%R with 0%R by lra. now rewrite Rabs_R0.
      * intros q' Hq'. apply in_app_or in Hq'. destruct Hq' as [Hq' | [<- | []]].
        -- specialize (Hs q' Hq'). lra.
        -- lra.
    + apply fgtb_Fin_false in G. rewrite <- (finite_gap_Fin p Hp).
      assert (Hs' : forall q', In q' (seen ++ [q]) ->
                               (gap_of p - gap_of q' <= tolr)%R).
      { intros q' Hq'. apply in_app_or in Hq'.
        destruct Hq' as [Hq' | [<- | []]]; [now apply Hs | exact G]. }
      assert (Hm' : Forall (fun q' => In q' (seen ++ [q]) /\
                              (Rabs (gap_of p - gap_of q') < tolr)%R) (p :: ps)).
      { eapply Forall_impl; [|exact Hm]. intros q' [Hi Hr].
        split; [apply in_or_app; now left | exact Hr]. }
      destruct (fabs (Fin (gap_of p - gap_of q)) <? Fin tolr)%float eqn:W.
      * apply fltb_Fin in W. exists p, (ps ++ [q]).
        split; [reflexivity|]. split; [|exact Hs'].
        change (p :: ps ++ [q]) with ((p :: ps) ++ [q]).
        apply Forall_app. split; [exact Hm'|].
        constructor; [|constructor]. split; [apply in_or_app; right; now left|].
        exact W.
      * exists p, ps. auto.
Qed.

Lemma cluster_fold_inv tolr pts : forall seen c,
  (0 < tolr)%R -> Forall finite_gap pts -> Forall finite_gap seen ->
  cluster_inv tolr seen c ->
  cluster_inv tolr (seen ++ pts) (fold_left (cluster_step (Fin tolr)) pts c).
Proof.
  induction pts as [|q pts IH]; intros seen c Htol Hp Hs Hc.
  - now rewrite app_nil_r.
  - cbn [fold_left]. replace (seen ++ q :: pts) with ((seen ++ [q]) ++ pts)
      by (now rewrite <- app_assoc).
    apply IH; [assumption | now apply Forall_inv_tail in Hp | |].
    + apply Forall_app. split; [assumption|].
      constructor; [now apply Forall_inv in Hp | constructor].
    + apply cluster_step_inv; try assumption. now apply Forall_inv in Hp.
Qed.

(** The k-indices of a cluster ascend. *)
Lemma sorted_snoc l x :
  StronglySorted Z.lt l -> Forall (fun y => (y < x)%Z) l ->
  StronglySorted Z.lt (l ++ [x]).
Proof.
  induction l as [|a l IH]; intros Hs Hf; cbn [app].
  - constructor; constructor.
  - apply StronglySorted_inv in Hs. destruct Hs as [Hs Ha].
    constructor; [apply IH; [assumption | now apply Forall_inv_tail in Hf]|].
    apply Forall_app. split; [assumption|].
    constructor; [now apply Forall_inv in Hf | constructor].
Qed.

Lemma cluster_fold_sorted tol items : forall k_num c,
  StronglySorted Z.lt (map num (snd c)) ->
  Forall (fun y => (y < k_num)%Z) (map num (snd c)) ->
  StronglySorted Z.lt
    (map num (snd (fold_left (cluster_step tol) (gap_points k_num items) c))).
Proof.
  induction items as [|[k [v cc]] items IH]; intros k_num c Hs Hb;
    [exact Hs|].
  cbn [gap_points fold_left]. apply IH.
  - unfold cluster_step. cbn [e].
    destruct (fst c - (cc - v) >? tol)%float; [repeat constructor|].
    destruct (fabs (fst c - (cc - v)) <? tol)%float; [|assumption].
    cbn [snd]. rewrite map_app. cbn [map num]. now apply sorted_snoc.
  - unfold cluster_step. cbn [e].
    destruct (fst c - (cc - v) >? tol)%float;
      [cbn; constructor; [lia|constructor]|].
    destruct (fabs (fst c - (cc - v)) <? tol)%float; cbn [snd].
    + rewrite map_app. apply Forall_app. split.
      * eapply Forall_impl; [|exact Hb]. cbn. intros; lia.
      * cbn. constructor; [lia|constructor].
    + eapply Forall_impl; [|exact Hb]. cbn. intros; lia.
Qed.

Lemma real_gaps_of_points kpoints : forall vbr cbr k_num,
  length kpoints = length vbr -> length vbr = length cbr ->
  map gap_of (gap_points k_num (scan_items kpoints (map Fin vbr) (map Fin cbr)))
  = real_gaps vbr cbr.
Proof.
  unfold scan_items, real_gaps.
  induction kpoints as [|k kpoints IH]; intros [|v vbr] [|c cbr] k_num Hk Hv;
    try discriminate; [reflexivity|].
  cbn [map combine gap_points fst snd]. f_equal.
  apply IH; [now inversion Hk | now inversion Hv].
Qed.

Section DirectGap.
Variables (kpoints : list vec3) (vbr cbr : list R) (tolr : R).
Variables (n_vbm n_cbm : nominal) (forced_vbm forced_cbm : list Z).
Hypothesis Hk : length kpoints = length vbr.
Hypothesis Hvc : length vbr = length cbr.
Hypothesis Hne : vbr <> [].
Hypothesis Htol : (0 < tolr)%R.

Let vb := map Fin vbr.
Let cb := map Fin cbr.
Let pts := gap_points 1 (scan_items kpoints vb cb).

(** The cluster at the end of the scan of a well-formed path *)
Lemma direct_gap_points_inv :
  exists p ps,
    direct_gap_points kpoints vb cb (Fin tolr) = (e p, p :: ps) /\
    In (gap_of p) (real_gaps vbr cbr) /\
    (forall g, In g (real_gaps vbr cbr) -> (gap_of p - g <= tolr)%R) /\
    Forall (fun q => In q pts /\ (Rabs (gap_of p - gap_of q) < tolr)%R) (p :: ps) /\
    StronglySorted Z.lt (map num (p :: ps)).
Proof.
  assert (Hfin : Forall finite_gap pts) by apply gap_points_finite.
  assert (Hg : map gap_of pts = real_gaps vbr cbr)
    by (now apply real_gaps_of_points).
  pose proof (cluster_fold_inv tolr pts [] cluster_seed Htol Hfin
                (Forall_nil _) (or_introl (conj eq_refl eq_refl))) as Hinv.
  cbn [app] in Hinv.
  pose proof (cluster_fold_sorted (Fin tolr) (scan_items kpoints vb cb) 1
                cluster_seed (SSorted_nil _) (Forall_nil _)) as Hsort.
  fold pts in Hsort.
  destruct Hinv as [[En _] | [p [ps (Ec & Hm & Hs)]]].
  - exfalso. apply gap_points_nil in En. unfold scan_items, vb, cb in En.
    destruct kpoints, vbr, cbr; try discriminate; congruence.
  - exists p, ps. unfold direct_gap_points, direct_gap_cluster. fold pts.
    rewrite Ec in Hsort. cbn [snd] in Hsort.
    split; [exact Ec|]. split; [|split; [|split; [exact Hm | exact Hsort]]].
    + rewrite <- Hg. apply in_map. now destruct (Forall_inv Hm).
    + intros g Hin. rewrite <- Hg in Hin. apply in_map_iff in Hin.
      destruct Hin as [q [<- Hq]]. now apply Hs.
Qed.

End DirectGap.

(** The report of a well-formed path of real energies, with its points
    characterised *)
Lemma band_edges_report_reals kpoints vbr cbr n_vbm n_cbm tolr forced_vbm forced_cbm :
  length kpoints = length vbr -> length vbr = length cbr ->
  vbr <> [] -> (0 < tolr)%R ->
  exists rep v0 c0,
    get_band_edges kpoints (map Fin vbr) (map Fin cbr) n_vbm n_cbm
      (Fin tolr) forced_vbm forced_cbm = Ok rep /\
    (forall p, In p (vbms rep) ->
               edge_point_of kpoints vbr forced_vbm tolr (MaxRlist vbr) p) /\
    (forall p, In p (cbms rep) ->
               edge_point_of kpoints cbr forced_cbm tolr (MinRlist cbr) p) /\
    hd_error (vbms rep) = Some v0 /\
    hd_error (cbms rep) = Some c0 /\
    bg_indirect rep = (e c0 - e v0)%float /\
    direct_gap rep
      = fst (direct_gap_points kpoints (map Fin vbr) (map Fin cbr) (Fin tolr)).
Proof.
  intros Hk Hvc Hne Htol.
  destruct (get_band_edges_reals kpoints vbr cbr tolr n_vbm n_cbm
              forced_vbm forced_cbm Hk Hvc Hne Htol)
    as [rep [v0 [c0 (Eg & EV & EC & Hv0 & Hc0 & Ei & Ed & _)]]].
  rewrite vbm_points_reals in EV by assumption.
  rewrite cbm_points_reals in EC by assumption.
  exists rep, v0, c0. rewrite EV, EC. repeat split; try assumption.
  - intros p Hp. now apply edge_points_reals.
  - intros p Hp. now apply edge_points_reals.
  - now rewrite <- EV.
  - now rewrite <- EC.
Qed.

(** X8: on a well-formed path of real energies with a positive tolerance
    the direct gap reported is the gap of one of the k-points, and no
    gap of the path is more than [tol] below it: it lies between the
    minimum direct gap and that minimum plus [tol]. *)
Theorem X8_direct_gap_near_minimum :
  forall kpoints vbr cbr n_vbm n_cbm tolr forced_vbm forced_cbm,
    length kpoints = length vbr -> length vbr = length cbr ->
    vbr <> [] -> (0 < tolr)%R ->
    exists rep g,
      get_band_edges kpoints (map Fin vbr) (map Fin cbr) n_vbm n_cbm
        (Fin tolr) forced_vbm forced_cbm = Ok rep /\
      direct_gap rep = Fin g /\
      In g (real_gaps vbr cbr) /\
      (forall g', In g' (real_gaps vbr cbr) -> (g - g' <= tolr)%R) /\
      (MinRlist (real_gaps vbr cbr) <= g <= MinRlist (real_gaps vbr cbr) + tolr)%R.
Proof.
  intros kpoints vbr cbr n_vbm n_cbm tolr forced_vbm forced_cbm Hk Hvc Hne Htol.
  destruct (get_band_edges_reals kpoints vbr cbr tolr n_vbm n_cbm
              forced_vbm forced_cbm Hk Hvc Hne Htol)
    as [rep [v0 [c0 (Eg & _ & _ & _ & _ & _ & Ed & _)]]].
  destruct (direct_gap_points_inv kpoints vbr cbr tolr Hk Hvc Hne Htol)
    as [p [ps (Ec & Hin & Hle & Hm & _)]].
  exists rep, (gap_of p). split; [exact Eg|].
  assert (Hp : finite_gap p).
  { destruct (Forall_inv Hm) as [Hp _].
    pose proof (gap_points_finite kpoints vbr cbr 1) as Hf.
    rewrite Forall_forall in Hf. now apply Hf. }
  split; [rewrite Ed, Ec; now apply finite_gap_Fin|].
  split; [exact Hin|]. split; [exact Hle|]. split.
  - now apply MinRlist_P1.
  - assert (Hgn : real_gaps vbr cbr <> []) by (intros E; rewrite E in Hin; destruct Hin).
    specialize (Hle _ (MinRlist_In _ Hgn)). lra.
Qed.

Lemma X8_direct_gap_near_minimum_witness :
  exists rep g,
    get_band_edges path3 (map Fin vb3) (map Fin cb3) nominal0 nominal0
      (Fin (1 / 10000)) [] [] = Ok rep /\
    direct_gap rep = Fin g /\
    In g (real_gaps vb3 cb3) /\
    (forall g', In g' (real_gaps vb3 cb3) -> (g - g' <= 1 / 10000)%R) /\
    (MinRlist (real_gaps vb3 cb3) <= g
     <= MinRlist (real_gaps vb3 cb3) + 1 / 10000)%R.
Proof.
  apply (X8_direct_gap_near_minimum path3 vb3 cb3 nominal0 nominal0
           (1 / 10000) [] []).
  - reflexivity.
  - reflexivity.
  - discriminate.
  - lra.
Defined.

(** X9: on a well-formed path of real energies with a positive tolerance
    every entry of the direct-gap list is a point of the path (no seed
    is left), its gap is within [tol] of the direct gap reported, and the
    entries are in strictly ascending k-index order. *)
Theorem X9_direct_gap_points_within_tolerance :
  forall kpoints vbr cbr n_vbm n_cbm tolr forced_vbm forced_cbm,
    length kpoints = length vbr -> length vbr = length cbr ->
    vbr <> [] -> (0 < tolr)%R ->
    exists rep g ps,
      get_band_edges kpoints (map Fin vbr) (map Fin cbr) n_vbm n_cbm
        (Fin tolr) forced_vbm forced_cbm = Ok rep /\
      direct_gap rep = Fin g /\
      bg_direct rep = map Point ps /\
      ps <> [] /\
      StronglySorted Z.lt (map num ps) /\
      forall p, In p ps ->
        In p (gap_points 1 (scan_items kpoints (map Fin vbr) (map Fin cbr))) /\
        e p = Fin (gap_of p) /\
        (Rabs (g - gap_of p) < tolr)%R.
Proof.
  intros kpoints vbr cbr n_vbm n_cbm tolr forced_vbm forced_cbm Hk Hvc Hne Htol.
  destruct (get_band_edges_reals kpoints vbr cbr tolr n_vbm n_cbm
              forced_vbm forced_cbm Hk Hvc Hne Htol)
    as [rep [v0 [c0 (Eg & _ & _ & _ & _ & _ & Ed & Eb)]]].
  destruct (direct_gap_points_inv kpoints vbr cbr tolr Hk Hvc Hne Htol)
    as [p [ps (Ec & _ & _ & Hm & Hs)]].
  pose proof (gap_points_finite kpoints vbr cbr 1) as Hf.
  rewrite Forall_forall in Hf, Hm.
  assert (Hp : finite_gap p) by (apply Hf, Hm; now left).
  exists rep, (gap_of p), (p :: ps). rewrite Ed, Eb, Ec. cbn [fst snd].
  split; [exact Eg|]. split; [now apply finite_gap_Fin|].
  split; [reflexivity|]. split; [discriminate|]. split; [exact Hs|].
  intros q Hq. destruct (Hm q Hq) as [Hin Hr].
  split; [exact Hin|]. split; [apply finite_gap_Fin; now apply Hf | exact Hr].
Qed.

Lemma X9_direct_gap_points_within_tolerance_witness :
  exists rep g ps,
    get_band_edges path3 (map Fin vb3) (map Fin cb3) nominal0 nominal0
      (Fin (1 / 10000)) [] [] = Ok rep /\
    direct_gap rep = Fin g /\
    bg_direct rep = map Point ps /\
    ps <> [] /\
    StronglySorted Z.lt (map num ps) /\
    forall p, In p ps ->
      In p (gap_points 1 (scan_items path3 (map Fin vb3) (map Fin cb3))) /\
      e p = Fin (gap_of p) /\
      (Rabs (g - gap_of p) < 1 / 10000)%R.
Proof.
  apply (X9_direct_gap_points_within_tolerance path3 vb3 cb3 nominal0 nominal0
           (1 / 10000) [] []).
  - reflexivity.
  - reflexivity.
  - discriminate.
  - lra.
Defined.

Lemma hd_error_In {A} (l : list A) a : hd_error l = Some a -> In a l.
Proof. destruct l; cbn; [discriminate|]. intros H; inversion H. now left. Qed.

Lemma real_gaps_bound vbr cbr g :
  In g (real_gaps vbr cbr) -> (MinRlist cbr - MaxRlist vbr <= g)%R.
Proof.
  unfold real_gaps. intros H. apply in_map_iff in H.
  destruct H as [[v c] [<- Hin]]. cbn [fst snd].
  pose proof (MaxRlist_P1 vbr v (in_combine_l _ _ _ _ Hin)).
  pose proof (MinRlist_P1 cbr c (in_combine_r _ _ _ _ Hin)). lra.
Qed.

(** X10: on a well-formed path of real energies with a positive
    tolerance and no forced index, the indirect gap reported is within
    [2 tol] of [min(cb) - max(vb)], and [min(cb) - max(vb)] is at most
    the direct gap reported; so the indirect gap reported is below the
    direct gap plus [2 tol]. *)
Theorem X10_indirect_gap_near_extrema :
  forall kpoints vbr cbr n_vbm n_cbm tolr,
    length kpoints = length vbr -> length vbr = length cbr ->
    vbr <> [] -> (0 < tolr)%R ->
    exists rep b g,
      get_band_edges kpoints (map Fin vbr) (map Fin cbr) n_vbm n_cbm
        (Fin tolr) [] [] = Ok rep /\
      bg_indirect rep = Fin b /\ direct_gap rep = Fin g /\
      (Rabs (b - (MinRlist cbr - MaxRlist vbr)) < 2 * tolr)%R /\
      (MinRlist cbr - MaxRlist vbr <= g)%R /\
      (b < g + 2 * tolr)%R.
Proof.
  intros kpoints vbr cbr n_vbm n_cbm tolr Hk Hvc Hne Htol.
  destruct (band_edges_report_reals kpoints vbr cbr n_vbm n_cbm tolr [] [] Hk Hvc Hne Htol)
    as [rep [v0 [c0 (Eg & HV & HC & Hv0 & Hc0 & Ei & Ed)]]].
  destruct (direct_gap_points_inv kpoints vbr cbr tolr Hk Hvc Hne Htol)
    as [p [ps (Ec & Hin & _ & Hm & _)]].
  pose proof (gap_points_finite kpoints vbr cbr 1) as Hf.
  rewrite Forall_forall in Hf.
  assert (Hp : finite_gap p) by (apply Hf; now destruct (Forall_inv Hm)).
  apply hd_error_In, HV in Hv0. apply hd_error_In, HC in Hc0.
  destruct Hv0 as [v (_ & _ & _ & Ev & [[] | Hv])].
  destruct Hc0 as [c (_ & _ & _ & Ecc & [[] | Hc])].
  exists rep, (c - v)%R, (gap_of p).
  split; [exact Eg|]. split; [now rewrite Ei, Ecc, Ev|].
  split; [rewrite Ed, Ec; now apply finite_gap_Fin|].
  pose proof (real_gaps_bound vbr cbr _ Hin) as Hb.
  repeat split; [|exact Hb|]; revert Hv Hc; unfold Rabs;
    repeat destruct (Rcase_abs _); lra.
Qed.

Lemma X10_indirect_gap_near_extrema_witness :
  exists rep b g,
    get_band_edges path3 (map Fin vb3) (map Fin cb3) nominal0 nominal0
      (Fin (1 / 10000)) [] [] = Ok rep /\
    bg_indirect rep = Fin b /\ direct_gap rep = Fin g /\
    (Rabs (b - (MinRlist cb3 - MaxRlist vb3)) < 2 * (1 / 10000))%R /\
    (MinRlist cb3 - MaxRlist vb3 <= g)%R /\
    (b < g + 2 * (1 / 10000))%R.
Proof.
  apply (X10_indirect_gap_near_extrema path3 vb3 cb3 nominal0 nominal0 (1 / 10000)).
  - reflexivity.
  - reflexivity.
  - discriminate.
  - lra.
Defined.

Lemma fleb_Fin a b : (Fin a <=? Fin b)%float = true <-> (a <= b)%R.
Proof. cbn. destruct (Rle_dec a b); split; (easy || intros; lra). Qed.

(** X11: the nominal band edges of the PROCAR are advisory.  On a
    well-formed path of real energies the first flag is raised exactly
    when the nominal valence energy is at least [max(vb) + tol], the
    second exactly when the nominal conduction energy plus [tol] is at
    most [min(cb)]; and with any other nominal edges the points and the
    gaps reported are the same. *)
Theorem X11_nominal_edges_advisory :
  forall kpoints vbr cbr nv nc kv kc n_vbm' n_cbm' tolr forced_vbm forced_cbm,
    length kpoints = length vbr -> length vbr = length cbr ->
    vbr <> [] -> (0 < tolr)%R ->
    exists rep rep',
      get_band_edges kpoints (map Fin vbr) (map Fin cbr)
        (mk_nominal (Fin nv) kv) (mk_nominal (Fin nc) kc)
        (Fin tolr) forced_vbm forced_cbm = Ok rep /\
      (higher_vbm_outside rep = true <-> (MaxRlist vbr + tolr <= nv)%R) /\
      (lower_cbm_outside rep = true <-> (nc + tolr <= MinRlist cbr)%R) /\
      get_band_edges kpoints (map Fin vbr) (map Fin cbr) n_vbm' n_cbm'
        (Fin tolr) forced_vbm forced_cbm = Ok rep' /\
      vbms rep' = vbms rep /\ cbms rep' = cbms rep /\
      bg_indirect rep' = bg_indirect rep /\
      direct_gap rep' = direct_gap rep /\ bg_direct rep' = bg_direct rep.
Proof.
  intros kpoints vbr cbr nv nc kv kc n_vbm' n_cbm' tolr forced_vbm forced_cbm
         Hk Hvc Hne Htol.
  destruct (get_band_edges_reals kpoints vbr cbr tolr
              (mk_nominal (Fin nv) kv) (mk_nominal (Fin nc) kc)
              forced_vbm forced_cbm Hk Hvc Hne Htol)
    as [rep [v0 [c0 (Eg & EV & EC & Hv0 & Hc0 & Ei & Ed & Eb)]]].
  destruct (get_band_edges_reals kpoints vbr cbr tolr n_vbm' n_cbm'
              forced_vbm forced_cbm Hk Hvc Hne Htol)
    as [rep' [v0' [c0' (Eg' & EV' & EC' & Hv0' & Hc0' & Ei' & Ed' & Eb')]]].
  destruct (get_band_edges_Ok _ _ _ _ _ _ _ _ _ Eg) as (_ & _ & _ & _ & _ & Fh & Fl).
  rewrite band_extrema_reals in Fh, Fl by assumption.
  cbn [fst snd n_energy fadd] in Fh, Fl.
  exists rep, rep'. split; [exact Eg|].
  split; [rewrite Fh; unfold fgeb; apply fleb_Fin|].
  split; [rewrite Fl; apply fleb_Fin|].
  split; [exact Eg'|].
  rewrite EV', EC', Ed', Eb', EV, EC, Ed, Eb. repeat split.
  rewrite Ei, Ei'. rewrite EV in Hv0. rewrite EV' in Hv0'.
  rewrite EC in Hc0. rewrite EC' in Hc0'. congruence.
Qed.

Lemma X11_nominal_edges_advisory_witness :
  exists rep rep',
    get_band_edges path3 (map Fin vb3) (map Fin cb3)
      (mk_nominal (Fin 0) 1) (mk_nominal (Fin 0) 1)
      (Fin (1 / 10000)) [] [] = Ok rep /\
    (higher_vbm_outside rep = true <-> (MaxRlist vb3 + 1 / 10000 <= 0)%R) /\
    (lower_cbm_outside rep = true <-> (0 + 1 / 10000 <= MinRlist cb3)%R) /\
    get_band_edges path3 (map Fin vb3) (map Fin cb3) nominal0 nominal0
      (Fin (1 / 10000)) [] [] = Ok rep' /\
    vbms rep' = vbms rep /\ cbms rep' = cbms rep /\
    bg_indirect rep' = bg_indirect rep /\
    direct_gap rep' = direct_gap rep /\ bg_direct rep' = bg_direct rep.
Proof.
  apply (X11_nominal_edges_advisory path3 vb3 cb3 0 0 1 1 nominal0 nominal0
           (1 / 10000) [] []).
  - reflexivity.
  - reflexivity.
  - discriminate.
  - lra.
Defined.

(** ** [calc_em]: what the effective mass depends on *)

Lemma xmoment_quadratic A B C k xs :
  xmoment k xs (map (quadratic A B C) xs)
  = (A * moment (k + 2) xs + B * moment (k + 1) xs + C * moment k xs)%R.
Proof.
  unfold xmoment, moment, quadratic.
  induction xs as [|x xs IH]; cbn [map combine Rsum fold_right fst snd].
  - ring.
  - unfold Rsum in IH. rewrite IH.
    replace (k + 2)%nat with (S (S k)) by lia.
    replace (k + 1)%nat with (S k) by lia. cbn [pow]. ring.
Qed.

(** A full-rank fit of samples of a quadratic returns the quadratic. *)
Lemma lstsq2_quadratic A B C xs :
  fit_det xs <> 0%R ->
  lstsq2 xs (map (quadratic A B C) xs) = (A, B, C).
Proof.
  intros Hd. unfold lstsq2. rewrite !xmoment_quadratic. cbn [Nat.add].
  unfold fit_det, det3 in *.
  f_equal; [f_equal|]; field; exact Hd.
Qed.

Lemma xmoment_affine lam delta k xs : forall ys,
  length xs = length ys ->
  xmoment k xs (map (fun y => lam * y + delta)%R ys)
  = (lam * xmoment k xs ys + delta * moment k xs)%R.
Proof.
  unfold xmoment, moment.
  induction xs as [|x xs IH]; intros [|y ys] Hl; try discriminate;
    cbn [map combine Rsum fold_right fst snd].
  - ring.
  - specialize (IH ys (eq_add_S _ _ Hl)). unfold Rsum in IH. rewrite IH. ring.
Qed.

Lemma lstsq2_affine lam delta xs ys a b c :
  length xs = length ys -> fit_det xs <> 0%R ->
  lstsq2 xs ys = (a, b, c) ->
  lstsq2 xs (map (fun y => lam * y + delta)%R ys)
  = ((lam * a)%R, (lam * b)%R, (lam * c + delta)%R).
Proof.
  intros Hl Hd E. unfold lstsq2 in *. rewrite !xmoment_affine by assumption.
  inversion E as [[Ea Eb Ec]]. unfold fit_det, det3 in *.
  f_equal; [f_equal|]; field; exact Hd.
Qed.

Lemma moment_scale m k xs :
  moment k (map (Rmult m) xs) = (m ^ k * moment k xs)%R.
Proof.
  unfold moment. induction xs as [|x xs IH]; cbn [map Rsum fold_right].
  - ring.
  - unfold Rsum in IH. rewrite IH, Rpow_mult_distr. ring.
Qed.

Lemma xmoment_scale m k xs : forall ys,
  xmoment k (map (Rmult m) xs) ys = (m ^ k * xmoment k xs ys)%R.
Proof.
  unfold xmoment. induction xs as [|x xs IH]; intros [|y ys];
    cbn [map combine Rsum fold_right fst snd]; try ring.
  specialize (IH ys). unfold Rsum in IH. rewrite IH, Rpow_mult_distr. ring.
Qed.

Lemma fit_det_scale m xs :
  fit_det (map (Rmult m) xs) = (m ^ 6 * fit_det xs)%R.
Proof. unfold fit_det. rewrite !moment_scale. unfold det3. ring. Qed.

Lemma lstsq2_scale m xs ys a b c :
  m <> 0%R -> fit_det xs <> 0%R -> lstsq2 xs ys = (a, b, c) ->
  lstsq2 (map (Rmult m) xs) ys = ((a / m ^ 2)%R, (b / m)%R, c).
Proof.
  intros Hm Hd E. unfold lstsq2 in *. rewrite fit_det_scale.
  rewrite !moment_scale, !xmoment_scale.
  inversion E as [[Ea Eb Ec]]. unfold fit_det, det3 in *.
  f_equal; [f_equal|]; field; split; assumption.
Qed.

(** Translated abscissas *)
Lemma moment_shift_0 tau xs : moment 0 (map (Rplus tau) xs) = moment 0 xs.
Proof.
  unfold moment. induction xs as [|x xs IH]; cbn [map Rsum fold_right]; [ring|].
  unfold Rsum in IH. rewrite IH. ring.
Qed.

Lemma moment_shift_1 tau xs :
  moment 1 (map (Rplus tau) xs) = (moment 1 xs + tau * moment 0 xs)%R.
Proof.
  unfold moment. induction xs as [|x xs IH]; cbn [map Rsum fold_right]; [ring|].
  unfold Rsum in IH. rewrite IH. ring.
Qed.

Lemma moment_shift_2 tau xs :
  moment 2 (map (Rplus tau) xs)
  = (moment 2 xs + 2 * tau * moment 1 xs + tau ^ 2 * moment 0 xs)%R.
Proof.
  unfold moment. induction xs as [|x xs IH]; cbn [map Rsum fold_right]; [ring|].
  unfold Rsum in IH. rewrite IH. ring.
Qed.

Lemma moment_shift_3 tau xs :
  moment 3 (map (Rplus tau) xs)
  = (moment 3 xs + 3 * tau * moment 2 xs + 3 * tau ^ 2 * moment 1 xs
     + tau ^ 3 * moment 0 xs)%R.
Proof.
  unfold moment. induction xs as [|x xs IH]; cbn [map Rsum fold_right]; [ring|].
  unfold Rsum in IH. rewrite IH. ring.
Qed.

Lemma moment_shift_4 tau xs :
  moment 4 (map (Rplus tau) xs)
  = (moment 4 xs + 4 * tau * moment 3 xs + 6 * tau ^ 2 * moment 2 xs
     + 4 * tau ^ 3 * moment 1 xs + tau ^ 4 * moment 0 xs)%R.
Proof.
  unfold moment. induction xs as [|x xs IH]; cbn [map Rsum fold_right]; [ring|].
  unfold Rsum in IH. rewrite IH. ring.
Qed.

Lemma xmoment_shift_0 tau xs : forall ys,
  xmoment 0 (map (Rplus tau) xs) ys = xmoment 0 xs ys.
Proof.
  unfold xmoment. induction xs as [|x xs IH]; intros [|y ys];
    cbn [map combine Rsum fold_right fst snd]; try ring.
  specialize (IH ys). unfold Rsum in IH. rewrite IH. ring.
Qed.

Lemma xmoment_shift_1 tau xs : forall ys,
  xmoment 1 (map (Rplus tau) xs) ys = (xmoment 1 xs ys + tau * xmoment 0 xs ys)%R.
Proof.
  unfold xmoment. induction xs as [|x xs IH]; intros [|y ys];
    cbn [map combine Rsum fold_right fst snd]; try ring.
  specialize (IH ys). unfold Rsum in IH. rewrite IH. ring.
Qed.

Lemma xmoment_shift_2 tau xs : forall ys,
  xmoment 2 (map (Rplus tau) xs) ys
  = (xmoment 2 xs ys + 2 * tau * xmoment 1 xs ys + tau ^ 2 * xmoment 0 xs ys)%R.
Proof.
  unfold xmoment. induction xs as [|x xs IH]; intros [|y ys];
    cbn [map combine Rsum fold_right fst snd]; try ring.
  specialize (IH ys). unfold Rsum in IH. rewrite IH. ring.
Qed.

Lemma fit_det_shift tau xs : fit_det (map (Rplus tau) xs) = fit_det xs.
Proof.
  unfold fit_det.
  rewrite moment_shift_0, moment_shift_1, moment_shift_2, moment_shift_3,
    moment_shift_4.
  unfold det3. ring.
Qed.

(** The fit of translated abscissas is the translated polynomial:
    [a (x - tau)^2 + b (x - tau) + c]. *)
Lemma lstsq2_shift tau xs ys a b c :
  fit_det xs <> 0%R -> lstsq2 xs ys = (a, b, c) ->
  lstsq2 (map (Rplus tau) xs) ys
  = (a, (b - 2 * a * tau)%R, (c - b * tau + a * tau ^ 2)%R).
Proof.
  intros Hd E. unfold lstsq2 in *. rewrite fit_det_shift.
  rewrite moment_shift_0, moment_shift_1, moment_shift_2, moment_shift_3,
    moment_shift_4, xmoment_shift_0, xmoment_shift_1, xmoment_shift_2.
  inversion E as [[Ea Eb Ec]]. unfold fit_det, det3 in *.
  f_equal; [f_equal|]; field; exact Hd.
Qed.

Section FitInvariance.
Variables (b0 b1 b2 d : R * R * R) (ks : list (R * R * R)).
Variables (s en : Z) (lab : string).

Let lengths := (axis_length b0, axis_length b1, axis_length b2).
Let xs := map (x_coord lengths d) ks.
Let recip := real_basis b0 b1 b2.

Hypothesis Hne : ks <> [].
Hypothesis Hd : fit_det xs <> 0%R.

Lemma xs_nonempty : xs <> [].
Proof. unfold xs. destruct ks; [congruence|discriminate]. Qed.

Lemma fit_of_real_window ys a b c :
  length ks = length ys -> lstsq2 xs ys = (a, b, c) ->
  polyfit2 (x_coords (real_window s en lab d ks ys) recip)
           (w_vals (real_window s en lab d ks ys))
    = Ok [Fin a; Fin b; Fin c] /\
  calc_em (real_window s en lab d ks ys) recip
    = Ok (Fin hbar2 / Fin (2 * a))%float.
Proof.
  intros Hl E. split.
  - unfold recip. rewrite x_coords_real_window. fold lengths xs.
    apply polyfit2_reals; [apply xs_nonempty | | exact Hd | exact E].
    unfold xs. now rewrite length_map.
  - now apply (calc_em_reals b0 b1 b2 d ks ys s en lab a b c).
Qed.

End FitInvariance.

(** X12: when the energies of a window are the values of a quadratic
    [A x^2 + B x + C] at its abscissas and the fit has full rank, the
    fit returns [A], [B] and [C], and [calc_em] returns
    [7.61996348863 / (2 A)]. *)
Theorem X12_calc_em_recovers_quadratic :
  forall (b0 b1 b2 d : R * R * R) (ks : list (R * R * R)) (A B C : R)
         (s en : Z) (lab : string),
    let lengths := (axis_length b0, axis_length b1, axis_length b2) in
    let xs := map (x_coord lengths d) ks in
    let data := real_window s en lab d ks (map (quadratic A B C) xs) in
    let recip := real_basis b0 b1 b2 in
    ks <> [] -> fit_det xs <> 0%R ->
    polyfit2 (x_coords data recip) (w_vals data) = Ok [Fin A; Fin B; Fin C] /\
    calc_em data recip = Ok (Fin hbar2 / Fin (2 * A))%float.
Proof.
  intros b0 b1 b2 d ks A B C s en lab lengths xs data recip Hne Hd.
  apply fit_of_real_window; try assumption.
  - unfold xs. now rewrite !length_map.
  - now apply lstsq2_quadratic.
Qed.

Lemma X12_calc_em_recovers_quadratic_witness :
  let lengths := (axis_length (1, 0, 0)%R, axis_length (0, 1, 0)%R,
                  axis_length (0, 0, 1)%R) in
  let xs := map (x_coord lengths (1, 0, 0)%R) kline3 in
  let data := real_window 1 2 "" (1, 0, 0)%R kline3 (map (quadratic 1 0 0) xs) in
  let recip := real_basis (1, 0, 0)%R (0, 1, 0)%R (0, 0, 1)%R in
  polyfit2 (x_coords data recip) (w_vals data) = Ok [Fin 1; Fin 0; Fin 0] /\
  calc_em data recip = Ok (Fin hbar2 / Fin (2 * 1))%float.
Proof.
  apply (X12_calc_em_recovers_quadratic (1, 0, 0)%R (0, 1, 0)%R (0, 0, 1)%R
           (1, 0, 0)%R kline3 1 0 0 1 2 "").
  - discriminate.
  - exact kline3_full_rank.
Defined.

(** X13: replacing every energy [y] of a window by [lam * y + delta]
    multiplies the quadratic coefficient of a full-rank fit by [lam]:
    the effective mass does not depend on the zero of the energy scale
    ([lam = 1] gives the same value), and is divided by [lam] when the
    energies are scaled. *)
Theorem X13_energy_shift_and_scale :
  forall (b0 b1 b2 d : R * R * R) (ks : list (R * R * R)) (ys : list R)
         (lam delta : R) (s en : Z) (lab : string),
    let lengths := (axis_length b0, axis_length b1, axis_length b2) in
    let xs := map (x_coord lengths d) ks in
    let data := real_window s en lab d ks ys in
    let moved := real_window s en lab d ks
                   (map (fun y => lam * y + delta)%R ys) in
    let recip := real_basis b0 b1 b2 in
    ks <> [] -> length ks = length ys -> fit_det xs <> 0%R ->
    exists a,
      calc_em data recip = Ok (Fin hbar2 / Fin (2 * a))%float /\
      calc_em moved recip = Ok (Fin hbar2 / Fin (2 * (lam * a)))%float /\
      (lam = 1%R -> calc_em moved recip = calc_em data recip).
Proof.
  intros b0 b1 b2 d ks ys lam delta s en lab lengths xs data moved recip
         Hne Hl Hd.
  destruct (lstsq2 xs ys) as [[a b] c] eqn:E. exists a.
  assert (Hxl : length xs = length ys) by (unfold xs; now rewrite length_map).
  pose proof (lstsq2_affine lam delta xs ys a b c Hxl Hd E) as E'.
  destruct (fit_of_real_window b0 b1 b2 d ks s en lab Hne Hd ys a b c Hl E)
    as [_ E1].
  destruct (fit_of_real_window b0 b1 b2 d ks s en lab Hne Hd _ _ _ _
              (eq_trans Hl (eq_sym (length_map _ ys))) E') as [_ E2].
  split; [exact E1|]. split; [exact E2|].
  intros ->. unfold moved, data, recip. rewrite E1, E2.
  now replace (1 * a)%R with a by ring.
Qed.

Lemma X13_energy_shift_and_scale_witness :
  let data := real_window 1 2 "" (1, 0, 0)%R kline3 parabola3 in
  let moved := real_window 1 2 "" (1, 0, 0)%R kline3
                 (map (fun y => 1 * y + 5)%R parabola3) in
  let recip := real_basis (1, 0, 0)%R (0, 1, 0)%R (0, 0, 1)%R in
  exists a,
    calc_em data recip = Ok (Fin hbar2 / Fin (2 * a))%float /\
    calc_em moved recip = Ok (Fin hbar2 / Fin (2 * (1 * a)))%float /\
    (1%R = 1%R -> calc_em moved recip = calc_em data recip).
Proof.
  apply (X13_energy_shift_and_scale (1, 0, 0)%R (0, 1, 0)%R (0, 0, 1)%R
           (1, 0, 0)%R kline3 parabola3 1 5 1 2 "").
  - discriminate.
  - reflexivity.
  - exact kline3_full_rank.
Defined.

Lemma axis_length_scale m row :
  axis_length (tscale m row) = (Rabs m * axis_length row)%R.
Proof.
  destruct row as [[x y] z]. unfold axis_length, tscale.
  replace (m * x * (m * x) + m * y * (m * y) + m * z * (m * z))%R
    with (Rsqr m * (x * x + y * y + z * z))%R by (unfold Rsqr; ring).
  rewrite sqrt_mult by (try apply Rle_0_sqr; nra).
  now rewrite sqrt_Rsqr_abs.
Qed.

Lemma x_coord_scale m l0 l1 l2 dir k :
  x_coord ((m * l0)%R, (m * l1)%R, (m * l2)%R) dir k
  = (m * x_coord (l0, l1, l2) dir k)%R.
Proof.
  destruct dir as [[dx dy] dz], k as [[kx ky] kz]. unfold x_coord. ring.
Qed.

(** X14: scaling the three rows of the reciprocal basis by [mu <> 0]
    scales every abscissa by [|mu|] and divides the quadratic
    coefficient of a full-rank fit by [mu^2]: the effective mass is
    multiplied by [mu^2]. *)
Theorem X14_basis_scale :
  forall (b0 b1 b2 d : R * R * R) (ks : list (R * R * R)) (ys : list R)
         (mu : R) (s en : Z) (lab : string),
    let lengths := (axis_length b0, axis_length b1, axis_length b2) in
    let xs := map (x_coord lengths d) ks in
    let data := real_window s en lab d ks ys in
    ks <> [] -> length ks = length ys -> fit_det xs <> 0%R -> mu <> 0%R ->
    exists a,
      calc_em data (real_basis b0 b1 b2)
        = Ok (Fin hbar2 / Fin (2 * a))%float /\
      calc_em data (real_basis (tscale mu b0) (tscale mu b1) (tscale mu b2))
        = Ok (Fin hbar2 / Fin (2 * (a / mu ^ 2)))%float.
Proof.
  intros b0 b1 b2 d ks ys mu s en lab lengths xs data Hne Hl Hd Hmu.
  destruct (lstsq2 xs ys) as [[a b] c] eqn:E. exists a.
  destruct (fit_of_real_window b0 b1 b2 d ks s en lab Hne Hd ys a b c Hl E)
    as [_ E1].
  split; [exact E1|].
  assert (Hm : Rabs mu <> 0%R) by (now apply Rabs_no_R0).
  pose proof (lstsq2_scale (Rabs mu) xs ys a b c Hm Hd E) as E'.
  assert (Exs : map (x_coord (axis_length (tscale mu b0),
                              axis_length (tscale mu b1),
                              axis_length (tscale mu b2)) d) ks
                = map (Rmult (Rabs mu)) xs).
  { unfold xs, lengths. rewrite map_map, !axis_length_scale.
    apply map_ext. intros k. apply x_coord_scale. }
  replace (a / mu ^ 2)%R with (a / Rabs mu ^ 2)%R
    by (now rewrite pow2_abs).
  apply (calc_em_reals (tscale mu b0) (tscale mu b1) (tscale mu b2) d ks ys
           s en lab (a / Rabs mu ^ 2)%R (b / Rabs mu)%R c); try assumption.
  - rewrite Exs, fit_det_scale. apply Rmult_integral_contrapositive_currified;
      [now apply pow_nonzero | exact Hd].
  - now rewrite Exs.
Qed.

Lemma X14_basis_scale_witness :
  let data := real_window 1 2 "" (1, 0, 0)%R kline3 parabola3 in
  exists a,
    calc_em data (real_basis (1, 0, 0)%R (0, 1, 0)%R (0, 0, 1)%R)
      = Ok (Fin hbar2 / Fin (2 * a))%float /\
    calc_em data (real_basis (tscale 2 (1, 0, 0)%R) (tscale 2 (0, 1, 0)%R)
                             (tscale 2 (0, 0, 1)%R))
      = Ok (Fin hbar2 / Fin (2 * (a / 2 ^ 2)))%float.
Proof.
  apply (X14_basis_scale (1, 0, 0)%R (0, 1, 0)%R (0, 0, 1)%R (1, 0, 0)%R
           kline3 parabola3 2 1 2 "").
  - discriminate.
  - reflexivity.
  - exact kline3_full_rank.
  - lra.
Defined.

Lemma x_coord_tadd lengths dir t k :
  x_coord lengths dir (tadd t k)
  = (x_coord lengths dir t + x_coord lengths dir k)%R.
Proof.
  destruct lengths as [[l0 l1] l2], dir as [[dx dy] dz], t as [[tx ty] tz],
    k as [[kx ky] kz].
  unfold x_coord, tadd. ring.
Qed.

(** X15: translating every k-point of a window by the same vector
    translates every abscissa by the same amount and leaves the
    quadratic coefficient of a full-rank fit, and so the effective mass,
    unchanged. *)
Theorem X15_kpoint_translation :
  forall (b0 b1 b2 d t : R * R * R) (ks : list (R * R * R)) (ys : list R)
         (s en : Z) (lab : string),
    let lengths := (axis_length b0, axis_length b1, axis_length b2) in
    let xs := map (x_coord lengths d) ks in
    let recip := real_basis b0 b1 b2 in
    ks <> [] -> length ks = length ys -> fit_det xs <> 0%R ->
    map (x_coord lengths d) (map (tadd t) ks)
      = map (Rplus (x_coord lengths d t)) xs /\
    calc_em (real_window s en lab d (map (tadd t) ks) ys) recip
      = calc_em (real_window s en lab d ks ys) recip.
Proof.
  intros b0 b1 b2 d t ks ys s en lab lengths xs recip Hne Hl Hd.
  assert (Exs : map (x_coord lengths d) (map (tadd t) ks)
                = map (Rplus (x_coord lengths d t)) xs).
  { unfold xs. rewrite !map_map. apply map_ext. intros k. apply x_coord_tadd. }
  split; [exact Exs|].
  destruct (lstsq2 xs ys) as [[a b] c] eqn:E.
  pose proof (lstsq2_shift (x_coord lengths d t) xs ys a b c Hd E) as E'.
  destruct (fit_of_real_window b0 b1 b2 d ks s en lab Hne Hd ys a b c Hl E)
    as [_ E1].
  unfold recip. rewrite E1.
  apply (calc_em_reals b0 b1 b2 d (map (tadd t) ks) ys s en lab a
           (b - 2 * a * x_coord lengths d t)%R
           (c - b * x_coord lengths d t + a * x_coord lengths d t ^ 2)%R).
  - destruct ks; [congruence|discriminate].
  - now rewrite length_map.
  - fold lengths. now rewrite Exs, fit_det_shift.
  - fold lengths. rewrite Exs. exact E'.
Qed.

Lemma X15_kpoint_translation_witness :
  let lengths := (axis_length (1, 0, 0)%R, axis_length (0, 1, 0)%R,
                  axis_length (0, 0, 1)%R) in
  let xs := map (x_coord lengths (1, 0, 0)%R) kline3 in
  let recip := real_basis (1, 0, 0)%R (0, 1, 0)%R (0, 0, 1)%R in
  map (x_coord lengths (1, 0, 0)%R) (map (tadd (1, 1, 1)%R) kline3)
    = map (Rplus (x_coord lengths (1, 0, 0)%R (1, 1, 1)%R)) xs /\
  calc_em (real_window 1 2 "" (1, 0, 0)%R (map (tadd (1, 1, 1)%R) kline3)
             parabola3) recip
    = calc_em (real_window 1 2 "" (1, 0, 0)%R kline3 parabola3) recip.
Proof.
  apply (X15_kpoint_translation (1, 0, 0)%R (0, 1, 0)%R (0, 0, 1)%R
           (1, 0, 0)%R (1, 1, 1)%R kline3 parabola3 1 2 "").
  - discriminate.
  - reflexivity.
  - exact kline3_full_rank.
Defined.

(** ** [bandstats]: the reciprocal lattice, the errors and the log *)

(** X16: for a lattice that is not singular, the rows [b0], [b1], [b2]
    of the reciprocal lattice [bandstats] computes are dual to the rows
    [a0], [a1], [a2] of the lattice: [b_i . a_j] is [2 pi] for [i = j]
    and [0] otherwise. *)
Theorem X16_reciprocal_lattice_dual :
  forall a0 a1 a2 : R * R * R,
    rdet3 (a0, a1, a2) <> 0%R ->
    exists b0 b1 b2,
      reciprocal_lattice (a0, a1, a2) = Some (b0, b1, b2) /\
      rdot b0 a0 = (2 * PI)%R /\ rdot b0 a1 = 0%R /\ rdot b0 a2 = 0%R /\
      rdot b1 a0 = 0%R /\ rdot b1 a1 = (2 * PI)%R /\ rdot b1 a2 = 0%R /\
      rdot b2 a0 = 0%R /\ rdot b2 a1 = 0%R /\ rdot b2 a2 = (2 * PI)%R.
Proof.
  intros [[a b] c] [[d e] f] [[g h] i] Hd.
  unfold reciprocal_lattice, rinv3.
  destruct (Req_dec_T (rdet3 (a, b, c, (d, e, f), (g, h, i))) 0) as [E|_];
    [contradiction|].
  cbn [option_map rtranspose two_pi_times].
  eexists. eexists. eexists. split; [reflexivity|].
  unfold rdot, rdet3, det3 in *.
  repeat split; field; exact Hd.
Qed.

Lemma X16_reciprocal_lattice_dual_witness :
  exists b0 b1 b2,
    reciprocal_lattice ((1, 0, 0), (0, 1, 0), (0, 0, 1))%R = Some (b0, b1, b2) /\
    rdot b0 (1, 0, 0)%R = (2 * PI)%R /\ rdot b0 (0, 1, 0)%R = 0%R /\
    rdot b0 (0, 0, 1)%R = 0%R /\
    rdot b1 (1, 0, 0)%R = 0%R /\ rdot b1 (0, 1, 0)%R = (2 * PI)%R /\
    rdot b1 (0, 0, 1)%R = 0%R /\
    rdot b2 (1, 0, 0)%R = 0%R /\ rdot b2 (0, 1, 0)%R = 0%R /\
    rdot b2 (0, 0, 1)%R = (2 * PI)%R.
Proof.
  apply (X16_reciprocal_lattice_dual (1, 0, 0)%R (0, 1, 0)%R (0, 0, 1)%R).
  unfold rdet3, det3. lra.
Defined.

(** X18: called with [vkpts] or [ckpts] left at the default [None] on a
    lattice that is not singular, valid band numbers and a path that is
    not empty, [bandstats] fails with [TypeError]: the membership test
    [k_num in None] of [get_band_edges] raises in the first pass. *)
Theorem X18_default_kpts_raise :
  forall lattice procar steps tol labels vkpts ckpts vb cb,
    rdet3 lattice <> 0%R ->
    getitem (pr_eigenvals procar) (pe_band (pr_vbm procar) - 1) = Ok vb ->
    getitem (pr_eigenvals procar) (pe_band (pr_cbm procar) - 1) = Ok cb ->
    pr_kpoints procar <> [] -> vb <> [] -> cb <> [] ->
    vkpts = None \/ ckpts = None ->
    bandstats lattice procar steps tol labels vkpts ckpts = Raises TypeError.
Proof.
  intros lattice procar steps tol labels vkpts ckpts vb cb Hd Ev Ec Hk Hv Hc Hn.
  unfold bandstats, reciprocal_lattice, rinv3.
  destruct lattice as [[[[a b] c] [[d e] f]] [[g h] i]].
  destruct (Req_dec_T (rdet3 (a, b, c, (d, e, f), (g, h, i))) 0) as [E|_];
    [contradiction|].
  cbn [option_map]. rewrite Ev, Ec. cbn [bind].
  assert (Eo : get_band_edges_opt (pr_kpoints procar) vb cb
                 (nominal_of (pr_vbm procar)) (nominal_of (pr_cbm procar))
                 tol vkpts ckpts = Raise TypeError).
  { unfold get_band_edges_opt, scan_items.
    destruct (pr_kpoints procar) as [|k ks]; [congruence|].
    destruct vb as [|v vb']; [congruence|]. destruct cb as [|c0 cb']; [congruence|].
    cbn [combine]. destruct Hn as [-> | ->]; [reflexivity|].
    now destruct vkpts. }
  now rewrite Eo.
Qed.

Lemma X18_default_kpts_raise_witness :
  bandstats ((1, 0, 0), (0, 1, 0), (0, 0, 1))%R
    (mk_procar [map Fin vb3; map Fin cb3]
       (mk_procar_edge 1 (Fin (-1 / 5)) 2) (mk_procar_edge 2 (Fin 2) 2) path3)
    2 (Fin (1 / 5000)) None None None
  = Raises TypeError.
Proof.
  apply (X18_default_kpts_raise _ _ _ _ _ _ _ (map Fin vb3) (map Fin cb3)).
  - unfold rdet3, det3. lra.
  - reflexivity.
  - reflexivity.
  - discriminate.
  - discriminate.
  - discriminate.
  - now left.
Defined.

(** The windows of [get_data] carry no label of their own. *)
Lemma window_at_label kpoints band steps edge x w :
  window_at kpoints band steps edge x = Ok (Some w) -> w_label w = ""%string.
Proof.
  unfold window_at.
  destruct ((num edge - 1 + x >? 0) && (num edge - 1 + x <? len band))%Z;
    [|discriminate].
  destruct (x <? 0)%Z;
    repeat match goal with
           | |- bind (getitem ?l ?i) _ = _ -> _ =>
               destruct (getitem l i); cbn [bind]; [|discriminate]
           end;
    intros H; inversion H; reflexivity.
Qed.

Lemma get_data_labels kpoints band band_edges steps labels ws w :
  get_data kpoints band band_edges steps labels = Ok ws -> In w ws ->
  exists edge,
    In edge band_edges /\
    (window_label w = forward_label (num edge) steps \/
     window_label w = backward_label (num edge) steps).
Proof.
  intros Hg Hw.
  destruct (get_data_In _ _ _ _ _ _ _ Hg Hw) as [edge [x (He & Hx & E)]].
  pose proof (window_at_label _ _ _ _ _ _ E) as El.
  apply window_at_bounds in E. destruct E as [S En].
  exists edge. split; [assumption|].
  unfold window_label, forward_label, backward_label. rewrite El, S, En.
  cbn [String.eqb].
  replace (num edge - 1 + 1)%Z with (num edge) by lia.
  destruct Hx as [-> | ->]; [right | left].
  - now replace (num edge - 1 + - steps + 1)%Z with (num edge - steps)%Z by lia.
  - now replace (num edge - 1 + steps + 1)%Z with (num edge + steps)%Z by lia.
Qed.

Lemma masses_fold recip data : forall acc out,
  foldM (fun acc w =>
           em <- calc_em w recip ;;
           Ok (acc ++ [(window_label w, em)])) data acc = Ok out ->
  map fst out = map fst acc ++ map window_label data.
Proof.
  induction data as [|w data IH]; intros acc out H; cbn [foldM] in H.
  - inversion H. cbn. now rewrite app_nil_r.
  - destruct (calc_em w recip) as [em|]; cbn [bind] in H; [|discriminate].
    rewrite (IH _ _ H), map_app. cbn [map fst]. now rewrite <- app_assoc.
Qed.

(** One entry per window, with its label, in the order of the windows *)
Lemma masses_labels data recip out :
  masses data recip = Ok out -> map fst out = map window_label data.
Proof. unfold masses. intros H. apply masses_fold in H. exact H. Qed.

(** What a run of [bandstats] that returns went through *)
Lemma bandstats_Returns lattice procar steps tol labels vkpts ckpts out :
  bandstats lattice procar steps tol labels vkpts ckpts = Returns out ->
  exists recip vb cb vk ck vb_data cb_data,
    reciprocal_lattice lattice = Some recip /\
    getitem (pr_eigenvals procar) (pe_band (pr_vbm procar) - 1) = Ok vb /\
    getitem (pr_eigenvals procar) (pe_band (pr_cbm procar) - 1) = Ok cb /\
    vkpts = Some vk /\ ckpts = Some ck /\
    get_band_edges (pr_kpoints procar) vb cb (nominal_of (pr_vbm procar))
      (nominal_of (pr_cbm procar)) tol vk ck = Ok (bs_report out) /\
    get_data (pr_kpoints procar) vb (vbms (bs_report out)) steps labels
      = Ok vb_data /\
    get_data (pr_kpoints procar) cb (cbms (bs_report out)) steps labels
      = Ok cb_data /\
    masses vb_data (basis_of recip) = Ok (bs_holes out) /\
    masses cb_data (basis_of recip) = Ok (bs_electrons out).
Proof.
  unfold bandstats.
  destruct (reciprocal_lattice lattice) as [recip|]; [|discriminate].
  destruct (getitem (pr_eigenvals procar) (pe_band (pr_vbm procar) - 1))
    as [vb|]; cbn [bind outcome_of]; [|discriminate].
  destruct (getitem (pr_eigenvals procar) (pe_band (pr_cbm procar) - 1))
    as [cb|]; cbn [bind outcome_of]; [|discriminate].
  destruct (get_band_edges_opt (pr_kpoints procar) vb cb
              (nominal_of (pr_vbm procar)) (nominal_of (pr_cbm procar))
              tol vkpts ckpts) as [rep|] eqn:Eo; cbn [bind outcome_of];
    [|discriminate].
  destruct (get_data (pr_kpoints procar) vb (vbms rep) steps labels)
    as [vb_data|] eqn:Ev; cbn [bind outcome_of]; [|discriminate].
  destruct (get_data (pr_kpoints procar) cb (cbms rep) steps labels)
    as [cb_data|] eqn:Ec; cbn [bind outcome_of]; [|discriminate].
  destruct (masses vb_data (basis_of recip)) as [holes|] eqn:Eh;
    cbn [bind outcome_of]; [|discriminate].
  destruct (masses cb_data (basis_of recip)) as [electrons|] eqn:Ee;
    cbn [bind outcome_of]; [|discriminate].
  intros H. inversion H; subst out. cbn [bs_report bs_holes bs_electrons].
  assert (Hopt : exists vk ck, vkpts = Some vk /\ ckpts = Some ck /\
            get_band_edges (pr_kpoints procar) vb cb (nominal_of (pr_vbm procar))
              (nominal_of (pr_cbm procar)) tol vk ck = Ok rep).
  { unfold get_band_edges_opt in Eo.
    destruct vkpts as [vk|], ckpts as [ck|];
      try (destruct (scan_items (pr_kpoints procar) vb cb) eqn:Es;
           [rewrite get_band_edges_no_points in Eo;
            [discriminate | left; unfold vbm_points; now rewrite Es]
           | discriminate]).
    now exists vk, ck. }
  destruct Hopt as [vk [ck (-> & -> & Eg)]].
  exists recip, vb, cb, vk, ck, vb_data, cb_data. auto 12.
Qed.

(** A window with as many k-points as energies, and at least one, goes
    through the fit without an exception. *)
Lemma polyfit2_returns x y :
  x <> [] -> length x = length y -> exists a b c, polyfit2 x y = Ok [a; b; c].
Proof.
  intros Hx Hl. unfold polyfit2, len.
  destruct (Z.eqb_spec (Z.of_nat (length x)) 0) as [H0|_].
  { destruct x; [congruence|discriminate]. }
  rewrite Hl, Z.eqb_refl. cbn [negb].
  destruct (reals x) as [xs|]; [|now exists NaN, NaN, NaN].
  destruct (reals y) as [ys|]; [|now exists NaN, NaN, NaN].
  destruct (Req_dec_T (fit_det xs) 0); [now exists NaN, NaN, NaN|].
  destruct (lstsq2 xs ys) as [[a b] c]. now exists (Fin a), (Fin b), (Fin c).
Qed.

Lemma calc_em_returns w recip :
  w_kpoints w <> [] -> length (w_kpoints w) = length (w_vals w) ->
  exists em, calc_em w recip = Ok em.
Proof.
  intros Hk Hl. rewrite calc_em_x_coords.
  destruct (polyfit2_returns (x_coords w recip) (w_vals w)) as [a [b [c E]]].
  - unfold x_coords. destruct (w_kpoints w); [congruence|discriminate].
  - unfold x_coords. now rewrite length_map.
  - rewrite E. cbn [bind]. rewrite getitem_head. cbn [bind]. eauto.
Qed.

Lemma masses_fold_returns recip data : forall acc,
  Forall (fun w => w_kpoints w <> [] /\
                   length (w_kpoints w) = length (w_vals w)) data ->
  exists out,
    foldM (fun acc w =>
             em <- calc_em w recip ;;
             Ok (acc ++ [(window_label w, em)])) data acc = Ok out.
Proof.
  induction data as [|w data IH]; intros acc H; cbn [foldM]; [eauto|].
  destruct (Forall_inv H) as [Hk Hl].
  destruct (calc_em_returns w recip Hk Hl) as [em E]. rewrite E. cbn [bind].
  apply IH. now apply Forall_inv_tail in H.
Qed.

Lemma get_data_shapes kpoints band band_edges steps labels :
  len kpoints = len band -> (1 <= steps)%Z ->
  Forall (fun edge => (1 <= num edge <= len band)%Z) band_edges ->
  exists ws,
    get_data kpoints band band_edges steps labels = Ok ws /\
    Forall (fun w => w_kpoints w <> [] /\
                     length (w_kpoints w) = length (w_vals w)) ws.
Proof.
  intros Hlen Hsteps Hedges.
  destruct (get_data_windows kpoints band band_edges steps labels Hlen Hsteps Hedges)
    as [ws [Eg Hws]].
  exists ws. split; [exact Eg|]. apply Forall_forall. intros w Hw.
  destruct (Hws w Hw) as [edge [x (_ & _ & _ & _ & _ & (_ & _ & Lv & Lk))]].
  unfold len in Lv, Lk. split; [|lia].
  intros E. rewrite E in Lk. cbn [length] in Lk. lia.
Qed.

Lemma on_path_range kpoints vb cb band p :
  on_path kpoints vb cb band p -> len vb = len band \/ len cb = len band ->
  (1 <= num p <= len band)%Z.
Proof. intros (H1 & _ & Hv & Hc & _) [<- | <-]; lia. Qed.

Lemma reciprocal_lattice_Some lattice :
  rdet3 lattice <> 0%R -> exists recip, reciprocal_lattice lattice = Some recip.
Proof.
  intros Hd. unfold reciprocal_lattice, rinv3.
  destruct lattice as [[[[a b] c] [[d e] f]] [[g h] i]].
  destruct (Req_dec_T (rdet3 (a, b, c, (d, e, f), (g, h, i))) 0) as [E|_];
    [contradiction|].
  cbn [option_map]. eauto.
Qed.

(** On a lattice that is not singular, a well-formed PROCAR of real
    energies, a positive tolerance, [steps >= 1] and given forced
    indices, the run goes through every stage; a fit that numpy would
    carry out on rank-deficient or non-finite abscissas is represented
    here by coefficients that are not numbers, so this lemma only serves
    to exhibit returning runs on data where the fits are regular. *)
Lemma bandstats_returns lattice procar steps tolr labels vk ck vbr cbr :
  rdet3 lattice <> 0%R ->
  getitem (pr_eigenvals procar) (pe_band (pr_vbm procar) - 1)
    = Ok (map Fin vbr) ->
  getitem (pr_eigenvals procar) (pe_band (pr_cbm procar) - 1)
    = Ok (map Fin cbr) ->
  length (pr_kpoints procar) = length vbr -> length vbr = length cbr ->
  vbr <> [] -> (0 < tolr)%R -> (1 <= steps)%Z ->
  exists out,
    bandstats lattice procar steps (Fin tolr) labels (Some vk) (Some ck)
      = Returns out.
Proof.
  intros Hd Ev Ec Hk Hvc Hne Htol Hsteps.
  destruct (reciprocal_lattice_Some lattice Hd) as [recip Er].
  unfold bandstats. rewrite Er, Ev, Ec. cbn [bind get_band_edges_opt].
  destruct (get_band_edges_reals (pr_kpoints procar) vbr cbr tolr
              (nominal_of (pr_vbm procar)) (nominal_of (pr_cbm procar))
              vk ck Hk Hvc Hne Htol) as [rep [_ [_ [Eg _]]]].
  rewrite Eg. cbn [bind].
  destruct (report_points_on_path _ _ _ _ _ _ _ _ _ Eg) as [HV HC].
  assert (Lk : len (pr_kpoints procar) = len (map Fin vbr))
    by (unfold len; rewrite length_map; lia).
  assert (Lc : len (pr_kpoints procar) = len (map Fin cbr))
    by (unfold len; rewrite length_map; lia).
  destruct (get_data_shapes (pr_kpoints procar) (map Fin vbr) (vbms rep) steps
              labels Lk Hsteps) as [vb_data [Edv Fv]].
  { apply Forall_forall. intros p Hp.
    apply (on_path_range _ _ _ _ _ (HV p Hp)). now left. }
  destruct (get_data_shapes (pr_kpoints procar) (map Fin cbr) (cbms rep) steps
              labels Lc Hsteps) as [cb_data [Edc Fc]].
  { apply Forall_forall. intros p Hp.
    apply (on_path_range _ _ _ _ _ (HC p Hp)). now right. }
  rewrite Edv, Edc. cbn [bind]. unfold masses.
  destruct (masses_fold_returns (basis_of recip) vb_data [] Fv) as [holes Eh].
  destruct (masses_fold_returns (basis_of recip) cb_data [] Fc) as [electrons Ee].
  rewrite Eh. cbn [bind]. rewrite Ee.
  cbn [bind outcome_of]. eauto.
Qed.

(** X19: in a run of [bandstats] that returns, every hole mass is
    logged under the label ["kpoints n to m"] of a valence point of
    1-based k-index [n], with [m = n + steps] for its forward window and
    [m = n - steps] for its backward window, so the label names the
    extremum first; the same holds of the electron masses and the
    conduction points. *)
Theorem X19_mass_labels :
  forall lattice procar steps tol labels vkpts ckpts out,
    bandstats lattice procar steps tol labels vkpts ckpts = Returns out ->
    (forall lab em, In (lab, em) (bs_holes out) ->
       exists p, In p (vbms (bs_report out)) /\
         (lab = forward_label (num p) steps \/
          lab = backward_label (num p) steps)) /\
    (forall lab em, In (lab, em) (bs_electrons out) ->
       exists p, In p (cbms (bs_report out)) /\
         (lab = forward_label (num p) steps \/
          lab = backward_label (num p) steps)).
Proof.
  intros lattice procar steps tol labels vkpts ckpts out H.
  destruct (bandstats_Returns _ _ _ _ _ _ _ _ H)
    as [recip [vb [cb [vk [ck [vb_data [cb_data
         (_ & _ & _ & _ & _ & _ & Ev & Ec & Eh & Ee)]]]]]]].
  split; intros lab em Hin.
  - apply (in_map fst) in Hin. cbn [fst] in Hin.
    rewrite (masses_labels _ _ _ Eh) in Hin. apply in_map_iff in Hin.
    destruct Hin as [w [<- Hw]].
    destruct (get_data_labels _ _ _ _ _ _ _ Ev Hw) as [p [Hp Hl]].
    now exists p.
  - apply (in_map fst) in Hin. cbn [fst] in Hin.
    rewrite (masses_labels _ _ _ Ee) in Hin. apply in_map_iff in Hin.
    destruct Hin as [w [<- Hw]].
    destruct (get_data_labels _ _ _ _ _ _ _ Ec Hw) as [p [Hp Hl]].
    now exists p.
Qed.

Lemma procar3_returns :
  exists out,
    bandstats unit_lattice procar3 1 (Fin (1 / 10000)) None (Some []) (Some [])
      = Returns out.
Proof.
  apply (bandstats_returns unit_lattice procar3 1 (1 / 10000)%R None [] []
           vb3 cb3).
  - unfold unit_lattice, rdet3, det3. lra.
  - reflexivity.
  - reflexivity.
  - reflexivity.
  - reflexivity.
  - discriminate.
  - lra.
  - lia.
Qed.

Lemma X19_mass_labels_witness :
  exists out,
    bandstats unit_lattice procar3 1 (Fin (1 / 10000)) None (Some []) (Some [])
      = Returns out /\
    (forall lab em, In (lab, em) (bs_holes out) ->
       exists p, In p (vbms (bs_report out)) /\
         (lab = forward_label (num p) 1 \/ lab = backward_label (num p) 1)) /\
    (forall lab em, In (lab, em) (bs_electrons out) ->
       exists p, In p (cbms (bs_report out)) /\
         (lab = forward_label (num p) 1 \/ lab = backward_label (num p) 1)).
Proof.
  destruct procar3_returns as [out H]. exists out. split; [exact H|].
  exact (X19_mass_labels unit_lattice procar3 1 (Fin (1 / 10000)) None
           (Some []) (Some []) out H).
Defined.

(** X20: in a run of [bandstats] that returns, on a path with as many
    k-points as energies in either band and with [steps >= 1], the hole
    masses are as many as the windows of the valence points, one per
    window and in the order of the windows, and the electron masses as
    many as the windows of the conduction points. *)
Theorem X20_one_mass_per_window :
  forall lattice procar steps tol labels vkpts ckpts out vb cb,
    bandstats lattice procar steps tol labels vkpts ckpts = Returns out ->
    getitem (pr_eigenvals procar) (pe_band (pr_vbm procar) - 1) = Ok vb ->
    getitem (pr_eigenvals procar) (pe_band (pr_cbm procar) - 1) = Ok cb ->
    len (pr_kpoints procar) = len vb -> len vb = len cb -> (1 <= steps)%Z ->
    length (bs_holes out)
      = window_count (len vb) steps (vbms (bs_report out)) /\
    length (bs_electrons out)
      = window_count (len cb) steps (cbms (bs_report out)).
Proof.
  intros lattice procar steps tol labels vkpts ckpts out vb cb H Ev Ec Lk Lc
    Hsteps.
  destruct (bandstats_Returns _ _ _ _ _ _ _ _ H)
    as [recip [vb' [cb' [vk [ck [vb_data [cb_data
         (_ & Ev' & Ec' & _ & _ & Eg & Edv & Edc & Eh & Ee)]]]]]]].
  rewrite Ev in Ev'. inversion Ev'; subst vb'.
  rewrite Ec in Ec'. inversion Ec'; subst cb'.
  destruct (report_points_on_path _ _ _ _ _ _ _ _ _ Eg) as [HV HC].
  split.
  - destruct (get_data_window_count (pr_kpoints procar) vb
                (vbms (bs_report out)) steps labels Lk Hsteps)
      as [ws [Ew Hn]].
    { apply Forall_forall. intros p Hp.
      apply (on_path_range _ _ _ _ _ (HV p Hp)). now left. }
    rewrite Ew in Edv. inversion Edv; subst ws.
    rewrite <- Hn, <- (length_map fst), (masses_labels _ _ _ Eh).
    apply length_map.
  - destruct (get_data_window_count (pr_kpoints procar) cb
                (cbms (bs_report out)) steps labels ltac:(congruence) Hsteps)
      as [ws [Ew Hn]].
    { apply Forall_forall. intros p Hp.
      apply (on_path_range _ _ _ _ _ (HC p Hp)). now right. }
    rewrite Ew in Edc. inversion Edc; subst ws.
    rewrite <- Hn, <- (length_map fst), (masses_labels _ _ _ Ee).
    apply length_map.
Qed.

Lemma X20_one_mass_per_window_witness :
  exists out,
    bandstats unit_lattice procar3 1 (Fin (1 / 10000)) None (Some []) (Some [])
      = Returns out /\
    length (bs_holes out)
      = window_count (len (map Fin vb3)) 1 (vbms (bs_report out)) /\
    length (bs_electrons out)
      = window_count (len (map Fin cb3)) 1 (cbms (bs_report out)).
Proof.
  destruct procar3_returns as [out H]. exists out. split; [exact H|].
  apply (X20_one_mass_per_window unit_lattice procar3 1 (Fin (1 / 10000)) None
           (Some []) (Some []) out (map Fin vb3) (map Fin cb3) H).
  - reflexivity.
  - reflexivity.
  - reflexivity.
  - reflexivity.
  - lia.
Defined.

(** ** [get_data] and [calc_em] with one step: the three-point formula *)

Lemma slice_pair {A} (l : list A) i a b :
  (0 <= i)%Z ->
  nth_error l (Z.to_nat i) = Some a ->
  nth_error l (Z.to_nat (i + 1)) = Some b ->
  slice l i (i + 2) = [a; b].
Proof.
  intros Hi Ha Hb.
  assert (Hlen : (i + 2 <= len l)%Z).
  { assert (H : (Z.to_nat (i + 1) < length l)%nat)
      by (apply nth_error_Some; congruence).
    unfold len. lia. }
  pose proof (len_slice l i (i + 2) ltac:(lia) Hlen) as L.
  pose proof (nth_error_slice l i (i + 2) 0 ltac:(lia) Hlen ltac:(lia)) as N0.
  pose proof (nth_error_slice l i (i + 2) 1 ltac:(lia) Hlen ltac:(lia)) as N1.
  replace (i + 0)%Z with i in N0 by lia. rewrite Ha in N0. rewrite Hb in N1.
  unfold len in L.
  destruct (slice l i (i + 2)) as [|a' [|b' [|c' t]]]; cbn [length] in L; try lia.
  change (Z.to_nat 0) with 0%nat in N0. change (Z.to_nat 1) with 1%nat in N1.
  cbn [nth_error] in N0, N1. congruence.
Qed.

(** The fit through three equidistant abscissas with the same energy at
    both ends passes through the three samples. *)
Lemma lstsq2_three_point xc t ec en :
  t <> 0%R ->
  fit_det [xc - t; xc; xc + t]%R <> 0%R /\
  lstsq2 [xc - t; xc; xc + t]%R [en; ec; en]
    = ((en - ec) / t ^ 2, - 2 * ((en - ec) / t ^ 2) * xc,
       ec + (en - ec) / t ^ 2 * xc ^ 2)%R.
Proof.
  intros Ht.
  assert (Hd : fit_det [xc - t; xc; xc + t]%R <> 0%R).
  { replace (fit_det [xc - t; xc; xc + t]%R) with (4 * t ^ 6)%R.
    - apply Rmult_integral_contrapositive_currified; [lra|].
      now apply pow_nonzero.
    - unfold fit_det, moment, det3, Rsum. cbn [map fold_right]. ring. }
  split; [exact Hd|].
  replace [en; ec; en] with
    (map (quadratic ((en - ec) / t ^ 2) (- 2 * ((en - ec) / t ^ 2) * xc)
            (ec + (en - ec) / t ^ 2 * xc ^ 2)) [xc - t; xc; xc + t]%R).
  - now apply lstsq2_quadratic.
  - unfold quadratic. cbn [map]. repeat f_equal; field; exact Ht.
Qed.

(** [calc_em] reads the direction, the k-points and the energies of a
    window only. *)
Lemma calc_em_fields w d ks ys recip :
  w_dir w = vreal d -> w_kpoints w = map vreal ks -> w_vals w = map Fin ys ->
  calc_em w recip
  = calc_em (real_window (w_start w) (w_end w) (w_label w) d ks ys) recip.
Proof.
  destruct w as [s e vals lab dir kpts]. cbn [w_dir w_kpoints w_vals].
  intros -> -> ->. reflexivity.
Qed.

Lemma calc_em_three_point b0 b1 b2 d k1 c k3 ec en s e lab :
  let lengths := (axis_length b0, axis_length b1, axis_length b2) in
  let t := (x_coord lengths d k3 - x_coord lengths d c)%R in
  t <> 0%R ->
  (x_coord lengths d k1 = x_coord lengths d c - t)%R ->
  calc_em (real_window s e lab d [k1; c; k3] [en; ec; en])
          (real_basis b0 b1 b2)
  = Ok (Fin hbar2 / Fin (2 * ((en - ec) / t ^ 2)))%float.
Proof.
  intros lengths t Ht H1.
  destruct (lstsq2_three_point (x_coord lengths d c) t ec en Ht) as [Hd E].
  apply (calc_em_reals b0 b1 b2 d [k1; c; k3] [en; ec; en] s e lab
           ((en - ec) / t ^ 2)%R
           (- 2 * ((en - ec) / t ^ 2) * x_coord lengths d c)%R
           (ec + (en - ec) / t ^ 2 * x_coord lengths d c ^ 2)%R).
  - discriminate.
  - reflexivity.
  - cbn [map]. fold lengths. rewrite H1.
    replace (x_coord lengths d k3) with (x_coord lengths d c + t)%R
      by (unfold t; ring).
    exact Hd.
  - cbn [map]. fold lengths. rewrite H1.
    replace (x_coord lengths d k3) with (x_coord lengths d c + t)%R
      by (unfold t; ring).
    exact E.
Qed.

Lemma unit_direction_reals a b :
  a <> b ->
  unit_direction (vreal a) (vreal b) = vreal (unit_of (tsub a b)).
Proof.
  destruct a as [[x1 y1] z1], b as [[x2 y2] z2]. intros Hd.
  unfold unit_direction. cbn [vreal tsub unit_of].
  assert (Ed : vsub (vfin x1 y1 z1) (vfin x2 y2 z2)
               = vfin (x1 - x2) (y1 - y2) (z1 - z2)) by reflexivity.
  rewrite Ed, norm_vfin.
  set (a := (x1 - x2)%R). set (b := (y1 - y2)%R). set (c := (z1 - z2)%R).
  set (s := (a * a + b * b + c * c)%R).
  assert (Hs : (0 < s)%R).
  { destruct (Req_dec a 0) as [Ha|Ha]; [|unfold s; nra].
    destruct (Req_dec b 0) as [Hb|Hb]; [|unfold s; nra].
    destruct (Req_dec c 0) as [Hc|Hc]; [|unfold s; nra].
    exfalso. apply Hd. unfold a, b, c in *.
    f_equal; [f_equal|]; lra. }
  assert (Hn : (0 < sqrt s)%R) by now apply sqrt_lt_R0.
  unfold vdivs, vmap, vfin. cbn [vx vy vz].
  rewrite !fdiv_Fin by lra. reflexivity.
Qed.

Lemma getitem_map_reals {A B} (f : A -> B) (l : list A) i a :
  (0 <= i)%Z -> nth_error l (Z.to_nat i) = Some a ->
  getitem (map f l) i = Ok (f a).
Proof.
  intros Hi Ha.
  assert (H : (Z.to_nat i < length l)%nat) by (apply nth_error_Some; congruence).
  rewrite getitem_nth_error by (unfold len; rewrite length_map; lia).
  now rewrite nth_error_map, Ha.
Qed.

Lemma neighbour_distance_nonzero l0 l1 l2 c k :
  (0 < l0)%R -> (0 < l1)%R -> (0 < l2)%R -> c <> k ->
  neighbour_distance (l0, l1, l2) c k <> 0%R.
Proof.
  destruct c as [[cx cy] cz], k as [[kx ky] kz]. intros H0 H1 H2 Hd.
  unfold neighbour_distance. cbn [tsub].
  set (a := (kx - cx)%R). set (b := (ky - cy)%R). set (d := (kz - cz)%R).
  assert (Hs : (0 < a * a + b * b + d * d)%R).
  { destruct (Req_dec a 0) as [Ha|Ha]; [|nra].
    destruct (Req_dec b 0) as [Hb|Hb]; [|nra].
    destruct (Req_dec d 0) as [Hc|Hc]; [|nra].
    exfalso. apply Hd. unfold a, b, d in *.
    f_equal; [f_equal|]; lra. }
  assert (Hn : (0 < sqrt (a * a + b * b + d * d))%R) by now apply sqrt_lt_R0.
  assert (Hw : (0 < l0 * (a * a) + l1 * (b * b) + l2 * (d * d))%R).
  { pose proof (Rle_0_sqr a) as A2. pose proof (Rle_0_sqr b) as B2.
    pose proof (Rle_0_sqr d) as D2. unfold Rsqr in A2, B2, D2.
    pose proof (Rmult_le_pos l0 (a * a) ltac:(lra) A2) as PA.
    pose proof (Rmult_le_pos l1 (b * b) ltac:(lra) B2) as PB.
    pose proof (Rmult_le_pos l2 (d * d) ltac:(lra) D2) as PD.
    destruct (Rle_lt_or_eq_dec 0 (a * a) A2) as [Ha|Ha];
      [pose proof (Rmult_lt_0_compat l0 (a * a) H0 Ha); lra|].
    destruct (Rle_lt_or_eq_dec 0 (b * b) B2) as [Hb|Hb];
      [pose proof (Rmult_lt_0_compat l1 (b * b) H1 Hb); lra|].
    destruct (Rle_lt_or_eq_dec 0 (d * d) D2) as [Hc|Hc];
      [pose proof (Rmult_lt_0_compat l2 (d * d) H2 Hc); lra|].
    lra. }
  apply Rgt_not_eq. apply Rdiv_lt_0_compat; assumption.
Qed.

Lemma sqrt_norm_pos a b d :
  (a, b, d) <> (0, 0, 0)%R -> (0 < sqrt (a * a + b * b + d * d))%R.
Proof.
  intros Hd. apply sqrt_lt_R0.
  destruct (Req_dec a 0) as [Ha|Ha]; [|nra].
  destruct (Req_dec b 0) as [Hb|Hb]; [|nra].
  destruct (Req_dec d 0) as [Hc|Hc]; [|nra].
  exfalso. apply Hd. now subst.
Qed.

(** The abscissas of a backward window, whose direction runs from the
    extremum to the neighbour *)
Lemma x_coord_backward lengths c k :
  c <> k ->
  (x_coord lengths (unit_of (tsub k c)) (treflect c k)
   - x_coord lengths (unit_of (tsub k c)) c
   = - neighbour_distance lengths c k)%R /\
  (x_coord lengths (unit_of (tsub k c)) k
   = x_coord lengths (unit_of (tsub k c)) c
     + neighbour_distance lengths c k)%R.
Proof.
  destruct lengths as [[l0 l1] l2], c as [[cx cy] cz], k as [[kx ky] kz].
  intros Hd.
  unfold neighbour_distance, x_coord. cbn [tsub unit_of treflect].
  assert (Hn : (0 < sqrt ((kx - cx) * (kx - cx) + (ky - cy) * (ky - cy)
                          + (kz - cz) * (kz - cz)))%R).
  { apply sqrt_norm_pos. intros H. apply Hd. inversion H.
    f_equal; [f_equal|]; lra. }
  split; field; lra.
Qed.

(** The abscissas of a forward window, whose direction runs from the
    neighbour to the extremum *)
Lemma x_coord_forward lengths c k :
  c <> k ->
  (x_coord lengths (unit_of (tsub c k)) k
   - x_coord lengths (unit_of (tsub c k)) (treflect c c)
   = - neighbour_distance lengths c k)%R /\
  (x_coord lengths (unit_of (tsub c k)) (treflect c k)
   = x_coord lengths (unit_of (tsub c k)) (treflect c c)
     + neighbour_distance lengths c k)%R.
Proof.
  destruct lengths as [[l0 l1] l2], c as [[cx cy] cz], k as [[kx ky] kz].
  intros Hd.
  unfold neighbour_distance, x_coord. cbn [tsub unit_of treflect].
  replace ((cx - kx) * (cx - kx) + (cy - ky) * (cy - ky)
           + (cz - kz) * (cz - kz))%R
    with ((kx - cx) * (kx - cx) + (ky - cy) * (ky - cy)
          + (kz - cz) * (kz - cz))%R by ring.
  assert (Hn : (0 < sqrt ((kx - cx) * (kx - cx) + (ky - cy) * (ky - cy)
                          + (kz - cz) * (kz - cz)))%R).
  { apply sqrt_norm_pos. intros H. apply Hd. inversion H.
    f_equal; [f_equal|]; lra. }
  split; field; lra.
Qed.

(** The window of one visit with one step, on real data: the energies
    are those of the neighbour, the extremum and the neighbour again,
    and the abscissas of its three k-points are equidistant, at the
    distance [neighbour_distance], with the extremum in the middle. *)
Lemma window_at_three_point ks es edge x c k ec en lengths :
  let p := (num edge - 1)%Z in
  length ks = length es ->
  x = (-1)%Z \/ x = 1%Z -> (0 <= p < len es)%Z -> (0 < p + x < len es)%Z ->
  nth_error ks (Z.to_nat p) = Some c ->
  nth_error ks (Z.to_nat (p + x)) = Some k ->
  nth_error es (Z.to_nat p) = Some ec ->
  nth_error es (Z.to_nat (p + x)) = Some en ->
  c <> k ->
  exists w d k1 c' k3,
    window_at (map vreal ks) (map Fin es) 1 edge x = Ok (Some w) /\
    w_start w = p /\ w_end w = (p + x)%Z /\
    w_dir w = vreal d /\ w_kpoints w = map vreal [k1; c'; k3] /\
    w_vals w = map Fin [en; ec; en] /\
    (x_coord lengths d k3 - x_coord lengths d c'
     = - neighbour_distance lengths c k)%R /\
    (x_coord lengths d k1
     = x_coord lengths d c' + neighbour_distance lengths c k)%R.
Proof.
  intros p Hlen Hx Hp Hg Hc Hk Hec Hen Hd.
  assert (Lk : len (map vreal ks) = len (map Fin es))
    by (unfold len; rewrite !length_map; lia).
  assert (Le : len (map Fin es) = len es)
    by (unfold len; now rewrite length_map).
  destruct (window_at_cases (map vreal ks) (map Fin es) 1 Lk ltac:(lia) edge x)
    as [[G _] | [_ [w (E & S & En & [k_lo [k_hi (Elo & Ehi & D)]] & W)]]];
    [fold p; lia | destruct Hx; lia | fold p in G; lia |].
  fold p in E, S, En, Elo, Ehi, W.
  destruct W as (Wb & Wf & _ & _).
  assert (Nk : forall i a, nth_error ks i = Some a ->
                 nth_error (map vreal ks) i = Some (vreal a))
    by (intros i a H; now rewrite nth_error_map, H).
  assert (Ne : forall i a, nth_error es i = Some a ->
                 nth_error (map Fin es) i = Some (Fin a))
    by (intros i a H; now rewrite nth_error_map, H).
  destruct Hx as [-> | ->].
  - clear Wf.
    replace (Z.max p (p + -1) + 1)%Z with (p - 1 + 2)%Z in * by lia.
    replace (Z.min p (p + -1)) with (p - 1)%Z in * by lia.
    replace (Z.max p (p + -1)) with p in * by lia.
    replace (p + -1)%Z with (p - 1)%Z in * by lia.
    assert (Hc' : nth_error ks (Z.to_nat (p - 1 + 1)) = Some c)
      by (now replace (p - 1 + 1)%Z with p by lia).
    assert (Hec' : nth_error es (Z.to_nat (p - 1 + 1)) = Some ec)
      by (now replace (p - 1 + 1)%Z with p by lia).
    rewrite (slice_pair (map vreal ks) (p - 1) (vreal k) (vreal c)
               ltac:(lia) (Nk _ _ Hk) (Nk _ _ Hc')) in Wb.
    rewrite (slice_pair (map Fin es) (p - 1) (Fin en) (Fin ec)
               ltac:(lia) (Ne _ _ Hen) (Ne _ _ Hec')) in Wb.
    destruct (Wb ltac:(lia)) as [c0 (Ec0 & Wv & Wk)].
    assert (E0 : getitem [vreal k; vreal c] 1 = Ok (vreal c)) by reflexivity.
    rewrite E0 in Ec0. inversion Ec0; subst c0.
    rewrite (getitem_map_reals vreal ks (p - 1) k ltac:(lia) Hk) in Elo.
    rewrite (getitem_map_reals vreal ks p c ltac:(lia) Hc) in Ehi.
    inversion Elo; subst k_lo. inversion Ehi; subst k_hi.
    rewrite (unit_direction_reals k c ltac:(congruence)) in D.
    exists w, (unit_of (tsub k c)), k, c, (treflect c k).
    repeat split; try assumption.
    + rewrite Wk. destruct c as [[cx cy] cz], k as [[kx ky] kz]. reflexivity.
    + now apply x_coord_backward.
    + now apply x_coord_backward.
  - clear Wb.
    replace (Z.max p (p + 1) + 1)%Z with (p + 2)%Z in * by lia.
    replace (Z.min p (p + 1)) with p in * by lia.
    replace (Z.max p (p + 1)) with (p + 1)%Z in * by lia.
    rewrite (slice_pair (map vreal ks) p (vreal c) (vreal k)
               ltac:(lia) (Nk _ _ Hc) (Nk _ _ Hk)) in Wf.
    rewrite (slice_pair (map Fin es) p (Fin ec) (Fin en)
               ltac:(lia) (Ne _ _ Hec) (Ne _ _ Hen)) in Wf.
    destruct (Wf ltac:(lia)) as [c0 (Ec0 & Wv & Wk)].
    rewrite getitem_head in Ec0. inversion Ec0; subst c0.
    rewrite (getitem_map_reals vreal ks p c ltac:(lia) Hc) in Elo.
    rewrite (getitem_map_reals vreal ks (p + 1) k ltac:(lia) Hk) in Ehi.
    inversion Elo; subst k_lo. inversion Ehi; subst k_hi.
    rewrite (unit_direction_reals c k Hd) in D.
    exists w, (unit_of (tsub c k)), (treflect c k), (treflect c c), k.
    repeat split; try assumption.
    + rewrite Wk. destruct c as [[cx cy] cz], k as [[kx ky] kz]. reflexivity.
    + now apply x_coord_forward.
    + now apply x_coord_forward.
Qed.

(** A visit that builds a window contributes it to [get_data]. *)
Lemma visit_in_get_data kpoints band band_edges steps labels edge x w :
  len kpoints = len band -> (1 <= steps)%Z ->
  Forall (fun e => (1 <= num e <= len band)%Z) band_edges ->
  In edge band_edges -> x = (- steps)%Z \/ x = steps ->
  window_at kpoints band steps edge x = Ok (Some w) ->
  exists ws,
    get_data kpoints band band_edges steps labels = Ok ws /\ In w ws.
Proof.
  intros Hlen Hsteps Hedges Hin Hx E.
  rewrite (get_data_total kpoints band band_edges steps labels Hlen Hsteps
             Hedges).
  eexists. split; [reflexivity|].
  apply in_map_iff. exists (edge, x, w). split; [reflexivity|].
  apply in_built. cbn [fst snd]. split; [|exact E].
  apply in_visits. auto.
Qed.

(** The mass of the window of one visit with one step *)
Lemma three_point_visit ks es edge x c k ec en b0 b1 b2 :
  let p := (num edge - 1)%Z in
  let lengths := (axis_length b0, axis_length b1, axis_length b2) in
  length ks = length es ->
  x = (-1)%Z \/ x = 1%Z -> (0 <= p < len es)%Z -> (0 < p + x < len es)%Z ->
  nth_error ks (Z.to_nat p) = Some c ->
  nth_error ks (Z.to_nat (p + x)) = Some k ->
  nth_error es (Z.to_nat p) = Some ec ->
  nth_error es (Z.to_nat (p + x)) = Some en ->
  c <> k ->
  (0 < axis_length b0)%R -> (0 < axis_length b1)%R ->
  (0 < axis_length b2)%R ->
  exists w,
    window_at (map vreal ks) (map Fin es) 1 edge x = Ok (Some w) /\
    w_start w = p /\ w_end w = (p + x)%Z /\
    calc_em w (real_basis b0 b1 b2)
    = Ok (Fin hbar2
          / Fin (2 * ((en - ec) / neighbour_distance lengths c k ^ 2)))%float.
Proof.
  intros p lengths Hlen Hx Hp Hg Hc Hk Hec Hen Hd L0 L1 L2.
  destruct (window_at_three_point ks es edge x c k ec en lengths
              Hlen Hx Hp Hg Hc Hk Hec Hen Hd)
    as [w [d [k1 [c' [k3 (E & S & En & D & Wk & Wv & T3 & T1)]]]]].
  exists w. split; [exact E|]. split; [exact S|]. split; [exact En|].
  rewrite (calc_em_fields w d [k1; c'; k3] [en; ec; en] _ D Wk Wv).
  pose proof (calc_em_three_point b0 b1 b2 d k1 c' k3 ec en
                (w_start w) (w_end w) (w_label w)) as F.
  cbv zeta in F. fold lengths in F. rewrite T3 in F.
  replace ((- neighbour_distance lengths c k) ^ 2)%R
    with (neighbour_distance lengths c k ^ 2)%R in F by ring.
  apply F.
  - apply Ropp_neq_0_compat. unfold lengths.
    now apply neighbour_distance_nonzero.
  - rewrite T1. ring.
Qed.

(** X21: with one step, on a well-formed path of real k-points and
    energies, the window that runs from an extremum at [c], of energy
    [ec], to a distinct neighbour at [k], of energy [en], forward or
    backward, is fitted exactly, and its effective mass is
    [7.61996348863 / (2 (en - ec) / d^2)], where [d] is the distance
    between the two along the abscissa, [(sum_i l_i delta_i^2) / |delta|]
    with [delta = k - c] and [l_i] the lengths of the rows of the
    reciprocal basis: the mass is set by the energy difference to the
    neighbour alone. *)
Theorem X21_three_point_mass :
  forall (ks : list (R * R * R)) (es : list R) band_edges labels
         (b0 b1 b2 : R * R * R) edge x (c k : R * R * R) (ec en : R),
    let p := (num edge - 1)%Z in
    let lengths := (axis_length b0, axis_length b1, axis_length b2) in
    length ks = length es ->
    Forall (fun e => (1 <= num e <= len es)%Z) band_edges ->
    In edge band_edges -> x = (-1)%Z \/ x = 1%Z ->
    (0 < p + x < len es)%Z ->
    nth_error ks (Z.to_nat p) = Some c ->
    nth_error ks (Z.to_nat (p + x)) = Some k ->
    nth_error es (Z.to_nat p) = Some ec ->
    nth_error es (Z.to_nat (p + x)) = Some en ->
    c <> k ->
    (0 < axis_length b0)%R -> (0 < axis_length b1)%R ->
    (0 < axis_length b2)%R ->
    exists ws w,
      get_data (map vreal ks) (map Fin es) band_edges 1 labels = Ok ws /\
      In w ws /\ w_start w = p /\ w_end w = (p + x)%Z /\
      calc_em w (real_basis b0 b1 b2)
      = Ok (Fin hbar2
            / Fin (2 * ((en - ec) / neighbour_distance lengths c k ^ 2)))%float.
Proof.
  intros ks es band_edges labels b0 b1 b2 edge x c k ec en p lengths
    Hlen Hedges Hin Hx Hg Hc Hk Hec Hen Hd L0 L1 L2.
  assert (Lk : len (map vreal ks) = len (map Fin es))
    by (unfold len; rewrite !length_map; lia).
  assert (Le : len (map Fin es) = len es)
    by (unfold len; now rewrite length_map).
  assert (Hp : (0 <= p < len es)%Z).
  { rewrite Forall_forall in Hedges. specialize (Hedges _ Hin).
    unfold p. lia. }
  destruct (three_point_visit ks es edge x c k ec en b0 b1 b2
              Hlen Hx Hp Hg Hc Hk Hec Hen Hd L0 L1 L2)
    as [w (E & S & En & Em)].
  destruct (visit_in_get_data (map vreal ks) (map Fin es) band_edges 1 labels
              edge x w Lk ltac:(lia)) as [ws [Eg Hw]];
    [now rewrite Le | exact Hin | destruct Hx; subst x; auto | exact E |].
  exists ws, w. auto.
Qed.

Lemma X21_three_point_mass_witness :
  exists ws w,
    get_data (map vreal kline3) (map Fin parabola3)
      [mk_edge 2 (vfin 0 0 0) (Fin 0)] 1 None = Ok ws /\
    In w ws /\ w_start w = 1%Z /\ w_end w = 2%Z /\
    calc_em w (real_basis (1, 0, 0)%R (0, 1, 0)%R (0, 0, 1)%R)
    = Ok (Fin hbar2
          / Fin (2 * ((1 / 4 - 0)
                      / neighbour_distance
                          (axis_length (1, 0, 0)%R, axis_length (0, 1, 0)%R,
                           axis_length (0, 0, 1)%R)
                          (0, 0, 0)%R (1 / 2, 0, 0)%R ^ 2)))%float.
Proof.
  destruct axis_length_unit_rows as (A0 & A1 & A2).
  apply (X21_three_point_mass kline3 parabola3
           [mk_edge 2 (vfin 0 0 0) (Fin 0)] None
           (1, 0, 0)%R (0, 1, 0)%R (0, 0, 1)%R
           (mk_edge 2 (vfin 0 0 0) (Fin 0)) 1
           (0, 0, 0)%R (1 / 2, 0, 0)%R 0%R (1 / 4)%R).
  - reflexivity.
  - repeat constructor; cbn; lia.
  - now left.
  - now right.
  - cbn. lia.
  - reflexivity.
  - reflexivity.
  - reflexivity.
  - reflexivity.
  - intros H. inversion H. lra.
  - rewrite A0. lra.
  - rewrite A1. lra.
  - rewrite A2. lra.
Defined.

(** ** The fit of a window is centred on the extremum *)

Lemma Rsum_app l1 l2 : Rsum (l1 ++ l2) = (Rsum l1 + Rsum l2)%R.
Proof.
  unfold Rsum. induction l1 as [|a l1 IH]; cbn [app fold_right]; [ring|].
  rewrite IH. ring.
Qed.

Lemma Rsum_rev l : Rsum (rev l) = Rsum l.
Proof.
  induction l as [|a l IH]; cbn [rev]; [reflexivity|].
  rewrite Rsum_app, IH. unfold Rsum. cbn [fold_right]. ring.
Qed.

Lemma combine_snoc {A B} (xs : list A) x (y : B) : forall ys,
  length xs = length ys ->
  combine (xs ++ [x]) (ys ++ [y]) = combine xs ys ++ [(x, y)].
Proof.
  induction xs as [|a xs IH]; intros [|b ys] Hl; try discriminate;
    cbn [app combine]; [reflexivity|].
  f_equal. apply IH. now inversion Hl.
Qed.

Lemma combine_reversed {A B} (xs : list A) : forall ys : list B,
  length xs = length ys ->
  combine (rev xs) (rev ys) = rev (combine xs ys).
Proof.
  induction xs as [|a xs IH]; intros [|b ys] Hl; try discriminate;
    cbn [rev combine]; [reflexivity|].
  inversion Hl as [Hl']. rewrite combine_snoc by (now rewrite !length_rev).
  now rewrite IH.
Qed.

Lemma moment_rev k xs : moment k (rev xs) = moment k xs.
Proof. unfold moment. now rewrite map_rev, Rsum_rev. Qed.

Lemma xmoment_rev k xs ys :
  length xs = length ys -> xmoment k (rev xs) (rev ys) = xmoment k xs ys.
Proof.
  intros Hl. unfold xmoment.
  now rewrite combine_reversed, map_rev, Rsum_rev.
Qed.

(** Abscissas that are symmetric about zero have no odd moment, and none
    against energies that read the same in both directions. *)
Lemma odd_moment_symmetric k zs :
  map Ropp (rev zs) = zs -> Nat.odd k = true -> moment k zs = 0%R.
Proof.
  intros Hs Hk.
  pose proof (moment_opp k (rev zs)) as H. rewrite Hs, moment_rev in H.
  destruct (Nat.odd_spec k) as [Ho _]. destruct (Ho Hk) as [m ->].
  replace ((-1) ^ (2 * m + 1))%R with (-1)%R in H; [lra|].
  rewrite pow_add, pow_mult. replace ((-1) ^ 2)%R with 1%R by ring.
  rewrite pow1. ring.
Qed.

Lemma odd_xmoment_symmetric k zs ys :
  length zs = length ys -> map Ropp (rev zs) = zs -> rev ys = ys ->
  Nat.odd k = true -> xmoment k zs ys = 0%R.
Proof.
  intros Hl Hs Hy Hk.
  pose proof (xmoment_opp k (rev zs) (rev ys)) as H.
  rewrite Hs, xmoment_rev, Hy in H by assumption.
  destruct (Nat.odd_spec k) as [Ho _]. destruct (Ho Hk) as [m ->].
  replace ((-1) ^ (2 * m + 1))%R with (-1)%R in H; [lra|].
  rewrite pow_add, pow_mult. replace ((-1) ^ 2)%R with 1%R by ring.
  rewrite pow1. ring.
Qed.

(** A full-rank fit of energies that read the same in both directions,
    on abscissas that are symmetric about [xc], has its stationary point
    at [xc]: the linear coefficient is [- 2 a xc]. *)
Lemma lstsq2_centred xs ys xc a b c :
  length xs = length ys ->
  map (fun x => 2 * xc - x)%R (rev xs) = xs -> rev ys = ys ->
  fit_det xs <> 0%R -> lstsq2 xs ys = (a, b, c) ->
  b = (- 2 * a * xc)%R.
Proof.
  intros Hl Hs Hy Hd E.
  set (zs := map (Rplus (- xc)) xs).
  assert (Ex : xs = map (Rplus xc) zs).
  { unfold zs. rewrite map_map. rewrite <- (map_id xs) at 1.
    apply map_ext. intros x. lra. }
  assert (Hz : map Ropp (rev zs) = zs).
  { unfold zs. rewrite <- map_rev, map_map.
    rewrite <- Hs at 2. rewrite map_map. apply map_ext. intros x. lra. }
  assert (Lz : length zs = length ys) by (unfold zs; now rewrite length_map).
  assert (Dz : fit_det zs <> 0%R) by (unfold zs; now rewrite fit_det_shift).
  destruct (lstsq2 zs ys) as [[a0 b0] c0] eqn:E0.
  pose proof (lstsq2_shift xc zs ys a0 b0 c0 Dz E0) as Hsh.
  rewrite <- Ex, E in Hsh. inversion Hsh; subst a.
  assert (Hb0 : b0 = 0%R).
  { unfold lstsq2 in E0. inversion E0 as [[Ea Eb Ec]].
    rewrite (odd_moment_symmetric 3 zs Hz eq_refl).
    rewrite (odd_moment_symmetric 1 zs Hz eq_refl).
    rewrite (odd_xmoment_symmetric 1 zs ys Lz Hz Hy eq_refl).
    unfold det3. unfold Rdiv. ring. }
  subst b0. ring.
Qed.

Lemma map_injective {A B} (f : A -> B) :
  (forall a b, f a = f b -> a = b) ->
  forall l1 l2, map f l1 = map f l2 -> l1 = l2.
Proof.
  intros Hf. induction l1 as [|a l1 IH]; intros [|b l2] H; try discriminate;
    [reflexivity|].
  cbn [map] in H. inversion H as [[Hab Ht]].
  f_equal; [now apply Hf | now apply IH].
Qed.

Lemma vreal_injective a b : vreal a = vreal b -> a = b.
Proof.
  destruct a as [[x1 y1] z1], b as [[x2 y2] z2]. cbn [vreal]. unfold vfin.
  intros H. now inversion H.
Qed.

Lemma Fin_injective a b : Fin a = Fin b -> a = b.
Proof. intros H. now inversion H. Qed.

Lemma finite_kpoints_reals l :
  Forall (fun k => vfinite k = true) l -> exists l', l = map vreal l'.
Proof.
  induction 1 as [|k l Hk _ [l' ->]]; [now exists []|].
  destruct (vfinite_vfin k Hk) as [x [y [z ->]]].
  now exists ((x, y, z) :: l').
Qed.

Lemma finite_energies_reals l :
  Forall (fun v => is_finite v = true) l -> exists l', l = map Fin l'.
Proof.
  induction 1 as [|v l Hv _ [l' ->]]; [now exists []|].
  destruct v as [| | |r]; try discriminate. now exists (r :: l').
Qed.

Lemma Forall_tl {A} (P : A -> Prop) l : Forall P l -> Forall P (tl l).
Proof. intros H. destruct l; [exact H | now apply Forall_inv_tail in H]. Qed.

Lemma vreal_finite l : Forall (fun k => vfinite k = true) (map vreal l).
Proof.
  apply Forall_forall. intros k Hk. apply in_map_iff in Hk.
  destruct Hk as [[[x y] z] [<- _]]. reflexivity.
Qed.

Lemma Fin_finite l : Forall (fun v => is_finite v = true) (map Fin l).
Proof.
  apply Forall_forall. intros v Hv. apply in_map_iff in Hv.
  now destruct Hv as [r [<- _]].
Qed.

Lemma mirror_finite c l :
  vfinite c = true -> Forall (fun k => vfinite k = true) l ->
  Forall (fun k => vfinite k = true) (mirror c l).
Proof.
  intros Hc Hl. unfold mirror. apply Forall_map.
  apply (Forall_impl _ (P := fun k => vfinite k = true)); [|exact Hl].
  intros k Hk. destruct (vfinite_vfin c Hc) as [x [y [z ->]]].
  destruct (vfinite_vfin k Hk) as [x' [y' [z' ->]]]. reflexivity.
Qed.

Lemma mirror_reals c l :
  mirror (vreal c) (map vreal l) = map vreal (map (treflect c) l).
Proof.
  unfold mirror. rewrite !map_map. apply map_ext. intros k.
  destruct c as [[cx cy] cz], k as [[kx ky] kz]. reflexivity.
Qed.

Lemma x_coord_treflect lengths d c k :
  x_coord lengths d (treflect c k)
  = (2 * x_coord lengths d c - x_coord lengths d k)%R.
Proof.
  destruct lengths as [[l0 l1] l2], d as [[dx dy] dz], c as [[cx cy] cz],
    k as [[kx ky] kz].
  unfold x_coord. cbn [treflect]. ring.
Qed.

(** The k-points and the energies of a window on a finite path are
    finite. *)
Lemma specified_window_finite kpoints band steps p x w :
  window_as_specified kpoints band steps p x w -> (x < 0 \/ x > 0)%Z ->
  Forall (fun k => vfinite k = true) kpoints ->
  Forall (fun v => is_finite v = true) band ->
  Forall (fun k => vfinite k = true) (w_kpoints w) /\
  Forall (fun v => is_finite v = true) (w_vals w).
Proof.
  intros (Hneg & Hpos & _) Hx Fk Fv.
  destruct Hx as [Hx|Hx].
  - destruct (Hneg Hx) as [c (Ec & -> & ->)].
    apply getitem_In in Ec.
    pose proof (Forall_slice _ kpoints (Z.min p (p + x)) (Z.max p (p + x) + 1) Fk)
      as Fs.
    pose proof (Forall_slice _ band (Z.min p (p + x)) (Z.max p (p + x) + 1) Fv)
      as Fb.
    assert (Hc : vfinite c = true) by (rewrite Forall_forall in Fs; auto).
    split; apply Forall_app; split; try assumption; apply Forall_tl, Forall_rev;
      [now apply mirror_finite | assumption].
  - destruct (Hpos Hx) as [c (Ec & -> & ->)].
    apply getitem_In in Ec.
    pose proof (Forall_slice _ kpoints (Z.min p (p + x)) (Z.max p (p + x) + 1) Fk)
      as Fs.
    pose proof (Forall_slice _ band (Z.min p (p + x)) (Z.max p (p + x) + 1) Fv)
      as Fb.
    assert (Hc : vfinite c = true) by (rewrite Forall_forall in Fs; auto).
    split; apply Forall_app; split; try (now apply Forall_tl);
      apply Forall_rev; [now apply mirror_finite | assumption].
Qed.

Lemma dot_vnan v : dot vnan v = NaN.
Proof. destruct v as [[| | |x] [| | |y] [| | |z]]; reflexivity. Qed.

Lemma triple_eq_dec (a b : R * R * R) : a = b \/ a <> b.
Proof.
  destruct a as [[x1 y1] z1], b as [[x2 y2] z2].
  destruct (Req_dec x1 x2) as [->|H]; [|right; intros E; now inversion E].
  destruct (Req_dec y1 y2) as [->|H]; [|right; intros E; now inversion E].
  destruct (Req_dec z1 z2) as [->|H]; [|right; intros E; now inversion E].
  now left.
Qed.

(** A window of a real path whose abscissas are finite: its direction
    and k-points are real, its abscissas are their [x_coord], symmetric
    about the abscissa of the extremum, which is the middle one. *)
Lemma window_abscissas_symmetric ks es steps edge x w b0 b1 b2 xs :
  let lengths := (axis_length b0, axis_length b1, axis_length b2) in
  length ks = length es -> (1 <= steps)%Z ->
  (1 <= num edge <= len es)%Z -> x = (- steps)%Z \/ x = steps ->
  window_at (map vreal ks) (map Fin es) steps edge x = Ok (Some w) ->
  x_coords w (real_basis b0 b1 b2) = map Fin xs ->
  exists ys xc,
    w_vals w = map Fin ys /\ length xs = length ys /\ xs <> [] /\
    rev ys = ys /\
    map (fun x => 2 * xc - x)%R (rev xs) = xs /\
    nth_error xs (Z.to_nat steps) = Some xc.
Proof.
  intros lengths Hlen Hsteps He Hx E Hxs.
  assert (Lk : len (map vreal ks) = len (map Fin es))
    by (unfold len; rewrite !length_map; lia).
  assert (Le : len (map Fin es) = len es)
    by (unfold len; now rewrite length_map).
  destruct (window_at_cases (map vreal ks) (map Fin es) steps Lk Hsteps edge x)
    as [[_ E'] | [G [w' (E' & S & En & [k_lo [k_hi (Elo & Ehi & D)]] & W)]]];
    [lia | assumption | congruence |].
  rewrite E in E'. inversion E'; subst w'. clear E'.
  set (p := (num edge - 1)%Z) in *.
  assert (Hp : (0 <= p < len (map Fin es))%Z) by (unfold p; lia).
  destruct (specified_vals_symmetric (map vreal ks) (map Fin es) steps p x w)
    as [Vsym _]; try assumption.
  destruct (specified_kpoints_symmetric (map vreal ks) (map Fin es) steps p x w)
    as [c (Ecp & Ecw & Ksym)]; try assumption; [apply vreal_finite|].
  destruct (specified_window_finite _ _ _ _ _ _ W ltac:(lia)
              (vreal_finite ks) (Fin_finite es)) as [Fk Fv].
  destruct (finite_kpoints_reals _ Fk) as [ks' Ek].
  destruct (finite_energies_reals _ Fv) as [ys Ev].
  destruct W as (_ & _ & Lv & Lw).
  assert (Hc0 : exists c0, c = vreal c0).
  { apply nth_error_In, in_map_iff in Ecp. destruct Ecp as [c0 [<- _]].
    now exists c0. }
  destruct Hc0 as [c0 ->].
  assert (Hlo : exists a, k_lo = vreal a).
  { apply getitem_In, in_map_iff in Elo. destruct Elo as [a [<- _]].
    now exists a. }
  assert (Hhi : exists b, k_hi = vreal b).
  { apply getitem_In, in_map_iff in Ehi. destruct Ehi as [b [<- _]].
    now exists b. }
  destruct Hlo as [a ->]. destruct Hhi as [b ->].
  assert (Hne : ks' <> []).
  { intros ->. rewrite Ek in Lw. unfold len in Lw. cbn [map length] in Lw. lia. }
  destruct (triple_eq_dec a b) as [<- | Hab].
  { exfalso. rewrite unit_direction_coincide in D
      by (destruct a as [[? ?] ?]; reflexivity).
    unfold x_coords in Hxs. rewrite D, Ek in Hxs.
    destruct ks' as [|k0 ks']; [congruence|].
    destruct xs as [|x0 xs]; [discriminate|].
    cbn [map] in Hxs. rewrite dot_vnan in Hxs. discriminate. }
  rewrite (unit_direction_reals a b Hab) in D.
  set (d := unit_of (tsub a b)) in *.
  assert (Ex : xs = map (x_coord lengths d) ks').
  { apply (map_injective Fin Fin_injective).
    rewrite <- Hxs. unfold x_coords, real_basis. rewrite D, Ek.
    rewrite row_lengths_reals. fold lengths. now rewrite x_coords_reals. }
  assert (Ks : map (treflect c0) (rev ks') = ks').
  { apply (map_injective vreal vreal_injective).
    rewrite <- mirror_reals, map_rev, <- Ek. exact Ksym. }
  exists ys, (x_coord lengths d c0).
  split; [exact Ev|].
  split.
  { rewrite Ex, length_map. rewrite Ek, Ev in *. unfold len in Lv, Lw.
    rewrite length_map in Lv, Lw. lia. }
  split; [rewrite Ex; destruct ks'; [congruence|discriminate]|].
  split.
  { apply (map_injective Fin Fin_injective). rewrite map_rev, <- Ev.
    exact Vsym. }
  split.
  { rewrite Ex, <- map_rev, map_map. rewrite <- Ks at 2. rewrite map_map.
    apply map_ext. intros k. now rewrite x_coord_treflect. }
  rewrite Ex, nth_error_map. rewrite Ek, nth_error_map in Ecw.
  destruct (nth_error ks' (Z.to_nat steps)) as [c1|]; [|discriminate].
  cbn [option_map] in *. inversion Ecw as [Hc1].
  apply vreal_injective in Hc1. now subst c1.
Qed.

(** X22: on a well-formed path of real k-points and energies, whatever
    the number of steps, the parabola fitted to a window (finite
    abscissas, fit of full rank) has its stationary point at the
    abscissa [xc] of the extremum, the middle sample: its linear
    coefficient is [- 2 a xc].  Mirroring the samples about the
    extremum pins the parabola there, and only its curvature [a], hence
    the effective mass, is left to the data. *)
Theorem X22_fit_centred_on_extremum :
  forall (ks : list (R * R * R)) (es : list R) band_edges steps labels
         (b0 b1 b2 : R * R * R),
    length ks = length es -> (1 <= steps)%Z ->
    Forall (fun e => (1 <= num e <= len es)%Z) band_edges ->
    exists ws,
      get_data (map vreal ks) (map Fin es) band_edges steps labels = Ok ws /\
      forall w xs,
        In w ws ->
        x_coords w (real_basis b0 b1 b2) = map Fin xs -> fit_det xs <> 0%R ->
        exists a b c xc,
          polyfit2 (x_coords w (real_basis b0 b1 b2)) (w_vals w)
            = Ok [Fin a; Fin b; Fin c] /\
          calc_em w (real_basis b0 b1 b2)
            = Ok (Fin hbar2 / Fin (2 * a))%float /\
          nth_error xs (Z.to_nat steps) = Some xc /\
          b = (- 2 * a * xc)%R.
Proof.
  intros ks es band_edges steps labels b0 b1 b2 Hlen Hsteps Hedges.
  assert (Lk : len (map vreal ks) = len (map Fin es))
    by (unfold len; rewrite !length_map; lia).
  assert (Le : len (map Fin es) = len es)
    by (unfold len; now rewrite length_map).
  eexists. split.
  { apply get_data_total; [exact Lk | exact Hsteps | now rewrite Le]. }
  intros w xs Hw Hxs Hd.
  apply in_map_iff in Hw. destruct Hw as [[[edge x] w'] [Ew Hb]].
  cbn [snd] in Ew. subst w'. apply in_built in Hb. cbn [fst snd] in Hb.
  destruct Hb as [Hv E]. apply in_visits in Hv. destruct Hv as [He Hx].
  rewrite Forall_forall in Hedges. specialize (Hedges _ He).
  destruct (window_abscissas_symmetric ks es steps edge x w b0 b1 b2 xs
              Hlen Hsteps Hedges Hx E Hxs)
    as [ys [xc (Ev & Hl & Hne & Ysym & Xsym & Hmid)]].
  destruct (lstsq2 xs ys) as [[a b] c] eqn:Ef.
  exists a, b, c, xc.
  assert (Ep : polyfit2 (x_coords w (real_basis b0 b1 b2)) (w_vals w)
               = Ok [Fin a; Fin b; Fin c]).
  { rewrite Hxs, Ev. now apply polyfit2_reals. }
  split; [exact Ep|].
  split.
  { rewrite calc_em_x_coords, Ep. cbn [bind]. rewrite getitem_head.
    cbn [bind]. rewrite fmul_Fin.
    now replace (a * 2)%R with (2 * a)%R by ring. }
  split; [exact Hmid|].
  exact (lstsq2_centred xs ys xc a b c Hl Xsym Ysym Hd Ef).
Qed.

(** With one step, the window from an extremum to a distinct neighbour
    has finite abscissas and a fit of full rank. *)
Lemma three_point_full_rank ks es band_edges labels b0 b1 b2 edge x c k ec en :
  let p := (num edge - 1)%Z in
  length ks = length es ->
  Forall (fun e => (1 <= num e <= len es)%Z) band_edges ->
  In edge band_edges -> x = (-1)%Z \/ x = 1%Z ->
  (0 < p + x < len es)%Z ->
  nth_error ks (Z.to_nat p) = Some c ->
  nth_error ks (Z.to_nat (p + x)) = Some k ->
  nth_error es (Z.to_nat p) = Some ec ->
  nth_error es (Z.to_nat (p + x)) = Some en ->
  c <> k ->
  (0 < axis_length b0)%R -> (0 < axis_length b1)%R ->
  (0 < axis_length b2)%R ->
  exists ws w xs,
    get_data (map vreal ks) (map Fin es) band_edges 1 labels = Ok ws /\
    In w ws /\
    x_coords w (real_basis b0 b1 b2) = map Fin xs /\ fit_det xs <> 0%R.
Proof.
  intros p Hlen Hedges Hin Hx Hg Hc Hk Hec Hen Hd L0 L1 L2.
  set (lengths := (axis_length b0, axis_length b1, axis_length b2)).
  assert (Lk : len (map vreal ks) = len (map Fin es))
    by (unfold len; rewrite !length_map; lia).
  assert (Le : len (map Fin es) = len es)
    by (unfold len; now rewrite length_map).
  assert (Hp : (0 <= p < len es)%Z).
  { rewrite Forall_forall in Hedges. specialize (Hedges _ Hin).
    unfold p. lia. }
  rewrite (get_data_total (map vreal ks) (map Fin es) band_edges 1 labels Lk
             ltac:(lia)) by (now rewrite Le).
  destruct (window_at_three_point ks es edge x c k ec en lengths
              Hlen Hx Hp Hg Hc Hk Hec Hen Hd)
    as [w [d [k1 [c' [k3 (E & S & En & D & Wk & Wv & T3 & T1)]]]]].
  eexists. exists w, (map (x_coord lengths d) [k1; c'; k3]).
  split; [reflexivity|].
  split.
  { apply in_map_iff. exists (edge, x, w). split; [reflexivity|].
    apply in_built. cbn [fst snd]. split; [|exact E].
    apply in_visits. split; [exact Hin|]. destruct Hx; subst x; auto. }
  split.
  { unfold x_coords, real_basis. rewrite D, Wk, row_lengths_reals.
    fold lengths. apply x_coords_reals. }
  cbn [map]. rewrite T1.
  replace (x_coord lengths d k3)
    with (x_coord lengths d c' + - neighbour_distance lengths c k)%R by lra.
  replace (x_coord lengths d c' + neighbour_distance lengths c k)%R
    with (x_coord lengths d c' - - neighbour_distance lengths c k)%R by lra.
  apply (lstsq2_three_point (x_coord lengths d c')
           (- neighbour_distance lengths c k) 0 0).
  apply Ropp_neq_0_compat. unfold lengths.
  now apply neighbour_distance_nonzero.
Qed.

Lemma kline3_window_full_rank :
  exists ws w xs,
    get_data (map vreal kline3) (map Fin parabola3)
      [mk_edge 2 (vfin 0 0 0) (Fin 0)] 1 None = Ok ws /\
    In w ws /\
    x_coords w (real_basis (1, 0, 0)%R (0, 1, 0)%R (0, 0, 1)%R) = map Fin xs /\
    fit_det xs <> 0%R.
Proof.
  destruct axis_length_unit_rows as (A0 & A1 & A2).
  apply (three_point_full_rank kline3 parabola3
           [mk_edge 2 (vfin 0 0 0) (Fin 0)] None
           (1, 0, 0)%R (0, 1, 0)%R (0, 0, 1)%R
           (mk_edge 2 (vfin 0 0 0) (Fin 0)) 1
           (0, 0, 0)%R (1 / 2, 0, 0)%R 0%R (1 / 4)%R).
  - reflexivity.
  - repeat constructor; cbn; lia.
  - now left.
  - now right.
  - cbn. lia.
  - reflexivity.
  - reflexivity.
  - reflexivity.
  - reflexivity.
  - intros H. inversion H. lra.
  - rewrite A0. lra.
  - rewrite A1. lra.
  - rewrite A2. lra.
Qed.

Lemma X22_fit_centred_on_extremum_witness :
  exists ws,
    get_data (map vreal kline3) (map Fin parabola3)
      [mk_edge 2 (vfin 0 0 0) (Fin 0)] 1 None = Ok ws /\
    (forall w xs,
       In w ws ->
       x_coords w (real_basis (1, 0, 0)%R (0, 1, 0)%R (0, 0, 1)%R) = map Fin xs ->
       fit_det xs <> 0%R ->
       exists a b c xc,
         polyfit2 (x_coords w (real_basis (1, 0, 0)%R (0, 1, 0)%R (0, 0, 1)%R))
                  (w_vals w)
           = Ok [Fin a; Fin b; Fin c] /\
         calc_em w (real_basis (1, 0, 0)%R (0, 1, 0)%R (0, 0, 1)%R)
           = Ok (Fin hbar2 / Fin (2 * a))%float /\
         nth_error xs (Z.to_nat 1) = Some xc /\
         b = (- 2 * a * xc)%R) /\
    (exists w xs,
       In w ws /\
       x_coords w (real_basis (1, 0, 0)%R (0, 1, 0)%R (0, 0, 1)%R) = map Fin xs /\
       fit_det xs <> 0%R).
Proof.
  destruct (X22_fit_centred_on_extremum kline3 parabola3
              [mk_edge 2 (vfin 0 0 0) (Fin 0)] 1 None
              (1, 0, 0)%R (0, 1, 0)%R (0, 0, 1)%R)
    as [ws [Eg H]].
  - reflexivity.
  - lia.
  - repeat constructor; cbn; lia.
  - exists ws. split; [exact Eg|]. split; [exact H|].
    destruct kline3_window_full_rank as [ws' [w [xs (Eg' & Hw & Hx & Hd)]]].
    rewrite Eg in Eg'. inversion Eg'; subst ws'.
    now exists w, xs.
Defined.

(** X27: with one step, the mass of the window from an extremum to a
    distinct neighbour of another energy is the finite number
    [7.61996348863 d^2 / (2 (en - ec))] and has the sign of [en - ec]:
    it is positive when the neighbour lies above the extremum (a minimum
    of the conduction band) and negative when it lies below (a maximum
    of the valence band: the hole masses [bandstats] logs are
    negative). *)
Theorem X27_three_point_mass_sign :
  forall (ks : list (R * R * R)) (es : list R) band_edges labels
         (b0 b1 b2 : R * R * R) edge x (c k : R * R * R) (ec en : R),
    let p := (num edge - 1)%Z in
    let lengths := (axis_length b0, axis_length b1, axis_length b2) in
    let m := (hbar2 * neighbour_distance lengths c k ^ 2 / (2 * (en - ec)))%R in
    length ks = length es ->
    Forall (fun e => (1 <= num e <= len es)%Z) band_edges ->
    In edge band_edges -> x = (-1)%Z \/ x = 1%Z ->
    (0 < p + x < len es)%Z ->
    nth_error ks (Z.to_nat p) = Some c ->
    nth_error ks (Z.to_nat (p + x)) = Some k ->
    nth_error es (Z.to_nat p) = Some ec ->
    nth_error es (Z.to_nat (p + x)) = Some en ->
    c <> k ->
    (0 < axis_length b0)%R -> (0 < axis_length b1)%R ->
    (0 < axis_length b2)%R ->
    exists ws w,
      get_data (map vreal ks) (map Fin es) band_edges 1 labels = Ok ws /\
      In w ws /\ w_start w = p /\ w_end w = (p + x)%Z /\
      ((ec < en)%R ->
       calc_em w (real_basis b0 b1 b2) = Ok (Fin m) /\ (0 < m)%R) /\
      ((en < ec)%R ->
       calc_em w (real_basis b0 b1 b2) = Ok (Fin m) /\ (m < 0)%R).
Proof.
  intros ks es band_edges labels b0 b1 b2 edge x c k ec en p lengths m
    Hlen Hedges Hin Hx Hg Hc Hk Hec Hen Hd L0 L1 L2.
  assert (Lk : len (map vreal ks) = len (map Fin es))
    by (unfold len; rewrite !length_map; lia).
  assert (Le : len (map Fin es) = len es)
    by (unfold len; now rewrite length_map).
  assert (Hp : (0 <= p < len es)%Z).
  { rewrite Forall_forall in Hedges. specialize (Hedges _ Hin).
    unfold p. lia. }
  destruct (three_point_visit ks es edge x c k ec en b0 b1 b2
              Hlen Hx Hp Hg Hc Hk Hec Hen Hd L0 L1 L2)
    as [w (E & S & En & Em)].
  destruct (visit_in_get_data (map vreal ks) (map Fin es) band_edges 1 labels
              edge x w Lk ltac:(lia)) as [ws [Eg Hw]];
    [now rewrite Le | exact Hin | destruct Hx; subst x; auto | exact E |].
  exists ws, w. repeat (split; [assumption|]).
  fold lengths in Em.
  pose proof (neighbour_distance_nonzero _ _ _ c k L0 L1 L2 Hd) as Hn.
  fold lengths in Hn.
  set (nd := neighbour_distance lengths c k) in *.
  assert (Hn2 : (0 < nd ^ 2)%R).
  { replace (nd ^ 2)%R with (nd * nd)%R by ring.
    destruct (Rtotal_order nd 0) as [H|[H|H]]; [nra | contradiction | nra]. }
  assert (Hh : (0 < hbar2)%R) by (unfold hbar2; lra).
  assert (Hm : (en <> ec ->
               hbar2 / (2 * ((en - ec) / nd ^ 2)) = m)%R).
  { intros Hne. unfold m. field. split; lra. }
  split.
  - intros Hlt. rewrite Em, fdiv_Fin.
    + rewrite Hm by lra. split; [reflexivity|].
      unfold m. apply Rdiv_lt_0_compat; [|lra].
      now apply Rmult_lt_0_compat.
    + assert (0 < (en - ec) / nd ^ 2)%R
        by (apply Rdiv_lt_0_compat; lra). lra.
  - intros Hlt. rewrite Em, fdiv_Fin.
    + rewrite Hm by lra. split; [reflexivity|].
      unfold m.
      replace (hbar2 * nd ^ 2 / (2 * (en - ec)))%R
        with (- (hbar2 * nd ^ 2 / (2 * (ec - en))))%R by (field; lra).
      assert (0 < hbar2 * nd ^ 2 / (2 * (ec - en)))%R.
      { apply Rdiv_lt_0_compat; [|lra]. now apply Rmult_lt_0_compat. }
      lra.
    + assert (0 < (ec - en) / nd ^ 2)%R
        by (apply Rdiv_lt_0_compat; lra).
      replace ((en - ec) / nd ^ 2)%R with (- ((ec - en) / nd ^ 2))%R
        by (field; lra).
      lra.
Qed.

Lemma X27_three_point_mass_sign_witness :
  exists ws w,
    get_data (map vreal kline3) (map Fin parabola3)
      [mk_edge 2 (vfin 0 0 0) (Fin 0)] 1 None = Ok ws /\
    In w ws /\ w_start w = 1%Z /\ w_end w = 2%Z /\
    exists m,
      calc_em w (real_basis (1, 0, 0)%R (0, 1, 0)%R (0, 0, 1)%R) = Ok (Fin m) /\
      (0 < m)%R.
Proof.
  destruct axis_length_unit_rows as (A0 & A1 & A2).
  destruct (X27_three_point_mass_sign kline3 parabola3
              [mk_edge 2 (vfin 0 0 0) (Fin 0)] None
              (1, 0, 0)%R (0, 1, 0)%R (0, 0, 1)%R
              (mk_edge 2 (vfin 0 0 0) (Fin 0)) 1
              (0, 0, 0)%R (1 / 2, 0, 0)%R 0%R (1 / 4)%R)
    as [ws [w (Eg & Hw & S & En & Hpos & _)]].
  - reflexivity.
  - repeat constructor; cbn; lia.
  - now left.
  - now right.
  - cbn. lia.
  - reflexivity.
  - reflexivity.
  - reflexivity.
  - reflexivity.
  - intros H. inversion H. lra.
  - rewrite A0. lra.
  - rewrite A1. lra.
  - rewrite A2. lra.
  - exists ws, w. repeat (split; [assumption|]).
    eexists. apply Hpos. lra.
Defined.

(* ================================================================== *)
(** * Properties of [optplot] *)

Lemma append_assoc_string (a b c : string) :
  ((a ++ b) ++ c = a ++ (b ++ c))%string.
Proof.
  induction a as [|ch a IH]; cbn [append]; [reflexivity|]. now rewrite IH.
Qed.

Lemma prefix_empty s : String.prefix "" s = true.
Proof. now destruct s. Qed.

Lemma comprehension_length {A B} (f : A -> attempt B) : forall l bs,
  comprehension f l = Done bs -> length bs = length l.
Proof.
  induction l as [|a l IH]; intros bs H; cbn [comprehension] in H.
  - inversion H. reflexivity.
  - destruct (f a) as [b|]; cbn [andthen] in H; [|discriminate].
    destruct (comprehension f l) as [bs'|]; cbn [andthen] in H; [|discriminate].
    inversion H. cbn [length]. f_equal. now apply IH.
Qed.

Section OptplotFacts.
Context {C : Collaborators}.

(** What a call of [optplot] went through when it passed the plotting
    stage *)
Lemma optplot_cases filenames prefix directory gaussian band_gaps labels
  average options image_format dpi plt :
  (exists f,
     optplot filenames prefix directory gaussian band_gaps labels average
       options image_format dpi plt = ([], Failed f)) \/
  (exists abs_data plt',
     optplot filenames prefix directory gaussian band_gaps labels average
       options image_format dpi plt
     = match plt with
       | Some _ => ([], Done (Some plt'))
       | None =>
           let filename := absorption_filename prefix directory image_format in
           let saved := SaveFig plt' filename image_format dpi in
           match savefig plt' filename image_format dpi with
           | Failed f => ([saved], Failed f)
           | Done _ =>
               let written := WriteFiles abs_data prefix directory in
               match write_files abs_data prefix directory with
               | Failed f => ([saved; written], Failed f)
               | Done _ => ([saved; written], Done None)
               end
           end
       end).
Proof.
  unfold optplot.
  destruct (andthen (load_spectra filenames gaussian average) _)
    as [[abs_data plt']|f].
  - right. exists abs_data, plt'. now destruct plt.
  - left. now exists f.
Qed.

(** X23: a non-empty list of numbers as [band_gaps], which the
    documentation of [optplot] allows, fails with [TypeError] once the
    spectra are loaded: ['vasprun' in band_gaps[0]] is evaluated on a
    number.  No plot is made and nothing is written. *)
Theorem X23_numeric_band_gaps_raise :
  forall filenames prefix directory gaussian g gs labels average options
         image_format dpi plt vrs abs_data,
    load_spectra filenames gaussian average = Done (vrs, abs_data) ->
    optplot filenames prefix directory gaussian (GapsNumbers (g :: gs)) labels
      average options image_format dpi plt
    = ([], Failed PyTypeError).
Proof.
  intros filenames prefix directory gaussian g gs labels average options
    image_format dpi plt vrs abs_data Hl.
  unfold optplot. rewrite Hl. reflexivity.
Qed.

(** X24: [optplot] returns a plot exactly when it was given one.  Given
    a [plt] it writes nothing, whatever the collaborators do; given
    none, a call that returns has returned [None], after [savefig] and
    then [write_files]. *)
Theorem X24_returns_plot_only_if_given :
  forall filenames prefix directory gaussian band_gaps labels average options
         image_format dpi plt,
    let run := optplot filenames prefix directory gaussian band_gaps labels
                 average options image_format dpi plt in
    (plt <> None -> fst run = []) /\
    (forall r, snd run = Done r ->
       (r = None <-> plt = None) /\
       (plt = None ->
        exists plt' abs_data,
          fst run = [SaveFig plt'
                       (absorption_filename prefix directory image_format)
                       image_format dpi;
                     WriteFiles abs_data prefix directory])).
Proof.
  intros filenames prefix directory gaussian band_gaps labels average options
    image_format dpi plt run.
  destruct (optplot_cases filenames prefix directory gaussian band_gaps labels
              average options image_format dpi plt)
    as [[f E] | [abs_data [plt' E]]]; unfold run; rewrite E; clear E.
  - cbn [fst snd]. split; [reflexivity|]. intros r H. discriminate.
  - destruct plt as [p|].
    + cbn [fst snd]. split; [reflexivity|]. intros r H. inversion H.
      split; [split; discriminate | discriminate].
    + split; [congruence|]. cbv zeta.
      destruct (savefig plt' _ image_format dpi); cbn [fst snd];
        [|intros r H; discriminate].
      destruct (write_files abs_data prefix directory); cbn [fst snd];
        intros r H; [|discriminate].
      inversion H. split; [tauto|]. intros _. now exists plt', abs_data.
Qed.

(** X26: a list of band gaps is resolved as a whole, by its first
    element, into one gap per entry: an empty list gives one gap per
    loaded file, any other list that resolves gives as many gaps as it
    has entries, whatever the number of files. *)
Theorem X26_one_gap_per_entry :
  forall (vrs : list vasprun) (l : list string) v,
    resolve_band_gaps vrs (GapsStrings l) = Done v ->
    exists gs, v = GapList gs /\
      length gs = match l with [] => length vrs | _ => length l end.
Proof.
  intros vrs l v H. destruct l as [|first rest]; cbn [resolve_band_gaps] in H.
  - destruct (comprehension vr_band_gap vrs) as [gs|] eqn:E;
      cbn [andthen] in H; [|discriminate].
    inversion H. exists gs. split; [reflexivity|].
    now apply comprehension_length in E.
  - destruct (is_substring "vasprun" first).
    + destruct (comprehension Vasprun (first :: rest)) as [bg_vrs|] eqn:E1;
        cbn [andthen] in H; [|discriminate].
      destruct (comprehension vr_band_gap bg_vrs) as [gs|] eqn:E2;
        cbn [andthen] in H; [|discriminate].
      inversion H. exists gs. split; [reflexivity|].
      apply comprehension_length in E1. apply comprehension_length in E2.
      congruence.
    + destruct (comprehension float_of_string (first :: rest)) as [gs|] eqn:E;
        cbn [andthen] in H; [|discriminate].
      inversion H. exists gs. split; [reflexivity|].
      now apply comprehension_length in E.
Qed.

End OptplotFacts.

(** X25: the image is saved as [absorption.<format>], preceded by
    [<prefix>_] when a prefix is given.  Without a directory that is the
    whole name; a directory is put in front of it with one [/] between
    them, except that a prefix starting with [/] makes the directory be
    ignored. *)
Theorem X25_absorption_filename :
  forall prefix directory image_format,
    let name := absorption_filename prefix directory image_format in
    let file := match prefix with
                | Some p => if truthy_string prefix
                            then (p ++ "_absorption." ++ image_format)%string
                            else ("absorption." ++ image_format)%string
                | None => ("absorption." ++ image_format)%string
                end in
    (exists u, name = (u ++ "absorption." ++ image_format)%string) /\
    (truthy_string directory = false -> name = file) /\
    (forall p, prefix = Some p -> String.prefix "/" p = true -> name = file) /\
    (forall d, directory = Some d -> truthy_string directory = true ->
       String.prefix "/" file = false ->
       name = if ends_with_slash d then (d ++ file)%string
              else (d ++ "/" ++ file)%string).
Proof.
  intros prefix directory image_format name file.
  assert (Ef : forall d, name = file \/ name = (d ++ file)%string
                         \/ name = (d ++ "/" ++ file)%string ->
               exists u, name = (u ++ "absorption." ++ image_format)%string).
  { intros d H. unfold file in H.
    destruct prefix as [[|c p]|]; cbn [truthy_string] in H.
    - destruct H as [-> | [-> | ->]].
      + now exists ""%string.
      + now exists d.
      + exists (d ++ "/")%string. now rewrite append_assoc_string.
    - destruct H as [-> | [-> | ->]].
      + exists (String c p ++ "_")%string. now rewrite append_assoc_string.
      + exists (d ++ String c p ++ "_")%string.
        now rewrite !append_assoc_string.
      + exists (d ++ "/" ++ String c p ++ "_")%string.
        now rewrite !append_assoc_string.
    - destruct H as [-> | [-> | ->]].
      + now exists ""%string.
      + now exists d.
      + exists (d ++ "/")%string. now rewrite append_assoc_string. }
  assert (En : name = match directory with
                      | Some d => if truthy_string directory
                                  then path_join d file else file
                      | None => file
                      end).
  { unfold name, absorption_filename, file.
    destruct prefix as [[|c p]|]; reflexivity. }
  repeat split.
  - destruct directory as [[|c d]|]; cbn [truthy_string] in En.
    + apply (Ef ""%string). now left.
    + apply (Ef (String c d)). unfold path_join in En.
      destruct (String.prefix "/" file); [now left|].
      cbn [orb] in En.
      destruct (ends_with_slash (String c d)); [right; now left|].
      right; now right.
    + apply (Ef ""%string). now left.
  - intros Hd. rewrite En. destruct directory as [[|c d]|];
      cbn [truthy_string] in *; try reflexivity; discriminate.
  - intros p -> Hp. rewrite En.
    assert (Hfile : String.prefix "/" file = true).
    { unfold file. destruct p as [|c p]; [discriminate|].
      cbn [truthy_string append String.prefix] in Hp |- *.
      destruct (Ascii.ascii_dec _ c); [|discriminate].
      apply prefix_empty. }
    destruct directory as [[|c d]|]; cbn [truthy_string]; try reflexivity.
    unfold path_join. now rewrite Hfile.
  - intros d -> Hd Hfile. rewrite En, Hd. unfold path_join. rewrite Hfile.
    destruct d as [|c d]; [discriminate|]. reflexivity.
Qed.

Lemma X23_numeric_band_gaps_raise_witness :
  optplot (C := echo) (OneFile "vasprun.xml"%string) None None None
    (GapsNumbers [Fin (3 / 2)]) tt true tt "pdf"%string 400 None
  = ([], Failed PyTypeError).
Proof.
  apply (@X23_numeric_band_gaps_raise echo (OneFile "vasprun.xml"%string) None None
           None (Fin (3 / 2)) [] tt true tt "pdf"%string 400%Z None
           ["vasprun.xml"%string] ["vasprun.xml"%string]).
  reflexivity.
Defined.

Lemma X24_returns_plot_only_if_given_witness :
  exists plt' abs_data,
    fst (optplot (C := echo) (Files ["a.xml"%string; "b.xml"%string]) (Some "run"%string)
           (Some "out"%string) None GapsNone tt true tt "pdf"%string 400 None)
    = [SaveFig plt' (absorption_filename (Some "run"%string) (Some "out"%string) "pdf"%string)
         "pdf"%string 400;
       WriteFiles abs_data (Some "run"%string) (Some "out"%string)].
Proof.
  destruct (@X24_returns_plot_only_if_given echo (Files ["a.xml"%string; "b.xml"%string])
              (Some "run"%string) (Some "out"%string) None GapsNone tt true tt
              "pdf"%string 400%Z None) as [_ H].
  destruct (H None eq_refl) as [_ H']. exact (H' eq_refl).
Defined.

Lemma X25_absorption_filename_witness :
  absorption_filename (Some "/tmp/run"%string) (Some "out"%string) "pdf"%string
  = "/tmp/run_absorption.pdf"%string /\
  absorption_filename (Some "run"%string) (Some "out"%string) "pdf"%string
  = "out/run_absorption.pdf"%string.
Proof.
  split.
  - destruct (X25_absorption_filename (Some "/tmp/run"%string)
                (Some "out"%string) "pdf"%string) as (_ & _ & H & _).
    exact (H "/tmp/run"%string eq_refl eq_refl).
  - destruct (X25_absorption_filename (Some "run"%string)
                (Some "out"%string) "pdf"%string) as (_ & _ & _ & H).
    exact (H "out"%string eq_refl eq_refl eq_refl).
Defined.

Lemma X26_one_gap_per_entry_witness :
  exists gs,
    GapList [Fin 1; Fin 1] = GapList gs /\
    length gs = length ["vasprun_a.xml"%string; "b.xml"%string].
Proof.
  apply (@X26_one_gap_per_entry echo ["only.xml"%string]
           ["vasprun_a.xml"%string; "b.xml"%string] (GapList [Fin 1; Fin 1])).
  reflexivity.
Defined.
